(** * EmailForensicsStandalone: header and provenance analysis engine

    A shallow embedding of [src/email_core.py] (class [EmailAnalyzer]) and
    of the parts of [src/ip_lookup.py] that decide blacklist results and
    the geolocation cache ([BlacklistChecker], [IPLookupService]).

    Conventions of the embedding.
    - A Python [str] is a [string]; an [ascii] stands for a code point
      below 256.  Character classes ([\s], [\d], [str.lower],
      [str.strip]) are Python's, restricted to that range.
    - A parsed message is the ordered list of its (name, value) header
      pairs, as [email.message.Message] keeps them.
    - [re.search] is a backtracking matcher: leftmost start, alternatives
      left to right, greedy and lazy repetition.  The patterns of the
      source are written as [regex] terms next to the pattern text.
    - A [datetime] is a number of seconds together with the flag that says
      whether it carries a UTC offset; comparing or subtracting a naive and
      an aware [datetime] raises [TypeError], as in Python.
    - A Python float is the rational it denotes ([Q]); the arithmetic of
      the latency parser rounds to the nearest binary64 number as the
      interpreter does ([Float64]), and raises where it does: [int] on a
      decimal string of more than 4300 digits, the conversion of an [int]
      beyond the range of the floats.  The differences of timestamps are
      whole seconds ([Z]), which binary64 holds exactly; the clock
      readings and stamps of the geolocation cache are rationals.
    - Library calls whose code is not part of the repository
      ([email.utils.parsedate_to_datetime], [strftime],
      [email.utils.parseaddr], [ipaddress], the DNS resolver, the HTTP
      session) are section variables. *)

From Stdlib Require Import ZArith QArith Qabs Ascii String List Bool Lia.
From stdpp Require Import gmap strings.
Import ListNotations.

Local Open Scope string_scope.

(** ** Characters and strings *)

Module Str.

Definition code (c : ascii) : nat := nat_of_ascii c.

Definition between (lo hi : nat) (c : ascii) : bool :=
  (lo <=? code c)%nat && (code c <=? hi)%nat.

(** [\d] (and the characters [int()] accepts as digits). *)
Definition is_digit (c : ascii) : bool := between 48 57 c.

(** [\s] and [str.isspace]: 0x09-0x0D, 0x1C-0x20, 0x85, 0xA0. *)
Definition is_space (c : ascii) : bool :=
  between 9 13 c || between 28 32 c || (code c =? 133)%nat || (code c =? 160)%nat.

Definition is_newline (c : ascii) : bool := (code c =? 10)%nat.

(** [.] without [re.DOTALL]. *)
Definition is_dot (c : ascii) : bool := negb (is_newline c).

Definition is_upper_az (c : ascii) : bool := between 65 90 c.
Definition is_lower_az (c : ascii) : bool := between 97 122 c.

(** [str.lower] on one code point below 256. *)
Definition lower_char (c : ascii) : ascii :=
  if is_upper_az c || (between 192 222 c && negb (code c =? 215)%nat)
  then ascii_of_nat (code c + 32) else c.

Fixpoint lower (s : string) : string :=
  match s with
  | EmptyString => EmptyString
  | String c s' => String (lower_char c) (lower s')
  end.

Definition eqb_char (a b : ascii) : bool := Ascii.eqb a b.

(** Equality of characters under [re.IGNORECASE]. *)
Definition eqb_char_ci (a b : ascii) : bool :=
  Ascii.eqb (lower_char a) (lower_char b).

Fixpoint take (n : nat) (s : string) : string :=
  match n, s with
  | S n', String c s' => String c (take n' s')
  | _, _ => EmptyString
  end.

Fixpoint drop (n : nat) (s : string) : string :=
  match n, s with
  | S n', String _ s' => drop n' s'
  | _, _ => s
  end.

Fixpoint rev_onto (s acc : string) : string :=
  match s with
  | EmptyString => acc
  | String c s' => rev_onto s' (String c acc)
  end.

Definition rev (s : string) : string := rev_onto s EmptyString.

Fixpoint contains_char (c : ascii) (s : string) : bool :=
  match s with
  | EmptyString => false
  | String d s' => Ascii.eqb c d || contains_char c s'
  end.

Fixpoint any_char (p : ascii -> bool) (s : string) : bool :=
  match s with
  | EmptyString => false
  | String c s' => p c || any_char p s'
  end.

Fixpoint lstrip_by (p : ascii -> bool) (s : string) : string :=
  match s with
  | EmptyString => EmptyString
  | String c s' => if p c then lstrip_by p s' else s
  end.

Definition rstrip_by (p : ascii -> bool) (s : string) : string :=
  rev (lstrip_by p (rev s)).

(** [s.strip()] *)
Definition strip (s : string) : string := rstrip_by is_space (lstrip_by is_space s).

(** [s.strip(chars)] *)
Definition strip_chars (chars : string) (s : string) : string :=
  let p c := contains_char c chars in rstrip_by p (lstrip_by p s).

(** [s.split(sep)] for a one-character separator. *)
Fixpoint split_on (sep : ascii) (s : string) : list string :=
  match s with
  | EmptyString => [EmptyString]
  | String c s' =>
      if Ascii.eqb c sep then EmptyString :: split_on sep s'
      else match split_on sep s' with
           | [] => [String c EmptyString]
           | w :: ws => String c w :: ws
           end
  end.

(** [sep.join(parts)] *)
Fixpoint join (sep : string) (parts : list string) : string :=
  match parts with
  | [] => EmptyString
  | [p] => p
  | p :: ps => p ++ sep ++ join sep ps
  end.

Definition digit_val (c : ascii) : Z := Z.of_nat (code c) - 48.

Fixpoint int_acc (s : string) (acc : Z) : Z :=
  match s with
  | EmptyString => acc
  | String c s' => int_acc s' (10 * acc + digit_val c)
  end.

(** The number a string of decimal digits denotes. *)
Definition int (s : string) : Z := int_acc s 0.

(** [sys.int_info.default_max_str_digits]: the longest decimal string
    [int] converts. *)
Definition max_str_digits : nat := 4300.

(** [int(s)] for a string of decimal digits; [None] for the [ValueError]
    it raises when the string has more than [max_str_digits] digits,
    leading zeros counted. *)
Definition to_int (s : string) : option Z :=
  if (max_str_digits <? String.length s)%nat then None else Some (int s).

(** [s * n] *)
Fixpoint times (s : string) (n : nat) : string :=
  match n with
  | O => EmptyString
  | S n' => s ++ times s n'
  end.

End Str.

(** ** Regular expressions: the fragment of [re] the source uses *)

Module Re.

Inductive regex : Type :=
| Eps                                   (* the empty pattern *)
| Chr (p : ascii -> bool)               (* one character of a class *)
| Seq (r1 r2 : regex)                   (* r1 r2 *)
| Alt (r1 r2 : regex)                   (* r1|r2 *)
| Star (greedy : bool) (r : regex)      (* r* and r*? *)
| Group (n : nat) (r : regex)           (* capturing group number n *)
| Eos.                                  (* $ without re.MULTILINE *)

(** Captured groups, most recent first. *)
Definition captures := list (nat * string).

Fixpoint group (n : nat) (c : captures) : option string :=
  match c with
  | [] => None
  | (m, s) :: c' => if (m =? n)%nat then Some s else group n c'
  end.

Definition orelse {A} (a : option A) (b : unit -> option A) : option A :=
  match a with Some x => Some x | None => b tt end.

(** The loop of a repetition.  [step] matches the repeated pattern once;
    an iteration that consumes nothing is abandoned, so [fuel], the length
    of the text, is never exhausted. *)
Fixpoint star_loop {A}
    (step : string -> captures -> (string -> captures -> option A) -> option A)
    (greedy : bool) (k : string -> captures -> option A)
    (fuel : nat) (s : string) (caps : captures) {struct fuel} : option A :=
  let more (_ : unit) :=
    match fuel with
    | O => None
    | S fuel' =>
        step s caps (fun s1 c1 =>
          if (String.length s1 <? String.length s)%nat
          then star_loop step greedy k fuel' s1 c1 else None)
    end in
  if greedy then orelse (more tt) (fun _ => k s caps)
  else orelse (k s caps) more.

(** [exec r s caps k]: match [r] at the start of [s], then continue with
    [k] on what is left; on failure of [k] the next way of matching [r] is
    tried. *)
Fixpoint exec {A} (r : regex) (s : string) (caps : captures)
    (k : string -> captures -> option A) {struct r} : option A :=
  match r with
  | Eps => k s caps
  | Chr p =>
      match s with
      | String c s' => if p c then k s' caps else None
      | EmptyString => None
      end
  | Seq r1 r2 => exec r1 s caps (fun s1 c1 => exec r2 s1 c1 k)
  | Alt r1 r2 => orelse (exec r1 s caps k) (fun _ => exec r2 s caps k)
  | Star greedy r1 =>
      star_loop (fun s0 c0 k0 => exec r1 s0 c0 k0) greedy k
                (String.length s) s caps
  | Group n r1 =>
      exec r1 s caps (fun s1 c1 =>
        k s1 ((n, Str.take (String.length s - String.length s1) s) :: c1))
  | Eos =>
      match s with
      | EmptyString => k s caps
      | String c EmptyString => if Str.is_newline c then k s caps else None
      | _ => None
      end
  end.

(** [re.match]: the whole match is group 0. *)
Definition match_at (r : regex) (s : string) : option captures :=
  exec (Group 0 r) s [] (fun _ c => Some c).

(** [re.search]: the match at the leftmost position that has one. *)
Fixpoint search (r : regex) (s : string) : option captures :=
  match match_at r s with
  | Some c => Some c
  | None =>
      match s with
      | EmptyString => None
      | String _ s' => search r s'
      end
  end.

(** Derived forms. *)
Definition plus (greedy : bool) (r : regex) : regex := Seq r (Star greedy r).
Definition opt (r : regex) : regex := Alt r Eps.             (* r? *)

Fixpoint rep (n : nat) (r : regex) : regex :=                (* r{n} *)
  match n with
  | O => Eps
  | S n' => Seq r (rep n' r)
  end.

Fixpoint upto (n : nat) (r : regex) : regex :=               (* r{0,n} *)
  match n with
  | O => Eps
  | S n' => opt (Seq r (upto n' r))
  end.

Definition rep_range (m n : nat) (r : regex) : regex :=      (* r{m,n} *)
  Seq (rep m r) (upto (n - m) r).

Definition lit_char (c : ascii) : regex := Chr (Str.eqb_char c).
Definition lit_char_ci (c : ascii) : regex := Chr (Str.eqb_char_ci c).

Fixpoint lit (s : string) : regex :=
  match s with
  | EmptyString => Eps
  | String c s' => Seq (lit_char c) (lit s')
  end.

(** A literal under [re.IGNORECASE]. *)
Fixpoint lit_ci (s : string) : regex :=
  match s with
  | EmptyString => Eps
  | String c s' => Seq (lit_char_ci c) (lit_ci s')
  end.

Definition digit : regex := Chr Str.is_digit.                (* \d *)
Definition space : regex := Chr Str.is_space.                (* \s *)
Definition dot : regex := Chr Str.is_dot.                    (* . *)
Definition any : regex := Chr (fun _ => true).               (* . with DOTALL *)
Definition one_of (cs : string) : regex := Chr (fun c => Str.contains_char c cs).

End Re.

(** ** Floats *)

Module Float64.

(** A finite binary64 number is the rational it denotes.  An operation
    on floats is the exact operation followed by [round], the rounding to
    the nearest binary64 number with ties to the even significand. *)

(** [n / d >= 2 ^ k], for positive [n] and [d]. *)
Definition reaches (n d k : Z) : bool :=
  (d * 2 ^ Z.max 0 k <=? n * 2 ^ Z.max 0 (- k))%Z.

(** The [k] with [2 ^ k <= n / d < 2 ^ (k + 1)], for positive [n] and
    [d]: by the lengths of [n] and [d] it is [log2 n - log2 d] or one
    less. *)
Definition exponent (n d : Z) : Z :=
  let k := (Z.log2 n - Z.log2 d)%Z in
  if reaches n d k then k else (k - 1)%Z.

(** The integer nearest to [n / d], the even one of two equally near. *)
Definition nearest_even (n d : Z) : Z :=
  let q := (n / d)%Z in
  match (2 * (n mod d) ?= d)%Z with
  | Lt => q
  | Gt => (q + 1)%Z
  | Eq => if Z.even q then q else (q + 1)%Z
  end.

(** The significand has 53 bits; the smallest subnormal is [2 ^ -1074]. *)
Definition precision : Z := 53.
Definition emin : Z := -1074.

(** The float nearest to [n / d], for positive [n] and [d]: a multiple
    [m * 2 ^ e] of the unit in the last place [2 ^ e] at the size of
    [n / d]. *)
Definition round_pos (n d : Z) : Q :=
  let e := Z.max (exponent n d - (precision - 1)) emin in
  let m := nearest_even (n * 2 ^ Z.max 0 (- e)) (d * 2 ^ Z.max 0 e) in
  Qred (inject_Z (m * 2 ^ Z.max 0 e) / inject_Z (2 ^ Z.max 0 (- e))).

Definition round (x : Q) : Q :=
  match Qnum x with
  | Z0 => 0
  | Zpos n => round_pos (Zpos n) (Zpos (Qden x))
  | Zneg n => - round_pos (Zpos n) (Zpos (Qden x))
  end.

(** From [2 ^ 1024 - 2 ^ 970] on, halfway between the largest float and
    [2 ^ 1024], the nearest float is out of range. *)
Definition overflows (x : Q) : bool :=
  Qle_bool (inject_Z (2 ^ 1024 - 2 ^ 970)) (Qabs x).

(** The conversion of an [int] to a float, which [float(n)],
    [int + float] and [int / float] start with; [None] for its
    [OverflowError]. *)
Definition of_int (n : Z) : option Q :=
  if overflows (inject_Z n) then None else Some (round (inject_Z n)).

(** [a / b] of two [int]: the float nearest to the quotient; [None] for
    [ZeroDivisionError] and [OverflowError]. *)
Definition truediv (a b : Z) : option Q :=
  if (b =? 0)%Z then None
  else if overflows (inject_Z a / inject_Z b) then None
  else Some (round (inject_Z a / inject_Z b)).

(** [x + y] of two floats, for a sum in the range of the floats. *)
Definition add (x y : Q) : Q := round (x + y).

(** [x / y] of two floats, for a quotient in the range of the floats;
    [None] for [ZeroDivisionError]. *)
Definition div (x y : Q) : option Q :=
  if Qeq_bool y 0 then None else Some (round (x / y)).

End Float64.

(** ** [EmailAnalyzer._parse_latency_header] *)

Module Latency.
Import Re.

(** [(\d{1,2}):(\d{2}):(\d{2})(?:\.(\d+))?] *)
Definition hms_pattern : regex :=
  Seq (Group 1 (rep_range 1 2 digit))
 (Seq (lit ":")
 (Seq (Group 2 (rep 2 digit))
 (Seq (lit ":")
 (Seq (Group 3 (rep 2 digit))
      (opt (Seq (lit ".") (Group 4 (plus true digit)))))))).

(** [(\d+)\.(\d+)] *)
Definition decimal_pattern : regex :=
  Seq (Group 1 (plus true digit)) (Seq (lit ".") (Group 2 (plus true digit))).

(** [(\d+)] *)
Definition integer_pattern : regex := Group 1 (plus true digit).

(** [m.group(n)] of a group that took part in the match. *)
Definition grp (n : nat) (c : captures) : string :=
  match group n c with Some s => s | None => EmptyString end.

(** [int(fractional) / (10 ** len(fractional))] *)
Definition fraction (fractional : string) : option Q :=
  n ← Str.to_int fractional;
  Float64.truediv n (10 ^ Z.of_nat (String.length fractional)).

Definition of_hms (c : captures) : option Q :=
  hours ← Str.to_int (grp 1 c);
  minutes ← Str.to_int (grp 2 c);
  seconds ← Str.to_int (grp 3 c);
  (* time_match.group(4) or '0' *)
  let fractional :=
    match group 4 c with
    | Some EmptyString | None => "0"
    | Some f => f
    end in
  fractional_value ←
    match fractional with
    | EmptyString => Some 0%Q
    | _ => fraction fractional
    end;
  (* int + float *)
  whole ← Float64.of_int (hours * 3600 + minutes * 60 + seconds);
  Some (Float64.add whole fractional_value).

Definition of_decimal (c : captures) : option Q :=
  seconds ← Str.to_int (grp 1 c);
  let fractional := grp 2 c in
  fractional_value ← fraction fractional;
  (* int + float *)
  whole ← Float64.of_int seconds;
  Some (Float64.add whole fractional_value).

Definition of_integer (c : captures) : option Q :=
  seconds ← Str.to_int (grp 1 c);
  if (3600 <? seconds)%Z
  then                                              (* likely milliseconds *)
    whole ← Float64.of_int seconds;                 (* int / float *)
    Float64.div whole 1000
  else Float64.of_int seconds.

(** An exception inside the [try] block ([ValueError] of [int],
    [OverflowError] of the conversion to a float) ends in [except: pass]
    and the final [return None]. *)
Definition parse_latency_header (latency_header : string) : option Q :=
  match latency_header with
  | EmptyString => None
  | _ =>
      match search hms_pattern latency_header with
      | Some c => of_hms c
      | None =>
          match search decimal_pattern latency_header with
          | Some c => of_decimal c
          | None =>
              match search integer_pattern latency_header with
              | Some c => of_integer c
              | None => None
              end
          end
      end
  end.

(** The parser returns a number of seconds equal to [q]. *)
Definition parses_to (latency_header : string) (q : Q) : Prop :=
  match parse_latency_header latency_header with
  | Some v => (v == q)%Q
  | None => False
  end.

End Latency.


(** ** Messages and dictionaries *)

Module Message.

(** The headers of an [email.message.Message], in the order of the text. *)
Definition message := list (string * string).

Definition same_name (name k : string) : bool :=
  String.eqb (Str.lower k) (Str.lower name).

(** [msg.get(name, failobj)]: the first header of that name. *)
Fixpoint get (msg : message) (name failobj : string) : string :=
  match msg with
  | [] => failobj
  | (k, v) :: msg' => if same_name name k then v else get msg' name failobj
  end.

(** [msg.get_all(name, [])]: every header of that name, in order. *)
Fixpoint get_all (msg : message) (name : string) : list string :=
  match msg with
  | [] => []
  | (k, v) :: msg' =>
      if same_name name k then v :: get_all msg' name else get_all msg' name
  end.

(** [msg.items()] *)
Definition items (msg : message) : list (string * string) := msg.

End Message.

Module Dict.

(** A Python [dict] with string keys: one entry per key, in the order in
    which the keys were first inserted. *)
Definition dict (V : Type) := list (string * V).

(** [d[k] = v] *)
Fixpoint set {V} (k : string) (v : V) (d : dict V) : dict V :=
  match d with
  | [] => [(k, v)]
  | (k', v') :: d' =>
      if String.eqb k k' then (k', v) :: d' else (k', v') :: set k v d'
  end.

(** One step of [dict(items)]: the item is stored under its key. *)
Definition step {V} (d : dict V) (kv : string * V) : dict V :=
  set (fst kv) (snd kv) d.

(** [d.get(k)] *)
Fixpoint get {V} (k : string) (d : dict V) : option V :=
  match d with
  | [] => None
  | (k', v') :: d' => if String.eqb k k' then Some v' else get k d'
  end.

Definition keys {V} (d : dict V) : list string := map fst d.

(** [dict(items)] *)
Definition of_items {V} (items : list (string * V)) : dict V :=
  fold_left (fun d kv => set (fst kv) (snd kv) d) items [].

End Dict.

(** ** Exceptions and [datetime] *)

Inductive exn : Type :=
| TypeError.

Inductive res (A : Type) : Type :=
| Ok (a : A)
| Raise (e : exn).
Arguments Ok {A} a.
Arguments Raise {A} e.

Definition bind {A B} (m : res A) (f : A -> res B) : res B :=
  match m with
  | Ok a => f a
  | Raise e => Raise e
  end.

Notation "'do' x <- m ; k" := (bind m (fun x => k))
  (at level 10, x name, m at level 100, k at level 200).

Module Datetime.

(** [instant] counts seconds: from the epoch for an aware value, on the
    wall clock the header showed for a naive one. *)
Record datetime : Type := mk {
  instant : Z;
  aware : bool
}.

(** [a < b] *)
Definition lt (a b : datetime) : res bool :=
  if Bool.eqb (aware a) (aware b) then Ok (instant a <? instant b)%Z
  else Raise TypeError.

(** [(a - b).total_seconds()] *)
Definition sub_seconds (a b : datetime) : res Z :=
  if Bool.eqb (aware a) (aware b) then Ok (instant a - instant b)%Z
  else Raise TypeError.

End Datetime.

(** ** [EmailAnalyzer] *)

Module Core.
Import Re.

(** One entry of [result.relays]; the fields are the keys of the dict
    that [_parse_received_header] builds. *)
Record relay : Type := mk_relay {
  hop : nat;
  from_ : string;
  by_ : string;
  with_ : string;
  time : string;
  time_dt : option Datetime.datetime;
  delay : Z;
  blacklist : bool;
  ip : string
}.

(** [r['hop'] = idx] *)
Definition set_hop (idx : nat) (r : relay) : relay :=
  mk_relay idx (from_ r) (by_ r) (with_ r) (time r) (time_dt r) (delay r)
           (blacklist r) (ip r).

(** [r['delay'] = d] *)
Definition set_delay (d : Z) (r : relay) : relay :=
  mk_relay (hop r) (from_ r) (by_ r) (with_ r) (time r) (time_dt r) d
           (blacklist r) (ip r).

(** The fields of [EmailParseResult] that the relay chain, the domains,
    the stored headers and the timing fill in. *)
Record EmailParseResult : Type := mk_result {
  headers : Dict.dict string;
  auth_results : string;
  sender_ip : option string;
  relays : list relay;
  total_delay : Q;
  delay_source : string;
  end_to_end_latency_header : string;
  from_domain : string;
  return_path_domain : string
}.

(** [re.search(r'from\s+(.+?)\s+by', header, re.IGNORECASE | re.DOTALL)] *)
Definition from_pattern : regex :=
  Seq (lit_ci "from") (Seq (plus true space)
 (Seq (Group 1 (plus false any)) (Seq (plus true space) (lit_ci "by")))).

(** [by\s+(.+?)\s+(with|id|;|$)] *)
Definition by_pattern : regex :=
  Seq (lit_ci "by") (Seq (plus true space)
 (Seq (Group 1 (plus false any)) (Seq (plus true space)
      (Group 2 (Alt (lit_ci "with") (Alt (lit_ci "id") (Alt (lit_ci ";") Eos))))))).

(** [with\s+(.+?)\s+(id|;|$)] *)
Definition with_pattern : regex :=
  Seq (lit_ci "with") (Seq (plus true space)
 (Seq (Group 1 (plus false any)) (Seq (plus true space)
      (Group 2 (Alt (lit_ci "id") (Alt (lit_ci ";") Eos)))))).

(** [;\s*(.+)$] *)
Definition time_pattern : regex :=
  Seq (lit ";") (Seq (Star true space) (Seq (Group 1 (plus true dot)) Eos)).

(** [(?:25[0-5]|2[0-4][0-9]|[01]?[0-9][0-9]?)] *)
Definition octet : regex :=
  Alt (Seq (lit "25") (Chr (Str.between 48 53)))
 (Alt (Seq (lit "2") (Seq (Chr (Str.between 48 52)) digit))
      (Seq (opt (one_of "01")) (Seq digit (opt digit)))).

Definition ipv4_pattern : regex := Seq (rep 3 (Seq octet (lit "."))) octet.

Definition hex : regex :=
  Chr (fun c => Str.is_digit c || Str.between 97 102 c || Str.between 65 70 c).

(** [(?:[0-9a-fA-F]{1,4}:){7}[0-9a-fA-F]{1,4}] *)
Definition ipv6_pattern : regex :=
  Seq (rep 7 (Seq (rep_range 1 4 hex) (lit ":"))) (rep_range 1 4 hex).

(** [(?:sender\s*ip\s*is|client-ip=)\s*([\[\(]?[\d\.:a-fA-F]+[\]\)]?)]
    under [re.IGNORECASE] *)
Definition sender_ip_pattern : regex :=
  Seq (Alt (Seq (lit_ci "sender") (Seq (Star true space)
           (Seq (lit_ci "ip") (Seq (Star true space) (lit_ci "is")))))
           (lit_ci "client-ip="))
 (Seq (Star true space)
      (Group 1 (Seq (opt (one_of "[("))
               (Seq (plus true (Chr (fun c =>
                       Str.is_digit c || Str.contains_char c ".:" ||
                       Str.between 97 102 c || Str.between 65 70 c)))
                    (opt (one_of "])")))))).

Definition group_text (n : nat) (c : captures) : string :=
  match group n c with Some s => s | None => EmptyString end.

Definition extract_ip_from_text (text : string) : string :=
  match search ipv4_pattern text with
  | Some c => group_text 0 c
  | None =>
      match search ipv6_pattern text with
      | Some c => group_text 0 c
      | None => EmptyString
      end
  end.

(** [enumerate(l, 1)] *)
Definition enumerate1 {A} (l : list A) : list (nat * A) :=
  combine (seq 1 (length l)) l.

Section Analyzer.

(** [email.utils.parsedate_to_datetime]; [None] when it raises. *)
Variable parsedate_to_datetime : string -> option Datetime.datetime.
(** [dt.strftime('%m/%d/%Y %I:%M:%S %p')] *)
Variable strftime : Datetime.datetime -> string.
(** [email.utils.parseaddr] *)
Variable parseaddr : string -> string * string.
(** [ipaddress.ip_address]; [None] when it raises [ValueError]. *)
Variable ip_obj : Type.
Variable ip_address : string -> option ip_obj.
Variable is_private : ip_obj -> bool.
Variable is_loopback : ip_obj -> bool.

Definition extract_domain (header : string) : string :=
  match header with
  | EmptyString => EmptyString
  | _ =>
      let addr := snd (parseaddr header) in
      if Str.contains_char "@" addr
      then List.last (Str.split_on "@" addr) EmptyString
      else EmptyString
  end.

Definition extract_domains (msg : Message.message) : string * string :=
  let from_header := Message.get msg "From" "" in
  let from_domain := extract_domain from_header in
  let return_path := Message.get msg "Return-Path" "" in
  let rp_domain := extract_domain return_path in
  (from_domain, rp_domain).

Definition parse_received_header (header : string) (hop : nat) : relay :=
  let from_text :=
    match search from_pattern header with
    | Some c => Str.strip (group_text 1 c)
    | None => EmptyString
    end in
  let by_text :=
    match search by_pattern header with
    | Some c => Str.strip (group_text 1 c)
    | None => EmptyString
    end in
  let with_text :=
    match search with_pattern header with
    | Some c => Str.strip (group_text 1 c)
    | None => EmptyString
    end in
  let '(time_text, dt) :=
    match search time_pattern header with
    | Some c =>
        let time_str := Str.strip (group_text 1 c) in
        match parsedate_to_datetime time_str with
        | Some d => (strftime d, Some d)
        | None => (time_str, None)
        end
    | None => (EmptyString, None)
    end in
  mk_relay hop from_text by_text with_text time_text dt 0 true
           (extract_ip_from_text from_text).

(** The renumbering loop [for idx, r in enumerate(relays, 1): r['hop'] = idx]. *)
Definition renumber (rs : list relay) : list relay :=
  map (fun '(idx, r) => set_hop idx r) (enumerate1 rs).

Definition process_relays (msg : Message.message) : res (list relay) :=
  let received_list := Message.get_all msg "Received" in
  let relays :=
    map (fun '(idx, rec) => parse_received_header rec idx)
        (enumerate1 (List.rev received_list)) in
  match relays with
  | r0 :: r1 :: _ =>
      match time_dt r0, time_dt r1 with
      | Some t0, Some t1 =>
          do earlier <- Datetime.lt t1 t0;
          if earlier then Ok (renumber (List.rev relays)) else Ok relays
      | _, _ => Ok relays
      end
  | _ => Ok relays
  end.

Definition is_valid_ip (ip : string) : bool :=
  match ip_address ip with Some _ => true | None => false end.

Definition is_private_ip (ip : string) : bool :=
  match ip with
  | EmptyString => true
  | _ =>
      match ip_address ip with
      | Some o => is_private o || is_loopback o
      | None => true
      end
  end.

Definition is_public (ip : string) : bool :=
  is_valid_ip ip && negb (is_private_ip ip).

Definition extract_sender_ip (auth_results : string) (relays : list relay)
  : option string :=
  let asserted :=
    match search sender_ip_pattern auth_results with
    | Some c =>
        let candidate := Str.strip_chars "[]()" (group_text 1 c) in
        if is_public candidate then Some candidate else None
    | None => None
    end in
  match asserted with
  | Some ip => Some ip
  | None =>
      match List.find (fun r =>
              negb (String.eqb (ip r) "") && is_public (ip r)) relays with
      | Some r => Some (ip r)
      | None => None
      end
  end.

(** One pass of the body of [for i in range(1, len(relays))]. *)
Definition delay_step (st : list relay * Z) (i : nat) : res (list relay * Z) :=
  let '(relays, calculated_delay) := st in
  match relays !! (i - 1)%nat, relays !! i with
  | Some prev, Some cur =>
      match time_dt prev, time_dt cur with
      | Some tp, Some tc =>
          do delta <- Datetime.sub_seconds tc tp;
          let d := Z.max delta 0 in
          Ok (<[i := set_delay d cur]> relays, (calculated_delay + d)%Z)
      | _, _ => Ok st
      end
  | _, _ => Ok st
  end.

Fixpoint for_each {S} (indices : list nat) (body : S -> nat -> res S) (st : S)
  : res S :=
  match indices with
  | [] => Ok st
  | i :: rest => do st' <- body st i; for_each rest body st'
  end.

Definition latency_header_name : string :=
  "X-MS-Exchange-Transport-EndToEndLatency".

Definition calculate_delays (msg : Message.message) (result : EmailParseResult)
  : res EmailParseResult :=
  let latency_header := Message.get msg latency_header_name "" in
  let from_relays (result : EmailParseResult) :=
    do st <- for_each (seq 1 (length (relays result) - 1)) delay_step
                      (relays result, 0%Z);
    Ok (mk_result (headers result) (auth_results result) (sender_ip result)
          (fst st) (inject_Z (snd st)) "Calculated from Received headers"
          (end_to_end_latency_header result)
          (from_domain result) (return_path_domain result)) in
  match latency_header with
  | EmptyString => from_relays result
  | _ =>
      let result :=
        mk_result (headers result) (auth_results result) (sender_ip result)
          (relays result) (total_delay result) (delay_source result)
          latency_header (from_domain result) (return_path_domain result) in
      match Latency.parse_latency_header latency_header with
      | Some parsed_delay =>
          Ok (mk_result (headers result) (auth_results result) (sender_ip result)
                (relays result) parsed_delay latency_header_name
                (end_to_end_latency_header result)
                (from_domain result) (return_path_domain result))
      | None => from_relays result
      end
  end.

(** [analyze], from the parsed message on.  Of [_check_authentication]
    only the copy of the Authentication-Results header is kept: the
    status and alignment flags feed none of the fields above. *)
Definition analyze (msg : Message.message) : res EmailParseResult :=
  let headers := Dict.of_items (Message.items msg) in
  let '(from_domain, return_path_domain) := extract_domains msg in
  let auth_results := Message.get msg "Authentication-Results" "" in
  do relays <- process_relays msg;
  let sender_ip := extract_sender_ip auth_results relays in
  calculate_delays msg
    (mk_result headers auth_results sender_ip relays 0%Q "Calculated" ""
               from_domain return_path_domain).

End Analyzer.

End Core.

(** ** [BlacklistChecker] *)

Module Blacklist.

(** Classes of the exceptions [dns.resolver.Resolver.resolve] raises. *)
Inductive exc_class : Type :=
| DNSException        (* dns.exception.DNSException *)
| Timeout             (* dns.exception.Timeout *)
| LifetimeTimeout     (* dns.resolver.LifetimeTimeout *)
| NXDOMAIN            (* dns.resolver.NXDOMAIN *)
| YXDOMAIN            (* dns.resolver.YXDOMAIN *)
| NoAnswer            (* dns.resolver.NoAnswer *)
| NoNameservers       (* dns.resolver.NoNameservers: every server failed, SERVFAIL *)
| FormError           (* dns.exception.FormError: malformed response *)
| OSError.            (* an exception that is not a DNSException *)

Definition exc_eqb (a b : exc_class) : bool :=
  match a, b with
  | DNSException, DNSException | Timeout, Timeout
  | LifetimeTimeout, LifetimeTimeout | NXDOMAIN, NXDOMAIN
  | YXDOMAIN, YXDOMAIN | NoAnswer, NoAnswer
  | NoNameservers, NoNameservers | FormError, FormError
  | OSError, OSError => true
  | _, _ => false
  end.

(** The direct base class. *)
Definition base (c : exc_class) : option exc_class :=
  match c with
  | DNSException | OSError => None
  | LifetimeTimeout => Some Timeout
  | _ => Some DNSException
  end.

(** [issubclass(c, d)] *)
Definition issubclass (c d : exc_class) : bool :=
  exc_eqb c d ||
  match base c with
  | Some b => exc_eqb b d ||
      match base b with
      | Some b' => exc_eqb b' d
      | None => false
      end
  | None => false
  end.

(** What one call of [self.resolver.resolve(query, 'A')] does. *)
Inductive outcome : Type :=
| Answered
| Raised (e : exc_class).

(** The [except] clauses of a [try] statement, in order: the classes a
    clause names and the value its body returns. *)
Fixpoint handle {A} (clauses : list (list exc_class * A)) (e : exc_class)
  : option A :=
  match clauses with
  | [] => None
  | (classes, v) :: rest =>
      if existsb (issubclass e) classes then Some v else handle rest e
  end.

(** [Some r]: the call returns [r]; [None]: the exception leaves the call. *)
Definition check_single_blacklist_on (o : outcome) : option (option bool) :=
  match o with
  | Answered => Some (Some true)
  | Raised e =>
      handle [ ([NXDOMAIN], Some false);
               ([NoAnswer; Timeout; DNSException], None) ] e
  end.

Definition BLACKLISTS : list (string * string) :=
  [ ("zen.spamhaus.org", "Spamhaus ZEN");
    ("b.barracudacentral.org", "Barracuda");
    ("bl.spamcop.net", "SpamCop");
    ("dnsbl.sorbs.net", "SORBS");
    ("cbl.abuseat.org", "CBL");
    ("psbl.surriel.com", "PSBL");
    ("all.s5h.net", "S5H");
    ("ix.dnsbl.manitu.net", "Manitu");
    ("dnsbl-1.uceprotect.net", "UCEPROTECT-1");
    ("dul.dnsbl.sorbs.net", "SORBS DUL") ].

Section Checker.

(** The resolver, as a function of the name queried. *)
Variable resolve : string -> outcome.
(** [_is_valid_public_ip] (a wrapper of [ipaddress]). *)
Variable is_valid_public_ip : string -> bool.

Definition check_single_blacklist (reversed_ip blacklist : string)
  : option (option bool) :=
  let query := reversed_ip ++ "." ++ blacklist in
  check_single_blacklist_on (resolve query).

Definition reversed_ip_of (ip : string) : string :=
  Str.join "." (List.rev (Str.split_on "." ip)).

(** The loop of [check_ip]; [None] when an exception leaves it. *)
Fixpoint check_zones (reversed_ip : string) (zones : list (string * string))
    (results : Dict.dict (option bool)) : option (Dict.dict (option bool)) :=
  match zones with
  | [] => Some results
  | (bl_host, bl_name) :: rest =>
      match check_single_blacklist reversed_ip bl_host with
      | Some r => check_zones reversed_ip rest (Dict.set bl_name r results)
      | None => None
      end
  end.

Definition check_ip (ip : string) : option (Dict.dict (option bool)) :=
  if negb (is_valid_public_ip ip) then Some []
  else check_zones (reversed_ip_of ip) BLACKLISTS [].

End Checker.

End Blacklist.

(** ** [IPLookupService]: geolocation with its two caches *)

Module IPLookup.

(** A JSON scalar. *)
Inductive value : Type :=
| VStr (s : string)
| VNum (q : Q).

(** What a file of the cache directory holds. *)
Inductive cache_file : Type :=
| Unreadable                              (* [open] or [json.load] raises, or not an object *)
| JsonObject (data : gmap string value).

Definition Qltb (a b : Q) : bool := negb (Qle_bool b a).

(** [7 * 24 * 3600] *)
Definition expiry_seconds : Q := inject_Z (7 * 24 * 3600).

Fixpoint replace_char (a b : ascii) (s : string) : string :=
  match s with
  | EmptyString => EmptyString
  | String c s' => String (if Ascii.eqb c a then b else c) (replace_char a b s')
  end.

(** [f"{ip.replace('.', '_')}.json"], the name inside [cache_dir]. *)
Definition cache_file_name (ip : string) : string :=
  replace_char "." "_" ip ++ ".json".

(** [_get_cached_ip_info]; [now] is [time.time()]. *)
Definition get_cached_ip_info (disk : gmap string cache_file) (now : Q)
    (ip : string) : option (gmap string value) :=
  match disk !! cache_file_name ip with
  | Some (JsonObject data) =>
      match default (VNum 0) (data !! "_cached_at") with
      | VNum cached_at =>
          if Qltb (now - cached_at) expiry_seconds then Some data else None
      | VStr _ => None                      (* TypeError, swallowed *)
      end
  | Some Unreadable => None                 (* swallowed by the bare except *)
  | None => None                            (* not cache_file.exists() *)
  end.

(** [_cache_ip_info]: the entry is stamped, then written when the file can
    be opened.  Returns the disk and the stamped [data] (the same dict
    object the caller holds). *)
Definition cache_ip_info (disk : gmap string cache_file) (now : Q)
    (write_ok : bool) (ip : string) (data : gmap string value)
  : gmap string cache_file * gmap string value :=
  let data := <["_cached_at" := VNum now]> data in
  (if write_ok then <[cache_file_name ip := JsonObject data]> disk else disk,
   data).

(** What [self.session.get(url, timeout=5)] and [response.json()] do. *)
Inductive http_outcome : Type :=
| ResponseOk (data : gmap string value)
| ResponseNotOk
| RaisedTimeout
| RaisedRequestException (msg : string)
| RaisedException (msg : string).

(** What the world answers during one call. *)
Record env : Type := mk_env {
  now : Q;                                  (* time.time() at the cache read *)
  http : string -> http_outcome;            (* the answer to a GET of the URL *)
  now_write : Q;                            (* time.time() at the cache write *)
  write_ok : bool;
  fallback : gmap string value              (* _get_fallback_ip_info(ip) *)
}.

(** An [IPLookupService] object: its identity, which is what [hash] and
    [==] go by, and the [api_key] that [__init__] stored. *)
Record instance : Type := mk_instance {
  ident : nat;
  api_key : option string
}.

(** [functools.lru_cache] on the method [get_ip_info]: one cache for the
    class, shared by all instances, with the pair [(self, ip)] as the key
    of a call; most recently used first. *)
Definition key : Type := nat * string.

Definition key_eqb (a b : key) : bool :=
  Nat.eqb (fst a) (fst b) && String.eqb (snd a) (snd b).

Definition lru := list (key * gmap string value).
Definition maxsize : nat := 256.

Fixpoint lru_find (k : key) (l : lru) : option (gmap string value) :=
  match l with
  | [] => None
  | (k', v) :: l' => if key_eqb k k' then Some v else lru_find k l'
  end.

Fixpoint lru_remove (k : key) (l : lru) : lru :=
  match l with
  | [] => []
  | (k', v) :: l' => if key_eqb k k' then l' else (k', v) :: lru_remove k l'
  end.

(** What outlives a call: the cache of the decorated method and the
    cache directory. *)
Record store : Type := mk_store {
  memo : lru;                               (* of the class *)
  disk : gmap string cache_file             (* ~/.email_forensics/ip_cache *)
}.

(** The URL of the request: the token is added for a key that is neither
    [None] nor empty. *)
Definition request_url (self : instance) (ip : string) : string :=
  let url := "https://ipinfo.io/" ++ ip ++ "/json" in
  match api_key self with
  | Some (String c k) => url ++ "?token=" ++ String c k
  | _ => url
  end.

(** The two settings of [config_manager.py] that concern a lookup, as
    [config.get] returns them; [_get_default_config] has an empty key and
    7 days. *)
Record config : Type := mk_config {
  ipinfo_api_key : option string;
  cache_expiry_days : Z
}.

Definition default_config : config := mk_config (Some "") 7.

(** [IPLookupService(api_key=...)]: a new object, which is none of the
    objects the keys of the memo hold. *)
Definition new_ident (m : lru) : nat :=
  S (list_max (map (fun kv => fst (fst kv)) m)).

Definition new_instance (w : store) (api_key : option string) : instance :=
  mk_instance (new_ident (memo w)) api_key.

Section Service.

Variable is_valid_ip : string -> bool.
Variable is_private_ip : string -> bool.

(** The request and what follows it in [get_ip_info]. *)
Definition fresh_lookup (self : instance) (disk : gmap string cache_file)
    (e : env) (ip : string) : gmap string cache_file * gmap string value :=
  match http e (request_url self ip) with
  | ResponseOk data => cache_ip_info disk (now_write e) (write_ok e) ip data
  | ResponseNotOk => (disk, fallback e)
  | RaisedTimeout =>
      (disk, <["ip" := VStr ip]> {["error" := VStr "Request timed out"]})
  | RaisedRequestException msg =>
      (disk, <["ip" := VStr ip]> {["error" := VStr ("Request failed: " ++ msg)]})
  | RaisedException msg =>
      (disk, <["ip" := VStr ip]> {["error" := VStr ("Unexpected error: " ++ msg)]})
  end.

(** The body of [get_ip_info], under the decorator. *)
Definition get_ip_info_body (self : instance) (disk : gmap string cache_file)
    (e : env) (ip : string) : gmap string cache_file * gmap string value :=
  if negb (is_valid_ip ip) || is_private_ip ip
  then (disk, {["error" := VStr "Invalid or private IP address"]})
  else
    match get_cached_ip_info disk (now e) ip with
    | Some cached =>
        if bool_decide (cached = ∅) then fresh_lookup self disk e ip
        else (disk, cached)
    | None => fresh_lookup self disk e ip
    end.

(** [@lru_cache(maxsize=256) def get_ip_info(self, ip)] *)
Definition get_ip_info (w : store) (self : instance) (e : env) (ip : string)
  : store * gmap string value :=
  let k := (ident self, ip) in
  match lru_find k (memo w) with
  | Some v => (mk_store ((k, v) :: lru_remove k (memo w)) (disk w), v)
  | None =>
      let '(disk', v) := get_ip_info_body self (disk w) e ip in
      (mk_store (List.firstn maxsize ((k, v) :: memo w)) disk', v)
  end.

(** The lookup of [on_analysis_complete] (email_forensics_main.py, lines
    462 to 466): for a sender address, a new service object is made with
    the configured key and asked once; [ip_info] stays [None] without
    one. *)
Definition on_analysis_complete (cfg : config) (w : store) (e : env)
    (sender_ip : option string) : store * option (gmap string value) :=
  match sender_ip with
  | Some (String c ip) =>
      let ip_service := new_instance w (ipinfo_api_key cfg) in
      let '(w', ip_info) := get_ip_info w ip_service e (String c ip) in
      (w', Some ip_info)
  | _ => (w, None)
  end.

End Service.

End IPLookup.

(** ** Reference definitions used to state the properties *)

Module Spec.

(** The value of the last item whose key is [k]. *)
Fixpoint last_value {V} (k : string) (items : list (string * V)) : option V :=
  match items with
  | [] => None
  | (k', v) :: rest =>
      match last_value k rest with
      | Some v' => Some v'
      | None => if String.eqb k k' then Some v else None
      end
  end.

(** The distinct keys, each at the place of its first occurrence. *)
Fixpoint dedup_first (ks : list string) : list string :=
  match ks with
  | [] => []
  | k :: ks' => k :: List.filter (fun x => negb (String.eqb x k)) (dedup_first ks')
  end.

Definition mem (k : string) (ks : list string) : bool :=
  existsb (String.eqb k) ks.

(** The text after the last [sep] of [s]; all of [s] when it has none. *)
Fixpoint after_last (sep : ascii) (s : string) : string :=
  match s with
  | EmptyString => EmptyString
  | String c s' =>
      if Ascii.eqb c sep then after_last sep s'
      else if Str.contains_char sep s' then after_last sep s'
      else s
  end.

(** The text after the first [sep] of [s]. *)
Fixpoint after_first (sep : ascii) (s : string) : option string :=
  match s with
  | EmptyString => None
  | String c s' => if Ascii.eqb c sep then Some s' else after_first sep s'
  end.

(** The longest prefix of [s] made of characters of the class [p]. *)
Fixpoint take_while (p : ascii -> bool) (s : string) : string :=
  match s with
  | EmptyString => EmptyString
  | String c s' => if p c then String c (take_while p s') else EmptyString
  end.

(** The first run of decimal digits of [s]. *)
Definition first_digits (s : string) : string :=
  take_while Str.is_digit (Str.lstrip_by (fun c => negb (Str.is_digit c)) s).

(** A greedy repetition of one character class followed by [k], without
    the fuel of the matcher: the longest run first, then shorter ones. *)
Fixpoint greedy_star {A} (p : ascii -> bool)
    (k : string -> Re.captures -> option A) (s : string) (caps : Re.captures)
  : option A :=
  match s with
  | EmptyString => k s caps
  | String c s' =>
      if p c then Re.orelse (greedy_star p k s' caps) (fun _ => k s caps)
      else k s caps
  end.

(** [(.+)$] at the start of [s]: the first line of [s], provided it is not
    empty and nothing but one line feed follows it. *)
Definition one_line (s : string) : option string :=
  match take_while Str.is_dot s with
  | EmptyString => None
  | line =>
      match Str.lstrip_by Str.is_dot s with
      | EmptyString => Some line
      | String c EmptyString => if Str.is_newline c then Some line else None
      | _ => None
      end
  end.

(** [\s*(.+)$] at the start of [s]: white space is skipped as far as a
    line can still follow. *)
Fixpoint after_spaces (s : string) : option string :=
  match s with
  | EmptyString => None
  | String c s' =>
      if Str.is_space c
      then match after_spaces s' with
           | Some line => Some line
           | None => one_line s
           end
      else one_line s
  end.

(** Group 1 of [re.search(r';\s*(.+)$', s)]: the line found after the
    leftmost semicolon that has one. *)
Fixpoint time_match (s : string) : option string :=
  match s with
  | EmptyString => None
  | String c s' =>
      if Ascii.eqb c ";"
      then match after_spaces s' with
           | Some line => Some line
           | None => time_match s'
           end
      else time_match s'
  end.

(** The timing loop of [_calculate_delays] read as a walk along the chain
    instead of a loop over indices: [prev] is the hop before the first
    hop of [rest], [acc] the running [calculated_delay]. *)
Fixpoint walk (prev : Core.relay) (rest : list Core.relay) (acc : Z)
  : res (list Core.relay * Z) :=
  match rest with
  | [] => Ok ([], acc)
  | cur :: rest' =>
      match Core.time_dt prev, Core.time_dt cur with
      | Some tp, Some tc =>
          do delta <- Datetime.sub_seconds tc tp;
          let d := Z.max delta 0 in
          do w <- walk cur rest' (acc + d)%Z;
          Ok (Core.set_delay d cur :: fst w, snd w)
      | _, _ =>
          do w <- walk cur rest' acc;
          Ok (cur :: fst w, snd w)
      end
  end.

(** [max(0, timestamp[i] - timestamp[i-1])] when both hops carry a parsed
    timestamp, 0 otherwise. *)
Definition gap (prev cur : Core.relay) : Z :=
  match Core.time_dt prev, Core.time_dt cur with
  | Some tp, Some tc => Z.max (Datetime.instant tc - Datetime.instant tp) 0
  | _, _ => 0%Z
  end.

Fixpoint gaps (prev : Core.relay) (rest : list Core.relay) : list Z :=
  match rest with
  | [] => []
  | cur :: rest' => gap prev cur :: gaps cur rest'
  end.

(** The per-hop delays of a chain, hop 1 first. *)
Definition hop_delays (rs : list Core.relay) : list Z :=
  match rs with
  | [] => []
  | r :: rest => 0%Z :: gaps r rest
  end.

Definition sum (l : list Z) : Z := fold_right Z.add 0%Z l.

(** Two neighbouring hops can be subtracted: not one naive and one aware. *)
Definition comparable (prev cur : Core.relay) : bool :=
  match Core.time_dt prev, Core.time_dt cur with
  | Some tp, Some tc => Bool.eqb (Datetime.aware tc) (Datetime.aware tp)
  | _, _ => true
  end.

Fixpoint chain_comparable (prev : Core.relay) (rest : list Core.relay) : bool :=
  match rest with
  | [] => true
  | cur :: rest' => comparable prev cur && chain_comparable cur rest'
  end.

Definition all_comparable (rs : list Core.relay) : bool :=
  match rs with
  | [] => true
  | r :: rest => chain_comparable r rest
  end.

(** A hop without its [delay], the one field the timing loop writes. *)
Definition forget_delay (r : Core.relay) : Core.relay := Core.set_delay 0 r.

(** The list built by the first loop of [_process_relays]. *)
Definition numbered (parsedate_to_datetime : string -> option Datetime.datetime)
    (strftime : Datetime.datetime -> string) (msg : Message.message)
  : list Core.relay :=
  map (fun '(idx, rec) =>
         Core.parse_received_header parsedate_to_datetime strftime rec idx)
      (Core.enumerate1 (List.rev (Message.get_all msg "Received"))).

(** The decision of the reorder check, on the first two hops. *)
Inductive decision : Type :=
| Keep
| Reverse
| Fail.

Definition reorder_decision (rs : list Core.relay) : decision :=
  match rs with
  | r0 :: r1 :: _ =>
      match Core.time_dt r0, Core.time_dt r1 with
      | Some t0, Some t1 =>
          if Bool.eqb (Datetime.aware t1) (Datetime.aware t0)
          then (if (Datetime.instant t1 <? Datetime.instant t0)%Z
                then Reverse else Keep)
          else Fail
      | _, _ => Keep
      end
  | _ => Keep
  end.

(** The whole loop of [_calculate_delays] on a chain. *)
Definition timing_loop (rs : list Core.relay) : res (list Core.relay * Z) :=
  Core.for_each (seq 1 (length rs - 1)) Core.delay_step (rs, 0%Z).

(** A continuation of the matcher that adds no group 1 of its own. *)
Definition keeps_group1 (k : string -> Re.captures -> option Re.captures) : Prop :=
  forall s c,
    option_map (Core.group_text 1) (k s c) = Some (Core.group_text 1 c).

(** The entry [check_ip] stores for one zone. *)
Definition zone_result (resolve : string -> Blacklist.outcome)
    (reversed_ip bl_host : string) : option bool :=
  match Blacklist.check_single_blacklist resolve reversed_ip bl_host with
  | Some r => r
  | None => None
  end.

End Spec.

(** ** Library values on the inputs of the examples *)

Module Sample.

(** [email.utils.parsedate_to_datetime] on three dates: an offset gives an
    aware value, [-0000] a naive one; anything else here is no date. *)
Definition parsedate (s : string) : option Datetime.datetime :=
  if String.eqb s "Mon, 01 Jan 2024 10:00:00 +0000"
  then Some (Datetime.mk 1704103200 true)
  else if String.eqb s "Mon, 01 Jan 2024 10:00:10 +0000"
  then Some (Datetime.mk 1704103210 true)
  else if String.eqb s "Mon, 01 Jan 2024 10:00:10 -0000"
  then Some (Datetime.mk 1704103210 false)
  else None.

(** [strftime('%m/%d/%Y %I:%M:%S %p')] on the same dates. *)
Definition strftime (d : Datetime.datetime) : string :=
  if (Datetime.instant d =? 1704103200)%Z then "01/01/2024 10:00:00 AM"
  else "01/01/2024 10:00:10 AM".

(** [email.utils.parseaddr] on a bare addr-spec: no display name, the
    address unchanged. *)
Definition parseaddr (s : string) : string * string := (EmptyString, s).

(** [ipaddress.ip_address] on text that is no address. *)
Definition ip_address (s : string) : option unit := None.
Definition is_private (o : unit) : bool := false.
Definition is_loopback (o : unit) : bool := false.

Definition analyze (msg : Message.message) : res Core.EmailParseResult :=
  Core.analyze parsedate strftime parseaddr unit ip_address is_private
               is_loopback msg.

(** One public address, as [_is_valid_ip] and [_is_private_ip] see it. *)
Definition public_ip (ip : string) : bool := String.eqb ip "8.8.8.8".
Definition private_ip (ip : string) : bool := negb (String.eqb ip "8.8.8.8").

(** Nothing looked up yet, and an empty cache directory. *)
Definition new_store : IPLookup.store := IPLookup.mk_store [] ∅.

(** A service object made without a key. *)
Definition service : IPLookup.instance := IPLookup.mk_instance 1 None.

(** The world at a first lookup, at time 1000, then two and eight days
    later; the geolocation service answers each time. *)
Definition first_lookup : IPLookup.env :=
  IPLookup.mk_env 1000
    (fun _ => IPLookup.ResponseOk {["country" := IPLookup.VStr "US"]})
    1000 true ∅.

Definition two_days_later : IPLookup.env :=
  IPLookup.mk_env (1000 + 2 * 86400)
    (fun _ => IPLookup.ResponseOk {["country" := IPLookup.VStr "DE"]})
    (1000 + 2 * 86400) true ∅.

Definition eight_days_later : IPLookup.env :=
  IPLookup.mk_env (1000 + 8 * 86400)
    (fun _ => IPLookup.ResponseOk {["country" := IPLookup.VStr "DE"]})
    (1000 + 8 * 86400) true ∅.

(** Two hops written newest last: the reorder check fires. *)
Definition newest_last : Message.message :=
  [("Received", "from a by b; Mon, 01 Jan 2024 10:00:00 +0000");
   ("Received", "from c by d; Mon, 01 Jan 2024 10:00:10 +0000")].

(** Hop 1 stamped with an offset, hop 2 ten seconds later with [-0000]. *)
Definition naive_and_aware : Message.message :=
  [("Received", "from a by b; Mon, 01 Jan 2024 10:00:10 -0000");
   ("Received", "from c by d; Mon, 01 Jan 2024 10:00:00 +0000")].

(** Two hops ten seconds apart. *)
Definition two_hops : Message.message :=
  [("Received", "from a by b; Mon, 01 Jan 2024 10:00:10 +0000");
   ("Received", "from c by d; Mon, 01 Jan 2024 10:00:00 +0000")].

(** The same two hops under an end-to-end latency header of 5 seconds. *)
Definition two_hops_with_latency : Message.message :=
  ("X-MS-Exchange-Transport-EndToEndLatency", "5") :: two_hops.

Definition process_relays (msg : Message.message) : res (list Core.relay) :=
  Core.process_relays parsedate strftime msg.

End Sample.

Module Spec2.

(** A list of numbers that never goes down, starting from [prev]. *)
Fixpoint nondecreasing (prev : Z) (l : list Z) : bool :=
  match l with
  | [] => true
  | x :: l' => (prev <=? x)%Z && nondecreasing x l'
  end.

(** The latency header of the message can be used: it is there and the
    parser returns a number for it. *)
Definition latency_usable (msg : Message.message) : bool :=
  match Message.get msg Core.latency_header_name "" with
  | EmptyString => false
  | h => match Latency.parse_latency_header h with Some _ => true | None => false end
  end.

(** The headers [hs] parsed one after the other, the first as hop 1. *)
Definition parsed_in_order
    (parsedate_to_datetime : string -> option Datetime.datetime)
    (strftime : Datetime.datetime -> string) (hs : list string)
  : list Core.relay :=
  map (fun '(idx, rec) =>
         Core.parse_received_header parsedate_to_datetime strftime rec idx)
      (Core.enumerate1 hs).

End Spec2.

(** ** Library values for the examples with a public address *)

Module Sample2.

(** [ipaddress.ip_address] on the texts of the examples: one public
    address, one private one; anything else here is no address. *)
Inductive address : Type :=
| Public
| Private.

Definition ip_address (s : string) : option address :=
  if String.eqb s "8.8.8.8" then Some Public
  else if String.eqb s "10.0.0.1" then Some Private
  else None.

Definition is_private (a : address) : bool :=
  match a with Public => false | Private => true end.

Definition is_loopback (a : address) : bool := false.

Definition analyze (msg : Message.message) : res Core.EmailParseResult :=
  Core.analyze Sample.parsedate Sample.strftime Sample.parseaddr address
               ip_address is_private is_loopback msg.

(** A first hop inside a private network, a second one from a public
    address. *)
Definition private_then_public : Message.message :=
  [("Received", "from relay (8.8.8.8) by mx; Mon, 01 Jan 2024 10:00:10 +0000");
   ("Received", "from laptop (10.0.0.1) by relay; Mon, 01 Jan 2024 10:00:00 +0000")].

End Sample2.


(** ** [IPLookupService]: its own blacklist checks *)

Module ServiceBlacklist.
Import Blacklist.

(** The body shared by [_check_spamhaus], [_check_barracuda] and
    [_check_spamcop]: [except (NoAnswer, NXDOMAIN): return False], then
    [except Exception: return None].  Every class of [exc_class] derives
    from [Exception], so nothing leaves the call. *)
Definition check_zone_on (o : outcome) : option bool :=
  match o with
  | Answered => Some true
  | Raised e =>
      match handle [ ([NoAnswer; NXDOMAIN], Some false) ] e with
      | Some v => v
      | None => None
      end
  end.

Section Service.

Variable resolve : string -> outcome.
Variable is_valid_ip : string -> bool.
Variable is_private_ip : string -> bool.

Definition check_zone (zone : string) (ip : string) : option bool :=
  let parts := Str.split_on "." ip in
  let reversed_ip := Str.join "." (List.rev parts) in
  let query := reversed_ip ++ "." ++ zone in
  check_zone_on (resolve query).

Definition check_spamhaus : string -> option bool := check_zone "zen.spamhaus.org".
Definition check_barracuda : string -> option bool := check_zone "b.barracudacentral.org".
Definition check_spamcop : string -> option bool := check_zone "bl.spamcop.net".

(** [check_blacklists] *)
Definition check_blacklists (ip : string) : Dict.dict (option bool) :=
  if negb (is_valid_ip ip) || is_private_ip ip then []
  else [ ("spamhaus", check_spamhaus ip);
         ("barracuda", check_barracuda ip);
         ("spamcop", check_spamcop ip) ].

End Service.

End ServiceBlacklist.

(** ** [IPLookupService._get_fallback_ip_info] *)

Module Fallback.
Import IPLookup.

(** The table [cloud_ranges], in the order a [dict] literal is iterated. *)
Definition cloud_ranges : list (string * list string) :=
  [ ("Google", ["8.8.0.0/12"; "35.0.0.0/8"; "104.16.0.0/12"]);
    ("Amazon AWS", ["52.0.0.0/8"; "54.0.0.0/8"; "18.0.0.0/8"]);
    ("Microsoft Azure", ["13.64.0.0/11"; "20.0.0.0/8"; "40.0.0.0/8"]);
    ("Cloudflare", ["104.16.0.0/12"; "172.64.0.0/13"; "173.245.48.0/20"]) ].

Section Cloud.

(** [ipaddress.ip_address]; [None] when it raises [ValueError]. *)
Variable ip_obj : Type.
Variable ip_address : string -> option ip_obj.
(** [ipaddress.ip_network] with its default [strict=True]; [None] when it
    raises [ValueError]. *)
Variable network : Type.
Variable ip_network : string -> option network.
(** [ip_obj in network] *)
Variable contains : ip_obj -> network -> bool.

(** The inner loop [for range_str in ranges], with its [break].  The
    flag tells that an exception left the loop; what was written to
    [info] before stays written. *)
Fixpoint scan_ranges (o : ip_obj) (provider : string) (ranges : list string)
    (info : gmap string value) : gmap string value * bool :=
  match ranges with
  | [] => (info, false)
  | range_str :: rest =>
      match ip_network range_str with
      | None => (info, true)
      | Some net =>
          if contains o net then (<["org" := VStr provider]> info, false)
          else scan_ranges o provider rest info
      end
  end.

(** The outer loop [for provider, ranges in cloud_ranges.items()]. *)
Fixpoint scan_providers (o : ip_obj) (providers : list (string * list string))
    (info : gmap string value) : gmap string value * bool :=
  match providers with
  | [] => (info, false)
  | (provider, ranges) :: rest =>
      let '(info', raised) := scan_ranges o provider ranges info in
      if raised then (info', true) else scan_providers o rest info'
  end.

(** [_get_fallback_ip_info]; [ptr] is what [get_ptr_record(ip)] returned
    and [asn_info] what [get_asn_info(ip)] returned. *)
Definition get_fallback_ip_info (ip : string) (ptr : option string)
    (asn_info : gmap string value) : gmap string value :=
  let info : gmap string value := {["ip" := VStr ip]} in
  let info :=
    match ptr with
    | Some (String c h) => <["hostname" := VStr (String c h)]> info
    | _ => info
    end in
  let info :=
    if bool_decide (asn_info = ∅) then info
    else asn_info ∪ info                            (* info.update(asn_info) *)
    in
  match ip_address ip with
  | Some o => fst (scan_providers o cloud_ranges info)
  | None => info                                    (* except: pass *)
  end.

End Cloud.

End Fallback.

(** ** IPv4 networks, for the examples *)

Module Ipv4.

Definition all_digits (s : string) : bool :=
  negb (String.eqb s "") && negb (Str.any_char (fun c => negb (Str.is_digit c)) s).

(** An octet as [ipaddress] reads it: one to three decimal digits, no
    leading zero before another digit, at most 255. *)
Definition octet (f : string) : bool :=
  all_digits f && (String.length f <=? 3)%nat &&
  match f with
  | String "0" (String _ _) => false
  | _ => true
  end &&
  (Str.int f <=? 255)%Z.

(** [ipaddress.ip_address(s)] on a dotted quad: its value, or [None] for
    the [ValueError]. *)
Definition address (s : string) : option Z :=
  match Str.split_on "." s with
  | [a; b; c; d] =>
      if forallb octet [a; b; c; d]
      then Some (Str.int a * 16777216 + Str.int b * 65536 + Str.int c * 256
                 + Str.int d)%Z
      else None
  | _ => None
  end.

(** The network of an address and a prefix length, or [None] for the
    [ValueError] the strict check raises when a bit of the address beyond
    the prefix is set. *)
Definition network_of (n p : Z) : option (Z * Z) :=
  let hostmask := (2 ^ (32 - p) - 1)%Z in
  if (Z.land n hostmask =? 0)%Z then Some (n, p) else None.

(** [ipaddress.ip_network(s)], with its default [strict=True], on a
    dotted quad alone (prefix length 32) or followed by a slash and a
    prefix length in decimal digits, as every entry of [cloud_ranges] is;
    [None] for the [ValueError]. *)
Definition ip_network (s : string) : option (Z * Z) :=
  match Str.split_on "/" s with
  | [a] =>
      match address a with
      | Some n => network_of n 32
      | None => None
      end
  | [a; p] =>
      match address a, Str.to_int p with
      | Some n, Some len =>
          if all_digits p && (len <=? 32)%Z then network_of n len else None
      | _, _ => None
      end
  | _ => None
  end.

(** [address in network] *)
Definition contains (n : Z) (net : Z * Z) : bool :=
  (Z.shiftr n (32 - snd net) =? Z.shiftr (fst net) (32 - snd net))%Z.

End Ipv4.

(** ** [EmailAnalyzer._check_authentication] *)

Module Auth.
Import Re.

(** [\w] on a code point below 256: [str.isalnum] or the underscore. *)
Definition is_word (c : ascii) : bool :=
  Str.is_digit c || Str.is_upper_az c || Str.is_lower_az c ||
  (Str.code c =? 95)%nat || (Str.code c =? 170)%nat ||
  Str.between 178 179 c || (Str.code c =? 181)%nat ||
  Str.between 185 186 c || Str.between 188 190 c ||
  Str.between 192 214 c || Str.between 216 246 c || Str.between 248 255 c.

(** [re.search] for a pattern [\b] followed by [r], where [r] starts with
    a word character: a match can start only at the start of the text or
    after a character that is not a word character. *)
Fixpoint search_at_word_start (r : regex) (word_before : bool) (s : string)
  : option captures :=
  match (if word_before then None else match_at r s) with
  | Some c => Some c
  | None =>
      match s with
      | EmptyString => None
      | String c s' => search_at_word_start r (is_word c) s'
      end
  end.

Definition is_letter (c : ascii) : bool := Str.is_lower_az c || Str.is_upper_az c.
Definition letter : regex := Chr is_letter.                   (* [a-zA-Z] *)

(** A non-empty text of ASCII letters. *)
Definition letters_only (s : string) : bool :=
  negb (String.eqb s "") && negb (Str.any_char (fun c => negb (is_letter c)) s).

(** [s] without the prefix [k], when it starts with it. *)
Fixpoint strip_prefix (k s : string) : option string :=
  match k with
  | EmptyString => Some s
  | String a k' =>
      match s with
      | String b s' => if Ascii.eqb b a then strip_prefix k' s' else None
      | EmptyString => None
      end
  end.
Definition not_semicolon : regex :=
  Chr (fun c => negb (Ascii.eqb c ";")).                      (* [^;] *)

(** [d=([^;]+)], to be searched after [\b] *)
Definition d_pattern : regex :=
  Seq (lit "d=") (Group 1 (plus true not_semicolon)).

(** [spf=([a-zA-Z]+)], [dkim=([a-zA-Z]+)], [dmarc=([a-zA-Z]+)] *)
Definition status_pattern (key : string) : regex :=
  Seq (lit key) (Seq (lit "=") (Group 1 (plus true letter))).

(** [spf=[^;]+(?:;[^;]+)*] *)
Definition spf_info_pattern : regex :=
  Seq (lit "spf=") (Seq (plus true not_semicolon)
      (Star true (Seq (lit ";") (plus true not_semicolon)))).

(** The fields of [EmailParseResult] that [_check_authentication] sets. *)
Record authentication : Type := mk_authentication {
  auth_results : string;
  spf_aligned : bool;
  dkim_aligned : bool;
  dkim_info : string;
  spf_status : string;
  spf_authenticated : bool;
  spf_info : string;
  dkim_status : string;
  dkim_authenticated : bool;
  dmarc_status : string;
  dmarc_compliant : bool
}.

(** One of the three blocks [x_result = re.search(...)]: the status, and
    whether it is [pass] in any case; the defaults when nothing matches. *)
Definition status_of (key : string) (auth_results : string) : string * bool :=
  match search (status_pattern key) auth_results with
  | Some c =>
      let status := Core.group_text 1 c in
      (status, String.eqb (Str.lower status) "pass")
  | None => ("none", false)
  end.

Definition check_authentication (msg : Message.message)
    (from_domain return_path_domain : string) : authentication :=
  let auth_results := Message.get msg "Authentication-Results" "" in
  let spf_aligned :=
    match return_path_domain with
    | EmptyString => false
    | _ => String.eqb from_domain return_path_domain
    end in
  let dkim_signature := Message.get msg "DKIM-Signature" "" in
  let dkim_aligned :=
    match dkim_signature with
    | EmptyString => false
    | _ =>
        match search_at_word_start d_pattern false dkim_signature with
        | Some c => String.eqb from_domain (Str.strip (Core.group_text 1 c))
        | None => false
        end
    end in
  let dkim_info :=
    match dkim_signature with
    | EmptyString => "No DKIM-Signature found"
    | _ =>
        if (200 <? String.length dkim_signature)%nat
        then Str.take 200 dkim_signature ++ "..."
        else dkim_signature
    end in
  let spf := match auth_results with
             | EmptyString => ("none", false)
             | _ => status_of "spf" auth_results
             end in
  let spf_info :=
    match auth_results with
    | EmptyString => EmptyString
    | _ => match search spf_info_pattern auth_results with
           | Some c => Core.group_text 0 c
           | None => EmptyString
           end
    end in
  let dkim := match auth_results with
              | EmptyString => ("none", false)
              | _ => status_of "dkim" auth_results
              end in
  let dmarc := match auth_results with
               | EmptyString => ("none", false)
               | _ => status_of "dmarc" auth_results
               end in
  mk_authentication auth_results spf_aligned dkim_aligned dkim_info
    (fst spf) (snd spf) spf_info (fst dkim) (snd dkim) (fst dmarc) (snd dmarc).

(** The call in [analyze]: the domains are those [_extract_domains]
    returned. *)
Definition of_message (parseaddr : string -> string * string)
    (msg : Message.message) : authentication :=
  let '(from_domain, return_path_domain) := Core.extract_domains parseaddr msg in
  check_authentication msg from_domain return_path_domain.

End Auth.

(** ** Parts of a text *)

Module Text.

(** [t] is what is left of [s] after some of its first characters. *)
Inductive suffix (t : string) : string -> Prop :=
| suffix_refl : suffix t t
| suffix_tail c s : suffix t s -> suffix t (String c s).

(** [part] occurs in [s]. *)
Definition substring (part s : string) : Prop :=
  exists before after, s = (before ++ part ++ after)%string.

End Text.

(** ** [IPLookupService.get_asn_info] *)

Module Asn.
Import IPLookup.

(** What [dns.resolver.resolve(query, 'TXT')] does: the text of each
    record of the answer, as [str] gives it (between double quotes), or
    an exception. *)
Inductive txt_outcome : Type :=
| TxtAnswer (records : list string)
| TxtRaised.

Definition quote : string := String (ascii_of_nat 34) EmptyString.

(** The number of occurrences of [c] in [s]. *)
Definition count_char (c : ascii) (s : string) : nat :=
  length (List.filter (fun d => Ascii.eqb d c) (list_ascii_of_string s)).

(** [parts[i] if len(parts) > i else ''] *)
Definition part_or_empty (i : nat) (parts : list string) : string :=
  nth i parts EmptyString.

(** From the text of the first record to the dict. *)
Definition asn_of_txt (record : string) : gmap string value :=
  let txt := Str.strip_chars quote record in
  let parts := map Str.strip (Str.split_on "|" txt) in
  if (3 <=? length parts)%nat
  then <["asn" := VStr (part_or_empty 0 parts)]>
       (<["prefix" := VStr (part_or_empty 1 parts)]>
       (<["country" := VStr (part_or_empty 2 parts)]>
       (<["registry" := VStr (part_or_empty 3 parts)]>
       (<["allocated" := VStr (part_or_empty 4 parts)]> ∅))))
  else ∅.

Section Service.

Variable resolve_txt : string -> txt_outcome.
Variable is_valid_ip : string -> bool.
Variable is_private_ip : string -> bool.

Definition get_asn_info (ip : string) : gmap string value :=
  if negb (is_valid_ip ip) || is_private_ip ip then ∅
  else
    let parts := Str.split_on "." ip in
    let reversed_ip := Str.join "." (List.rev parts) in
    let query := reversed_ip ++ ".origin.asn.cymru.com" in
    match resolve_txt query with
    | TxtAnswer (record :: _) => asn_of_txt record
    | TxtAnswer [] => ∅                              (* if answers: *)
    | TxtRaised => ∅                                 (* except Exception: pass *)
    end.

End Service.

End Asn.

(** * Properties *)

(** ** Dictionaries *)

Module DictFacts.
Import Dict.

Lemma mem_spec k ks : Spec.mem k ks = true <-> In k ks.
Proof.
  unfold Spec.mem. rewrite existsb_exists. split.
  - intros [x [Hin Heq]]. apply String.eqb_eq in Heq. now subst.
  - intros Hin. exists k. split; [assumption | apply String.eqb_refl].
Qed.

Lemma get_set_eq {V} k (v : V) d : get k (set k v d) = Some v.
Proof.
  induction d as [| [k' v'] d IH]; simpl.
  - now rewrite String.eqb_refl.
  - destruct (String.eqb k k') eqn:E; simpl; rewrite E; [reflexivity | exact IH].
Qed.

Lemma get_set_ne {V} k k0 (v : V) d : k0 <> k -> get k0 (set k v d) = get k0 d.
Proof.
  intros Hne. induction d as [| [k' v'] d IH]; simpl.
  - destruct (String.eqb k0 k) eqn:E; [apply String.eqb_eq in E; contradiction | reflexivity].
  - destruct (String.eqb k k') eqn:E; simpl.
    + apply String.eqb_eq in E. subst k'.
      destruct (String.eqb k0 k) eqn:E0; [apply String.eqb_eq in E0; contradiction | reflexivity].
    + destruct (String.eqb k0 k'); [reflexivity | exact IH].
Qed.

Lemma keys_set {V} k (v : V) d :
  keys (set k v d) = if Spec.mem k (keys d) then keys d else (keys d ++ [k])%list.
Proof.
  unfold keys, Spec.mem. induction d as [| [k' v'] d IH]; simpl; [reflexivity |].
  destruct (String.eqb k k') eqn:E; simpl; [reflexivity |].
  rewrite IH. now destruct (existsb (String.eqb k) (map fst d)).
Qed.

Lemma filter_twice (ks : list string) k X :
  Spec.mem k ks = true ->
  List.filter (fun x => negb (Spec.mem x ks))
              (List.filter (fun x => negb (String.eqb x k)) X)
  = List.filter (fun x => negb (Spec.mem x ks)) X.
Proof.
  intros Hk. induction X as [| x X IH]; simpl; [reflexivity |].
  destruct (String.eqb x k) eqn:E; simpl.
  - apply String.eqb_eq in E. subst x. rewrite Hk. simpl. exact IH.
  - destruct (Spec.mem x ks); simpl; now rewrite IH.
Qed.

Lemma mem_app_single x ks k :
  Spec.mem x (ks ++ [k]) = Spec.mem x ks || String.eqb x k.
Proof.
  unfold Spec.mem. rewrite existsb_app. simpl. now rewrite orb_false_r.
Qed.

Lemma filter_snoc (ks : list string) k X :
  List.filter (fun x => negb (Spec.mem x (ks ++ [k]))) X
  = List.filter (fun x => negb (Spec.mem x ks))
                (List.filter (fun x => negb (String.eqb x k)) X).
Proof.
  induction X as [| x X IH]; simpl; [reflexivity |].
  rewrite mem_app_single.
  destruct (String.eqb x k) eqn:E; simpl.
  - rewrite orb_true_r. simpl. exact IH.
  - rewrite orb_false_r. destruct (Spec.mem x ks); simpl; now rewrite IH.
Qed.

Lemma keys_fold {V} (items : list (string * V)) d :
  keys (fold_left step items d)
  = (keys d ++ List.filter (fun x => negb (Spec.mem x (keys d)))
                           (Spec.dedup_first (map fst items)))%list.
Proof.
  revert d. induction items as [| [k v] items IH]; intros d; simpl.
  - now rewrite app_nil_r.
  - rewrite IH. unfold step. simpl. rewrite keys_set.
    destruct (Spec.mem k (keys d)) eqn:E; simpl.
    + now rewrite filter_twice.
    + rewrite <- app_assoc. simpl. now rewrite filter_snoc.
Qed.

Lemma get_fold {V} k (items : list (string * V)) d :
  get k (fold_left step items d)
  = match Spec.last_value k items with
    | Some v => Some v
    | None => get k d
    end.
Proof.
  revert d. induction items as [| [k' v] items IH]; intros d; simpl; [reflexivity |].
  rewrite IH. destruct (Spec.last_value k items); [reflexivity |].
  unfold step. simpl. destruct (String.eqb k k') eqn:E.
  - apply String.eqb_eq in E. subst. apply get_set_eq.
  - apply get_set_ne. intros ->. now rewrite String.eqb_refl in E.
Qed.

Lemma dedup_first_not_in k ks :
  ~ In k (List.filter (fun x => negb (String.eqb x k)) ks).
Proof.
  rewrite filter_In. intros [_ H]. now rewrite String.eqb_refl in H.
Qed.

Lemma NoDup_dedup_first ks : List.NoDup (Spec.dedup_first ks).
Proof.
  induction ks as [| k ks IH]; simpl; constructor.
  - apply dedup_first_not_in.
  - now apply List.NoDup_filter.
Qed.

Lemma In_dedup_first k ks : In k (Spec.dedup_first ks) <-> In k ks.
Proof.
  induction ks as [| k' ks IH]; simpl; [tauto |].
  rewrite filter_In, IH. destruct (String.eqb k k') eqn:E.
  - apply String.eqb_eq in E. subst. tauto.
  - simpl. split; [tauto |]. intros [-> | H]; [now rewrite String.eqb_refl in E | tauto].
Qed.

Lemma keys_of_items {V} (items : list (string * V)) :
  keys (of_items items) = Spec.dedup_first (map fst items).
Proof.
  unfold of_items. change (fun (d : dict V) (kv : string * V) =>
    set (fst kv) (snd kv) d) with (@step V).
  rewrite keys_fold.
  assert (Hf : forall X : list string,
             List.filter (fun x => negb (Spec.mem x (keys (@nil (string * V))))) X = X).
  { induction X as [| x X IH]; simpl; [reflexivity | f_equal; exact IH]. }
  now rewrite Hf.
Qed.

Lemma get_of_items {V} k (items : list (string * V)) :
  get k (of_items items) = Spec.last_value k items.
Proof.
  unfold of_items. change (fun (d : dict V) (kv : string * V) =>
    set (fst kv) (snd kv) d) with (@step V).
  rewrite get_fold. now destruct (Spec.last_value k items).
Qed.

End DictFacts.

(** ** The analysis result, field by field *)

Module AnalyzeFacts.
Import Core.

Section Fields.

Variable parsedate_to_datetime : string -> option Datetime.datetime.
Variable strftime : Datetime.datetime -> string.
Variable parseaddr : string -> string * string.
Variable ip_obj : Type.
Variable ip_address : string -> option ip_obj.
Variable is_private : ip_obj -> bool.
Variable is_loopback : ip_obj -> bool.

Abbreviation analyze :=
  (analyze parsedate_to_datetime strftime parseaddr ip_obj ip_address
           is_private is_loopback).

(** [_calculate_delays] touches the relays and the three timing fields
    only. *)
Lemma calculate_delays_keeps msg r r' :
  calculate_delays msg r = Ok r' ->
  headers r' = headers r /\ from_domain r' = from_domain r /\
  return_path_domain r' = return_path_domain r /\
  sender_ip r' = sender_ip r /\ auth_results r' = auth_results r.
Proof.
  unfold calculate_delays.
  destruct (Message.get msg latency_header_name "") eqn:Hl.
  - destruct (for_each _ _ _); simpl; [| discriminate].
    intros [= <-]. simpl. auto.
  - destruct (Latency.parse_latency_header _).
    + intros [= <-]. simpl. auto.
    + simpl. destruct (for_each _ _ _); simpl; [| discriminate].
      intros [= <-]. simpl. auto.
Qed.

Lemma analyze_fields msg r :
  analyze msg = Ok r ->
  headers r = Dict.of_items (Message.items msg) /\
  (from_domain r, return_path_domain r) = extract_domains parseaddr msg.
Proof.
  unfold Core.analyze.
  destruct (extract_domains parseaddr msg) as [fd rd].
  destruct (process_relays _ _ msg) as [rs |]; simpl; [| discriminate].
  intros H. apply calculate_delays_keeps in H. simpl in H.
  destruct H as (-> & -> & -> & _). auto.
Qed.

End Fields.

End AnalyzeFacts.

(** ** C7: the stored header collection *)

Module Headers.
Import Core.

(** C7, as the code has it: [result.headers] is [dict(msg.items())], so it
    has one entry per distinct header name, the names in the order of their
    first occurrence, each with the value of the last header of that name;
    repeated headers are not kept apart. *)
Theorem headers_one_entry_per_name :
  forall (msg : Message.message),
    let d := Dict.of_items (Message.items msg) in
    Dict.keys d = Spec.dedup_first (map fst msg) /\
    List.NoDup (Dict.keys d) /\
    (forall k, Dict.get k d = Spec.last_value k msg) /\
    (forall pdt sft pa (ip_obj : Type) (ipa : string -> option ip_obj) ipp ipl r,
        analyze pdt sft pa ip_obj ipa ipp ipl msg = Ok r -> headers r = d).
Proof.
  intros msg d. subst d. unfold Message.items. repeat split.
  - apply DictFacts.keys_of_items.
  - rewrite DictFacts.keys_of_items. apply DictFacts.NoDup_dedup_first.
  - intros k. apply DictFacts.get_of_items.
  - intros pdt sft pa ip_obj ipa ipp ipl r H.
    apply AnalyzeFacts.analyze_fields in H. exact (proj1 H).
Qed.

Lemma headers_one_entry_per_name_witness :
  exists r,
    Sample.analyze [("Received", "from a by b"); ("Subject", "s");
                    ("Received", "from c by d")] = Ok r /\
    headers r = Dict.of_items [("Received", "from a by b"); ("Subject", "s");
                               ("Received", "from c by d")].
Proof.
  eexists. split; [vm_compute; reflexivity |].
  refine (proj2 (proj2 (proj2 (headers_one_entry_per_name
            [("Received", "from a by b"); ("Subject", "s");
             ("Received", "from c by d")])))
            Sample.parsedate Sample.strftime Sample.parseaddr unit
            Sample.ip_address Sample.is_private Sample.is_loopback _ _).
  vm_compute. reflexivity.
Defined.

(** Two [Received] headers are stored as one entry, the second. *)
Lemma headers_collapse_repeated_names :
  let msg := [("Received", "from a by b"); ("Subject", "s");
              ("Received", "from c by d")] in
  exists r, Sample.analyze msg = Ok r /\
    headers r = [("Received", "from c by d"); ("Subject", "s")] /\
    Message.get_all msg "Received" = ["from a by b"; "from c by d"].
Proof.
  eexists. split; [vm_compute; reflexivity |]. split; reflexivity.
Qed.

End Headers.

(** ** C8: one blacklist zone, three possible answers *)

Module BlacklistFacts.
Import Blacklist.

(** Every class of the resolver's own hierarchy is caught by one of the two
    clauses; [OSError] stands for what is not. *)
Lemma dns_exception_cases e :
  issubclass e DNSException = true ->
  e = NXDOMAIN \/
  (issubclass e NXDOMAIN = false /\
   existsb (issubclass e) [NoAnswer; Timeout; DNSException] = true).
Proof. destruct e; simpl; intros H; try discriminate; auto. Qed.

(** C8: the result of one zone query is [True] for an answer, [False] for
    NXDOMAIN and for nothing else, and [None] (neither of them) for every
    other failure the resolver reports: timeout, no answer, all servers
    failing, a malformed response.  An exception from outside the
    resolver's hierarchy is not turned into a value at all. *)
Theorem check_single_blacklist_tristate :
  forall (resolve : string -> outcome) (reversed_ip zone : string),
    let r := check_single_blacklist resolve reversed_ip zone in
    match resolve (reversed_ip ++ "." ++ zone) with
    | Answered => r = Some (Some true)
    | Raised NXDOMAIN => r = Some (Some false)
    | Raised e =>
        r <> Some (Some false) /\ r <> Some (Some true) /\
        if issubclass e DNSException then r = Some None else r = None
    end.
Proof.
  intros resolve reversed_ip zone r. subst r. unfold check_single_blacklist.
  destruct (resolve (reversed_ip ++ "." ++ zone)) as [| e]; [reflexivity |].
  destruct e; simpl; repeat split; try reflexivity; discriminate.
Qed.

(** The named failures of the claim, one by one. *)
Lemma indeterminate_failures :
  map (fun e => check_single_blacklist_on (Raised e))
      [Timeout; LifetimeTimeout; NoNameservers; FormError; NoAnswer; YXDOMAIN]
  = [Some None; Some None; Some None; Some None; Some None; Some None].
Proof. reflexivity. Qed.

Section Zones.

Variable resolve : string -> outcome.
Variable is_valid_public_ip : string -> bool.

Lemma check_zones_ok reversed_ip zones :
  (forall host name, In (host, name) zones ->
     check_single_blacklist resolve reversed_ip host <> None) ->
  forall results,
  exists final,
    check_zones resolve reversed_ip zones results = Some final /\
    forall name,
      Dict.get name final =
      match Spec.last_value name (map (fun z => (snd z, Spec.zone_result resolve reversed_ip (fst z))) zones) with
      | Some r => Some r
      | None => Dict.get name results
      end.
Proof.
  induction zones as [| [host name] zones IH]; intros Hok results; simpl.
  - exists results. split; [reflexivity |]. reflexivity.
  - destruct (check_single_blacklist resolve reversed_ip host) as [r |] eqn:E.
    + destruct (IH (fun h n Hin => Hok h n (or_intror Hin))
                   (Dict.set name r results)) as (final & Hf & Hget).
      exists final. split; [exact Hf |]. intros k. rewrite Hget.
      destruct (Spec.last_value k _); [reflexivity |].
      unfold Spec.zone_result. rewrite E.
      destruct (String.eqb k name) eqn:Ek.
      * apply String.eqb_eq in Ek. subst k. apply DictFacts.get_set_eq.
      * apply DictFacts.get_set_ne. intros ->. now rewrite String.eqb_refl in Ek.
    + exfalso. apply (Hok host name); [now left | exact E].
Qed.

End Zones.

End BlacklistFacts.

(** ** The relay chain: numbering, the reorder check, the blacklist flag *)

Module RelayFacts.
Import Core.

Lemma forget_delay_set_delay d r : Spec.forget_delay (set_delay d r) = Spec.forget_delay r.
Proof. reflexivity. Qed.

Lemma hop_forget r : hop (Spec.forget_delay r) = hop r.
Proof. reflexivity. Qed.

Lemma blacklist_forget r : blacklist (Spec.forget_delay r) = blacklist r.
Proof. reflexivity. Qed.

Lemma time_dt_forget r : time_dt (Spec.forget_delay r) = time_dt r.
Proof. reflexivity. Qed.

Lemma map_forget_field {B} (f : relay -> B) rs rs' :
  (forall r, f (Spec.forget_delay r) = f r) ->
  map Spec.forget_delay rs = map Spec.forget_delay rs' -> map f rs = map f rs'.
Proof.
  intros Hf H.
  rewrite <- (map_ext (fun r => f (Spec.forget_delay r)) f Hf rs).
  rewrite <- (map_ext (fun r => f (Spec.forget_delay r)) f Hf rs').
  rewrite <- !(map_map Spec.forget_delay f). now rewrite H.
Qed.

Lemma enumerate_from_map {A B} (g : nat -> A -> B) (h : B -> nat) (l : list A) :
  (forall i x, h (g i x) = i) ->
  forall s, map h (map (fun '(i, x) => g i x) (combine (seq s (length l)) l))
            = seq s (length l).
Proof.
  intros Hh. induction l as [| x l IH]; intros s; simpl; [reflexivity |].
  now rewrite Hh, IH.
Qed.

Lemma enumerate_from_length {A B} (g : nat * A -> B) (l : list A) s :
  length (map g (combine (seq s (length l)) l)) = length l.
Proof.
  rewrite length_map, length_combine, length_seq. apply Nat.min_id.
Qed.

Lemma enumerate_from_fields {A B C} (g : nat -> A -> B) (h : B -> C)
    (k : A -> C) (l : list A) :
  (forall i x, h (g i x) = k x) ->
  forall s, map h (map (fun '(i, x) => g i x) (combine (seq s (length l)) l))
            = map k l.
Proof.
  intros Hh. induction l as [| x l IH]; intros s; simpl; [reflexivity |].
  now rewrite Hh, IH.
Qed.

Lemma renumber_hops rs : map hop (renumber rs) = seq 1 (length rs).
Proof.
  unfold renumber, enumerate1.
  apply (enumerate_from_map (fun i r => set_hop i r) hop rs). reflexivity.
Qed.

Lemma renumber_length rs : length (renumber rs) = length rs.
Proof. unfold renumber, enumerate1. apply enumerate_from_length. Qed.

Lemma renumber_blacklist rs : map blacklist (renumber rs) = map blacklist rs.
Proof.
  unfold renumber, enumerate1.
  apply (enumerate_from_fields (fun i r => set_hop i r) blacklist blacklist rs).
  reflexivity.
Qed.

Lemma renumber_time_dt rs : map time_dt (renumber rs) = map time_dt rs.
Proof.
  unfold renumber, enumerate1.
  apply (enumerate_from_fields (fun i r => set_hop i r) time_dt time_dt rs).
  reflexivity.
Qed.

Lemma renumber_delay rs : map delay (renumber rs) = map delay rs.
Proof.
  unfold renumber, enumerate1.
  apply (enumerate_from_fields (fun i r => set_hop i r) delay delay rs).
  reflexivity.
Qed.

Section Relays.

Variable parsedate_to_datetime : string -> option Datetime.datetime.
Variable strftime : Datetime.datetime -> string.

Abbreviation parse_received_header :=
  (parse_received_header parsedate_to_datetime strftime).
Abbreviation process_relays := (process_relays parsedate_to_datetime strftime).
Abbreviation numbered := (Spec.numbered parsedate_to_datetime strftime).

Lemma parse_hop header i : hop (parse_received_header header i) = i.
Proof.
  unfold Core.parse_received_header.
  destruct (Re.search time_pattern header); [| reflexivity].
  now destruct (parsedate_to_datetime _).
Qed.

Lemma parse_blacklist header i :
  blacklist (parse_received_header header i) = true.
Proof.
  unfold Core.parse_received_header.
  destruct (Re.search time_pattern header); [| reflexivity].
  now destruct (parsedate_to_datetime _).
Qed.

Lemma parse_delay header i : delay (parse_received_header header i) = 0%Z.
Proof.
  unfold Core.parse_received_header.
  destruct (Re.search time_pattern header); [| reflexivity].
  now destruct (parsedate_to_datetime _).
Qed.

Lemma numbered_length msg :
  length (numbered msg) = length (Message.get_all msg "Received").
Proof.
  unfold Spec.numbered, enumerate1. rewrite enumerate_from_length.
  apply length_rev.
Qed.

Lemma numbered_hops msg :
  map hop (numbered msg) = seq 1 (length (Message.get_all msg "Received")).
Proof.
  unfold Spec.numbered, enumerate1.
  rewrite (enumerate_from_map (fun i h => parse_received_header h i) hop).
  - now rewrite length_rev.
  - intros i x. apply parse_hop.
Qed.

Lemma numbered_blacklist msg : Forall (fun r => blacklist r = true) (numbered msg).
Proof.
  unfold Spec.numbered. apply Forall_map. apply Forall_forall.
  intros [i h] _. apply parse_blacklist.
Qed.

Lemma numbered_delay msg : Forall (fun r => delay r = 0%Z) (numbered msg).
Proof.
  unfold Spec.numbered. apply Forall_map. apply Forall_forall.
  intros [i h] _. apply parse_delay.
Qed.

(** [_process_relays], case by case. *)
Lemma process_relays_cases msg :
  process_relays msg =
  match Spec.reorder_decision (numbered msg) with
  | Spec.Keep => Ok (numbered msg)
  | Spec.Reverse => Ok (renumber (List.rev (numbered msg)))
  | Spec.Fail => Raise TypeError
  end.
Proof.
  unfold Core.process_relays. fold (numbered msg).
  unfold Spec.reorder_decision.
  destruct (numbered msg) as [| r0 [| r1 rs]]; try reflexivity.
  destruct (time_dt r0) as [t0 |], (time_dt r1) as [t1 |]; try reflexivity.
  unfold Datetime.lt.
  destruct (Bool.eqb (Datetime.aware t1) (Datetime.aware t0)); simpl;
    [| reflexivity].
  now destruct (Datetime.instant t1 <? Datetime.instant t0)%Z.
Qed.

End Relays.

End RelayFacts.

(** ** The timing loop *)

Module DelayFacts.
Import Core RelayFacts.
Local Open Scope list_scope.

Lemma walk_prev p p' rest acc :
  time_dt p = time_dt p' -> Spec.walk p rest acc = Spec.walk p' rest acc.
Proof. intros H. destruct rest as [| c rest]; simpl; [reflexivity |]. now rewrite H. Qed.

(** The loop over [range(1, len(relays))] is the walk along the chain. *)
Lemma for_each_walk rest : forall pre prev acc,
  for_each (seq (S (length pre)) (length rest)) delay_step
           (pre ++ prev :: rest, acc)
  = do w <- Spec.walk prev rest acc; Ok (pre ++ prev :: fst w, snd w).
Proof.
  induction rest as [| cur rest IH]; intros pre prev acc; [reflexivity |].
  cbn [length seq for_each]. unfold delay_step at 1.
  replace (S (length pre) - 1)%nat with (length pre) by lia.
  rewrite (list_lookup_middle pre (cur :: rest) prev (length pre) eq_refl).
  replace (pre ++ prev :: cur :: rest) with ((pre ++ [prev]) ++ cur :: rest)
    by now rewrite <- app_assoc.
  assert (Hlen : S (length pre) = length (pre ++ [prev])).
  { rewrite length_app. simpl. lia. }
  rewrite (list_lookup_middle (pre ++ [prev]) rest cur (S (length pre)) Hlen).
  cbn [Spec.walk].
  destruct (time_dt prev) as [tp |] eqn:Hp; destruct (time_dt cur) as [tc |] eqn:Hc.
  - destruct (Datetime.sub_seconds tc tp) as [delta | e]; [| reflexivity].
    cbn [bind].
    replace (<[S (length pre) := set_delay (Z.max delta 0) cur]>
               ((pre ++ [prev]) ++ cur :: rest))
      with ((pre ++ [prev]) ++ set_delay (Z.max delta 0) cur :: rest).
    + rewrite Hlen, IH.
      rewrite (walk_prev (set_delay (Z.max delta 0) cur) cur) by reflexivity.
      destruct (Spec.walk cur rest (acc + Z.max delta 0)) as [[l a] | e];
        [| reflexivity].
      cbn [bind fst snd]. now rewrite <- app_assoc.
    + pose proof (insert_app_r (pre ++ [prev]) (cur :: rest) 0
                    (set_delay (Z.max delta 0) cur)) as Hi.
      rewrite Nat.add_0_r in Hi. rewrite Hlen. now rewrite Hi.
  - cbn [bind]. rewrite Hlen, IH.
    destruct (Spec.walk cur rest acc) as [[l a] | e]; [| reflexivity].
    cbn [bind fst snd]. now rewrite <- app_assoc.
  - cbn [bind]. rewrite Hlen, IH.
    destruct (Spec.walk cur rest acc) as [[l a] | e]; [| reflexivity].
    cbn [bind fst snd]. now rewrite <- app_assoc.
  - cbn [bind]. rewrite Hlen, IH.
    destruct (Spec.walk cur rest acc) as [[l a] | e]; [| reflexivity].
    cbn [bind fst snd]. now rewrite <- app_assoc.
Qed.

Lemma timing_loop_walk rs :
  Spec.timing_loop rs =
  match rs with
  | [] => Ok ([], 0%Z)
  | r :: rest => do w <- Spec.walk r rest 0; Ok (r :: fst w, snd w)
  end.
Proof.
  unfold Spec.timing_loop. destruct rs as [| r rest]; [reflexivity |].
  cbn [length]. replace (S (length rest) - 1)%nat with (length rest) by lia.
  exact (for_each_walk rest [] r 0%Z).
Qed.

(** The walk rewrites nothing but [delay]. *)
Lemma walk_forget rest : forall prev acc w,
  Spec.walk prev rest acc = Ok w ->
  map Spec.forget_delay (fst w) = map Spec.forget_delay rest.
Proof.
  induction rest as [| cur rest IH]; intros prev acc w H; simpl in H.
  - injection H as <-. reflexivity.
  - destruct (time_dt prev) as [tp |], (time_dt cur) as [tc |].
    + destruct (Datetime.sub_seconds tc tp); simpl in H; [| discriminate].
      destruct (Spec.walk cur rest _) eqn:Hw; simpl in H; [| discriminate].
      injection H as <-. simpl. f_equal. exact (IH _ _ _ Hw).
    + destruct (Spec.walk cur rest _) eqn:Hw; simpl in H; [| discriminate].
      injection H as <-. simpl. f_equal. exact (IH _ _ _ Hw).
    + destruct (Spec.walk cur rest _) eqn:Hw; simpl in H; [| discriminate].
      injection H as <-. simpl. f_equal. exact (IH _ _ _ Hw).
    + destruct (Spec.walk cur rest _) eqn:Hw; simpl in H; [| discriminate].
      injection H as <-. simpl. f_equal. exact (IH _ _ _ Hw).
Qed.

(** On a chain whose neighbours can be subtracted the walk succeeds, adds
    up the gaps, and writes each gap into the later hop of the pair. *)
Lemma walk_ok rest : forall prev acc,
  Spec.chain_comparable prev rest = true ->
  exists l,
    Spec.walk prev rest acc = Ok (l, (acc + Spec.sum (Spec.gaps prev rest))%Z) /\
    (Forall (fun r => delay r = 0%Z) rest ->
     map delay l = Spec.gaps prev rest).
Proof.
  induction rest as [| cur rest IH]; intros prev acc Hc; simpl in *.
  - exists []. split; [now rewrite Z.add_0_r | reflexivity].
  - apply andb_true_iff in Hc. destruct Hc as [Hpc Hc].
    unfold Spec.comparable in Hpc. unfold Spec.gap.
    destruct (time_dt prev) as [tp |], (time_dt cur) as [tc |].
    + unfold Datetime.sub_seconds. rewrite Hpc. cbn [bind].
      destruct (IH cur (acc + Z.max (Datetime.instant tc - Datetime.instant tp) 0)%Z Hc)
        as (l & -> & Hl).
      eexists. cbn [bind fst snd]. split.
      * now rewrite Z.add_assoc.
      * intros Hz. simpl. f_equal. apply Hl. now inversion Hz.
    + destruct (IH cur acc Hc) as (l & -> & Hl).
      eexists. cbn [bind fst snd]. split; [reflexivity |].
      intros Hz. inversion Hz; subst. simpl. f_equal; auto.
    + destruct (IH cur acc Hc) as (l & -> & Hl).
      eexists. cbn [bind fst snd]. split; [reflexivity |].
      intros Hz. inversion Hz; subst. simpl. f_equal; auto.
    + destruct (IH cur acc Hc) as (l & -> & Hl).
      eexists. cbn [bind fst snd]. split; [reflexivity |].
      intros Hz. inversion Hz; subst. simpl. f_equal; auto.
Qed.

(** One naive hop next to an aware one and the subtraction raises. *)
Lemma walk_raise rest : forall prev acc,
  Spec.chain_comparable prev rest = false ->
  Spec.walk prev rest acc = Raise TypeError.
Proof.
  induction rest as [| cur rest IH]; intros prev acc Hc; simpl in *;
    [discriminate |].
  unfold Spec.comparable in Hc.
  destruct (time_dt prev) as [tp |], (time_dt cur) as [tc |]; simpl in Hc.
  - unfold Datetime.sub_seconds.
    destruct (Bool.eqb (Datetime.aware tc) (Datetime.aware tp)); simpl in *;
      [| reflexivity].
    now rewrite (IH _ _ Hc).
  - now rewrite (IH _ _ Hc).
  - now rewrite (IH _ _ Hc).
  - now rewrite (IH _ _ Hc).
Qed.

Lemma timing_loop_forget rs st :
  Spec.timing_loop rs = Ok st -> map Spec.forget_delay (fst st) = map Spec.forget_delay rs.
Proof.
  rewrite timing_loop_walk. destruct rs as [| r rest].
  - now intros [= <-].
  - destruct (Spec.walk r rest 0) as [w |] eqn:Hw; simpl; [| discriminate].
    intros [= <-]. simpl. f_equal. exact (walk_forget _ _ _ _ Hw).
Qed.

Lemma timing_loop_ok rs :
  Spec.all_comparable rs = true ->
  exists l,
    Spec.timing_loop rs = Ok (l, Spec.sum (Spec.hop_delays rs)) /\
    (Forall (fun r => delay r = 0%Z) rs -> map delay l = Spec.hop_delays rs).
Proof.
  rewrite timing_loop_walk. destruct rs as [| r rest]; simpl; intros Hc.
  - exists []. split; reflexivity.
  - destruct (walk_ok rest r 0%Z Hc) as (l & -> & Hl). simpl.
    exists (r :: l). split; [reflexivity |].
    intros Hz. inversion Hz; subst. simpl. f_equal; auto.
Qed.

Lemma timing_loop_raise rs :
  Spec.all_comparable rs = false -> Spec.timing_loop rs = Raise TypeError.
Proof.
  rewrite timing_loop_walk. destruct rs as [| r rest]; simpl; intros Hc;
    [discriminate |].
  now rewrite (walk_raise _ _ _ Hc).
Qed.

End DelayFacts.

(** ** C1, C2, C3, C10: the relay chain in the analysis result *)

Module Chain.
Import Core RelayFacts DelayFacts.
Local Open Scope list_scope.

Lemma Forall_field {B} (f : relay -> B) (b : B) rs rs' :
  map f rs = map f rs' ->
  Forall (fun r => f r = b) rs' -> Forall (fun r => f r = b) rs.
Proof.
  intros Hm H.
  apply (proj1 (Forall_map f (fun x => x = b) rs)). rewrite Hm.
  apply (proj2 (Forall_map f (fun x => x = b) rs')). exact H.
Qed.

Section Results.

Variable parsedate_to_datetime : string -> option Datetime.datetime.
Variable strftime : Datetime.datetime -> string.
Variable parseaddr : string -> string * string.
Variable ip_obj : Type.
Variable ip_address : string -> option ip_obj.
Variable is_private : ip_obj -> bool.
Variable is_loopback : ip_obj -> bool.

Abbreviation numbered := (Spec.numbered parsedate_to_datetime strftime).
Abbreviation process_relays := (process_relays parsedate_to_datetime strftime).
Abbreviation analyze :=
  (analyze parsedate_to_datetime strftime parseaddr ip_obj ip_address
           is_private is_loopback).

(** What [_process_relays] stores, whichever way the check went. *)
Lemma process_relays_result msg rs :
  process_relays msg = Ok rs ->
  let n := length (Message.get_all msg "Received") in
  length rs = n /\ map hop rs = seq 1 n /\
  Forall (fun r => blacklist r = true) rs /\
  Forall (fun r => delay r = 0%Z) rs.
Proof.
  rewrite process_relays_cases. intros H n. subst n.
  destruct (Spec.reorder_decision (numbered msg)); [| | discriminate];
    injection H as <-.
  - rewrite numbered_length, numbered_hops.
    repeat split; [apply numbered_blacklist | apply numbered_delay].
  - rewrite renumber_length, renumber_hops, length_rev, numbered_length.
    repeat split.
    + apply (Forall_field blacklist true _ _ (renumber_blacklist _)).
      apply Forall_rev, numbered_blacklist.
    + apply (Forall_field delay 0%Z _ _ (renumber_delay _)).
      apply Forall_rev, numbered_delay.
Qed.

(** [_calculate_delays] leaves every field of every hop but [delay]. *)
Lemma calculate_delays_relays msg r r' :
  calculate_delays msg r = Ok r' ->
  map Spec.forget_delay (relays r') = map Spec.forget_delay (relays r).
Proof.
  unfold calculate_delays. fold (Spec.timing_loop (relays r)).
  destruct (Message.get msg latency_header_name "") eqn:Hl.
  - destruct (Spec.timing_loop (relays r)) as [st |] eqn:Hs; simpl; [| discriminate].
    intros [= <-]. simpl. exact (timing_loop_forget _ _ Hs).
  - destruct (Latency.parse_latency_header _).
    + now intros [= <-].
    + simpl. fold (Spec.timing_loop (relays r)).
      destruct (Spec.timing_loop (relays r)) as [st |] eqn:Hs; simpl; [| discriminate].
      intros [= <-]. simpl. exact (timing_loop_forget _ _ Hs).
Qed.

Lemma analyze_relays msg r :
  analyze msg = Ok r ->
  exists rs, process_relays msg = Ok rs /\
             map Spec.forget_delay (relays r) = map Spec.forget_delay rs.
Proof.
  unfold Core.analyze.
  destruct (extract_domains parseaddr msg) as [fd rd].
  destruct (Core.process_relays _ _ msg) as [rs |]; simpl; [| discriminate].
  intros H. exists rs. split; [reflexivity |].
  now apply calculate_delays_relays in H.
Qed.

(** Without a usable latency header, on a chain whose neighbours can be
    subtracted, the loop stores the gaps and their sum. *)
Lemma calculate_delays_from_received msg r :
  match Message.get msg latency_header_name "" with
  | EmptyString => True
  | h => Latency.parse_latency_header h = None
  end ->
  Spec.all_comparable (relays r) = true ->
  exists r',
    calculate_delays msg r = Ok r' /\
    total_delay r' = inject_Z (Spec.sum (Spec.hop_delays (relays r))) /\
    delay_source r' = "Calculated from Received headers" /\
    (Forall (fun h => delay h = 0%Z) (relays r) ->
     map delay (relays r') = Spec.hop_delays (relays r)).
Proof.
  intros Hh Hc. unfold calculate_delays. fold (Spec.timing_loop (relays r)).
  destruct (timing_loop_ok _ Hc) as (l & Hl & Hd).
  destruct (Message.get msg latency_header_name "") eqn:Hg.
  - rewrite Hl. simpl. eexists. split; [reflexivity |]. simpl. auto.
  - rewrite Hh. simpl. fold (Spec.timing_loop (relays r)). rewrite Hl. simpl.
    eexists. split; [reflexivity |]. simpl. auto.
Qed.

(** With a latency header that parses, the loop is never reached. *)
Lemma calculate_delays_from_header msg r q :
  Message.get msg latency_header_name "" <> "" ->
  Latency.parse_latency_header (Message.get msg latency_header_name "") = Some q ->
  exists r',
    calculate_delays msg r = Ok r' /\ relays r' = relays r /\
    total_delay r' = q /\ delay_source r' = latency_header_name.
Proof.
  intros Hne Hq. unfold calculate_delays.
  destruct (Message.get msg latency_header_name "") eqn:Hg; [now elim Hne |].
  rewrite Hq. eexists. split; [reflexivity |]. simpl. auto.
Qed.

End Results.

(** C10: every hop that [_parse_received_header] builds has [blacklist]
    set to [True], whatever the header and the position, and every hop of
    an analysis result still has it: the reorder check, the renumbering,
    the timing loop and the choice of the sender IP leave it alone. *)
Theorem blacklist_flag_is_constant :
  forall (pdt : string -> option Datetime.datetime)
         (sft : Datetime.datetime -> string),
    (forall header idx,
        blacklist (parse_received_header pdt sft header idx) = true) /\
    (forall msg rs, Core.process_relays pdt sft msg = Ok rs ->
                    Forall (fun h => blacklist h = true) rs) /\
    (forall pa (ip_obj : Type) (ipa : string -> option ip_obj) ipp ipl msg r,
        Core.analyze pdt sft pa ip_obj ipa ipp ipl msg = Ok r ->
        Forall (fun h => blacklist h = true) (relays r)).
Proof.
  intros pdt sft. split; [| split].
  - intros header idx. apply parse_blacklist.
  - intros msg rs Hrs. now apply process_relays_result in Hrs.
  - intros pa ip_obj ipa ipp ipl msg r H.
    apply analyze_relays in H. destruct H as (rs & Hrs & Hm).
    apply process_relays_result in Hrs.
    apply (Forall_field blacklist true _ rs).
    + exact (map_forget_field blacklist _ _ blacklist_forget Hm).
    + apply Hrs.
Qed.

Lemma blacklist_flag_is_constant_witness :
  exists r, Sample.analyze Sample.newest_last = Ok r /\
            Forall (fun h => blacklist h = true) (relays r).
Proof.
  eexists. split; [vm_compute; reflexivity |].
  refine (proj2 (proj2 (blacklist_flag_is_constant
            Sample.parsedate Sample.strftime))
            Sample.parseaddr unit
            Sample.ip_address Sample.is_private Sample.is_loopback
            Sample.newest_last _ _).
  vm_compute. reflexivity.
Defined.

(** C2: the relay list of an analysis result has one hop for each of the N
    [Received] headers, and the hop numbers read in list order are
    1, 2, ..., N; the list [_process_relays] stores has the same shape,
    whether the reorder check fired or not. *)
Theorem hops_are_one_to_n :
  forall pdt sft pa (ip_obj : Type) (ipa : string -> option ip_obj) ipp ipl
         (msg : Message.message) (r : EmailParseResult),
    Core.analyze pdt sft pa ip_obj ipa ipp ipl msg = Ok r ->
    let n := length (Message.get_all msg "Received") in
    length (relays r) = n /\ map hop (relays r) = seq 1 n /\
    exists rs, Core.process_relays pdt sft msg = Ok rs /\
               length rs = n /\ map hop rs = seq 1 n.
Proof.
  intros pdt sft pa ip_obj ipa ipp ipl msg r H n.
  apply analyze_relays in H. destruct H as (rs & Hrs & Hm).
  pose proof (process_relays_result _ _ _ _ Hrs) as (Hlen & Hhop & _).
  fold n in Hlen, Hhop.
  assert (Hh : map hop (relays r) = map hop rs)
    by exact (map_forget_field hop _ _ hop_forget Hm).
  repeat split.
  - rewrite <- Hlen, <- (length_map hop (relays r)), Hh. apply length_map.
  - now rewrite Hh.
  - exists rs. auto.
Qed.

Lemma hops_are_one_to_n_witness :
  exists r, Sample.analyze Sample.newest_last = Ok r /\
            length (relays r) = 2%nat /\ map hop (relays r) = [1; 2]%nat /\
            Spec.reorder_decision (Spec.numbered Sample.parsedate Sample.strftime
                                       Sample.newest_last) = Spec.Reverse.
Proof.
  eexists. split; [vm_compute; reflexivity |].
  pose proof (hops_are_one_to_n
            Sample.parsedate Sample.strftime Sample.parseaddr unit
            Sample.ip_address Sample.is_private Sample.is_loopback
            Sample.newest_last _ eq_refl) as (H1 & H2 & _).
  split; [exact H1 | split; [exact H2 | vm_compute; reflexivity]].
Defined.

(** C1 at a chain the check cannot compare: hop 1 carries a timestamp with
    an offset and hop 2 a later one written with [-0000], which the date
    parser returns without a time zone.  Hop 2 is not earlier than hop 1,
    so the order should be kept; the comparison raises instead, and the
    whole analysis with it. *)
Theorem reorder_check_raises_on_naive_and_aware :
  map time_dt (Spec.numbered Sample.parsedate Sample.strftime Sample.naive_and_aware)
  = [Some (Datetime.mk 1704103200 true); Some (Datetime.mk 1704103210 false)] /\
  Spec.reorder_decision (Spec.numbered Sample.parsedate Sample.strftime
                             Sample.naive_and_aware) = Spec.Fail /\
  Sample.process_relays Sample.naive_and_aware = Raise TypeError /\
  Sample.analyze Sample.naive_and_aware = Raise TypeError.
Proof. repeat split; vm_compute; reflexivity. Qed.

(** The same two hops, both stamped with an offset, are kept in order. *)
Lemma reorder_check_keeps_later_hop :
  Sample.process_relays Sample.two_hops
  = Ok (Spec.numbered Sample.parsedate Sample.strftime Sample.two_hops) /\
  map time_dt (Spec.numbered Sample.parsedate Sample.strftime Sample.two_hops)
  = [Some (Datetime.mk 1704103200 true); Some (Datetime.mk 1704103210 true)].
Proof. split; vm_compute; reflexivity. Qed.

(** C3 at a message with a latency header that parses: the two hops are
    stamped ten seconds apart, so hop 2 should carry a delay of 10; the
    function returns before its loop and both delays stay 0.  Without the
    header the same hops get the delays 0 and 10. *)
Theorem latency_header_leaves_hop_delays_zero :
  exists r r',
    Sample.analyze Sample.two_hops_with_latency = Ok r /\
    map hop (relays r) = [1; 2]%nat /\
    map time_dt (relays r)
    = [Some (Datetime.mk 1704103200 true); Some (Datetime.mk 1704103210 true)] /\
    Spec.hop_delays (relays r) = [0; 10]%Z /\
    map delay (relays r) = [0; 0]%Z /\
    (total_delay r == 5)%Q /\
    delay_source r = "X-MS-Exchange-Transport-EndToEndLatency" /\
    Sample.analyze Sample.two_hops = Ok r' /\
    map delay (relays r') = [0; 10]%Z /\
    (total_delay r' == 10)%Q /\
    delay_source r' = "Calculated from Received headers".
Proof.
  do 2 eexists. split; [vm_compute; reflexivity |].
  do 6 (split; [vm_compute; reflexivity |]).
  split; [vm_compute; reflexivity |].
  repeat split; vm_compute; reflexivity.
Qed.

End Chain.

(** ** C6: the sender domains *)

Module DomainFacts.
Import Core.

Lemma contains_char_app c a b :
  Str.contains_char c (a ++ b) = Str.contains_char c a || Str.contains_char c b.
Proof.
  induction a as [| d a IH]; simpl; [reflexivity |].
  now rewrite IH, orb_assoc.
Qed.

Lemma split_on_no_sep sep s :
  Str.contains_char sep s = false -> Str.split_on sep s = [s].
Proof.
  induction s as [| c s IH]; simpl; [reflexivity |].
  intros H. apply orb_false_iff in H. destruct H as [Hc Hs].
  rewrite Ascii.eqb_sym, Hc. now rewrite (IH Hs).
Qed.

Lemma split_on_sep sep s :
  Str.contains_char sep s = true ->
  exists w w' ws, Str.split_on sep s = w :: w' :: ws.
Proof.
  induction s as [| c s IH]; simpl; [discriminate |].
  rewrite (Ascii.eqb_sym sep c).
  destruct (Ascii.eqb c sep); simpl.
  - intros _. destruct (Str.contains_char sep s) eqn:Hs.
    + destruct (IH eq_refl) as (w & w' & ws & ->). now eexists _, _, _.
    + rewrite (split_on_no_sep _ _ Hs). now eexists _, _, _.
  - intros Hs. destruct (IH Hs) as (w & w' & ws & ->). now eexists _, _, _.
Qed.

Lemma after_last_no_sep sep s :
  Str.contains_char sep s = false -> Spec.after_last sep s = s.
Proof.
  destruct s as [| c s]; simpl; [reflexivity |].
  intros H. apply orb_false_iff in H. destruct H as [Hc Hs].
  now rewrite Ascii.eqb_sym, Hc, Hs.
Qed.

(** [s.split(sep)[-1]] is the text after the last [sep]. *)
Lemma last_split_on sep s :
  List.last (Str.split_on sep s) EmptyString = Spec.after_last sep s.
Proof.
  induction s as [| c s IH]; [reflexivity |].
  cbn [Str.split_on Spec.after_last].
  destruct (Str.contains_char sep s) eqn:Hs.
  - destruct (split_on_sep _ _ Hs) as (w & w' & ws & Hw).
    rewrite Hw in *. destruct (Ascii.eqb c sep); rewrite <- IH; reflexivity.
  - rewrite (split_on_no_sep _ _ Hs) in *.
    rewrite (after_last_no_sep _ _ Hs) in *.
    destruct (Ascii.eqb c sep); reflexivity.
Qed.

Lemma after_last_app sep p d :
  Str.contains_char sep d = false ->
  Spec.after_last sep (p ++ String sep d) = d.
Proof.
  intros Hd. induction p as [| c p IH]; simpl.
  - rewrite Ascii.eqb_refl. now apply after_last_no_sep.
  - rewrite contains_char_app. simpl. rewrite Ascii.eqb_refl, orb_true_r.
    now destruct (Ascii.eqb c sep).
Qed.

Lemma after_last_clean sep s :
  Str.contains_char sep (Spec.after_last sep s) = false.
Proof.
  induction s as [| c s IH]; simpl; [reflexivity |].
  destruct (Ascii.eqb c sep) eqn:Hc; [exact IH |].
  destruct (Str.contains_char sep s) eqn:Hs; [exact IH |].
  simpl. now rewrite Ascii.eqb_sym, Hc, Hs.
Qed.

Lemma after_last_suffix sep s :
  Str.contains_char sep s = true ->
  exists p, s = p ++ String sep (Spec.after_last sep s).
Proof.
  induction s as [| c s IH]; simpl; [discriminate |].
  rewrite (Ascii.eqb_sym sep c).
  destruct (Ascii.eqb c sep) eqn:Hc; simpl.
  - apply Ascii.eqb_eq in Hc. subst c. intros _.
    destruct (Str.contains_char sep s) eqn:Hs.
    + destruct (IH eq_refl) as (p & Hp). exists (String sep p).
      exact (f_equal (String sep) Hp).
    + exists EmptyString. rewrite (after_last_no_sep _ _ Hs). reflexivity.
  - intros Hs. rewrite Hs. destruct (IH Hs) as (p & Hp).
    exists (String c p). exact (f_equal (String c) Hp).
Qed.

(** The body shared by the two halves of [_extract_domains]. *)
Lemma extract_domain_cases pa header :
  extract_domain pa header =
  match header with
  | EmptyString => EmptyString
  | _ => if Str.contains_char "@" (snd (pa header))
         then Spec.after_last "@" (snd (pa header)) else EmptyString
  end.
Proof.
  unfold extract_domain. destruct header; [reflexivity |].
  now rewrite last_split_on.
Qed.

Lemma get_absent msg name failobj :
  Forall (fun kv => Message.same_name name (fst kv) = false) msg ->
  Message.get msg name failobj = failobj.
Proof.
  induction 1 as [| [k v] msg Hk _ IH]; simpl; [reflexivity |].
  simpl in Hk. now rewrite Hk.
Qed.

(** C6, as the code has it: each domain is the text after the last [@] of
    the address that [parseaddr] returns for the header, exactly as it is
    written there (its case is kept); it is empty when the header is
    absent or empty or the address has no [@].  The extraction is a total
    function of the message, and the two fields of an analysis result are
    its two components. *)
Theorem domains_are_text_after_last_at :
  forall (pa : string -> string * string),
    (forall header,
        let addr := snd (pa header) in
        let domain := extract_domain pa header in
        Str.contains_char "@" domain = false /\
        (header = "" \/ Str.contains_char "@" addr = false -> domain = "") /\
        (header <> "" -> Str.contains_char "@" addr = true ->
         exists mailbox, addr = mailbox ++ "@" ++ domain)) /\
    (forall msg,
        extract_domains pa msg
        = (extract_domain pa (Message.get msg "From" ""),
           extract_domain pa (Message.get msg "Return-Path" "")) /\
        (Forall (fun kv => Message.same_name "From" (fst kv) = false) msg ->
         fst (extract_domains pa msg) = "") /\
        (Forall (fun kv => Message.same_name "Return-Path" (fst kv) = false) msg ->
         snd (extract_domains pa msg) = "")) /\
    (forall pdt sft (ip_obj : Type) (ipa : string -> option ip_obj) ipp ipl msg r,
        analyze pdt sft pa ip_obj ipa ipp ipl msg = Ok r ->
        (from_domain r, return_path_domain r) = extract_domains pa msg).
Proof.
  intros pa. split; [| split].
  - intros header addr domain. subst addr domain.
    rewrite extract_domain_cases. repeat split.
    + destruct header; [reflexivity |].
      destruct (Str.contains_char "@" (snd (pa _))); [| reflexivity].
      apply after_last_clean.
    + intros [-> | H]; [reflexivity |]. rewrite H. now destruct header.
    + intros Hne H. rewrite H. destruct header; [now elim Hne |].
      apply after_last_suffix in H. exact H.
  - intros msg. repeat split.
    + intros H. unfold extract_domains. simpl. now rewrite (get_absent _ _ _ H).
    + intros H. unfold extract_domains. simpl. now rewrite (get_absent _ _ _ H).
  - intros pdt sft ip_obj ipa ipp ipl msg r H.
    apply AnalyzeFacts.analyze_fields in H. exact (proj2 H).
Qed.

Lemma domains_are_text_after_last_at_witness :
  exists r,
    Sample.analyze [("From", "User@EXAMPLE.COM")] = Ok r /\
    (from_domain r, return_path_domain r)
    = extract_domains Sample.parseaddr [("From", "User@EXAMPLE.COM")] /\
    exists mailbox,
      "User@EXAMPLE.COM"
      = mailbox ++ "@" ++ extract_domain Sample.parseaddr "User@EXAMPLE.COM".
Proof.
  eexists. split; [vm_compute; reflexivity |]. split.
  - refine (proj2 (proj2 (domains_are_text_after_last_at Sample.parseaddr))
              Sample.parsedate Sample.strftime unit Sample.ip_address
              Sample.is_private Sample.is_loopback _ _ _).
    vm_compute. reflexivity.
  - refine (proj2 (proj2 (proj1 (domains_are_text_after_last_at Sample.parseaddr)
                            "User@EXAMPLE.COM")) _ _).
    + discriminate.
    + reflexivity.
Defined.

(** An upper-case domain comes out in upper case. *)
Lemma from_domain_keeps_upper_case :
  exists r,
    Sample.analyze [("From", "User@EXAMPLE.COM")] = Ok r /\
    from_domain r = "EXAMPLE.COM" /\
    Str.lower "EXAMPLE.COM" = "example.com" /\
    from_domain r <> Str.lower (from_domain r).
Proof.
  eexists. split; [vm_compute; reflexivity |].
  repeat split; try reflexivity. discriminate.
Qed.

End DomainFacts.

(** ** Repetition of one character class *)

Module RegexFacts.
Import Re.

Lemma option_map_orelse {A B} (f : A -> B) (a : option A) b :
  option_map f (orelse a b) = orelse (option_map f a) (fun u => option_map f (b u)).
Proof. now destruct a. Qed.

(** With fuel for every character, the loop of the matcher is the plain
    recursion on the text. *)
Lemma star_loop_chr {A} p (k : string -> captures -> option A) s :
  forall fuel caps,
    (String.length s <= fuel)%nat ->
    star_loop (fun s0 c0 k0 => exec (Chr p) s0 c0 k0) true k fuel s caps
    = Spec.greedy_star p k s caps.
Proof.
  induction s as [| c s IH]; intros fuel caps Hf.
  - destruct fuel; reflexivity.
  - destruct fuel as [| fuel]; [simpl in Hf; lia |].
    cbn [star_loop exec Spec.greedy_star].
    destruct (p c); [| reflexivity].
    assert (Hlt : (String.length s <? String.length (String c s))%nat = true)
      by (apply Nat.ltb_lt; simpl; lia).
    rewrite Hlt, IH by (simpl in Hf; lia). reflexivity.
Qed.

(** When what follows cannot start with a character of the class, only
    the longest run is of any use. *)
Lemma greedy_star_commit {A} p (k : string -> captures -> option A) :
  (forall c s caps, p c = true -> k (String c s) caps = None) ->
  forall s caps, Spec.greedy_star p k s caps = k (Str.lstrip_by p s) caps.
Proof.
  intros Hk. induction s as [| c s IH]; intros caps; simpl; [reflexivity |].
  destruct (p c) eqn:Hc; [| reflexivity].
  rewrite IH. destruct (k (Str.lstrip_by p s) caps); simpl; [reflexivity |].
  now apply Hk.
Qed.

Lemma length_lstrip_by p s :
  (String.length (Str.lstrip_by p s) <= String.length s)%nat.
Proof.
  induction s as [| c s IH]; simpl; [lia |].
  destruct (p c); simpl; lia.
Qed.

Lemma take_length_lstrip p s :
  Str.take (String.length s - String.length (Str.lstrip_by p s)) s
  = Spec.take_while p s.
Proof.
  induction s as [| c s IH]; simpl; [reflexivity |].
  destruct (p c) eqn:Hc.
  - pose proof (length_lstrip_by p s) as Hl.
    replace (S (String.length s) - String.length (Str.lstrip_by p s))%nat
      with (S (String.length s - String.length (Str.lstrip_by p s))) by lia.
    simpl. now rewrite IH.
  - simpl. now rewrite Nat.sub_diag.
Qed.

End RegexFacts.

(** ** C5: the timestamp text of a Received header *)

Module TimeFacts.
Import Re Core RegexFacts.

(** Replace the loop of a greedy repetition of the class [p] by the plain
    recursion. *)
Ltac star_to_greedy p :=
  match goal with
  | |- context [star_loop ?st true ?k ?f ?s ?c] =>
      replace (star_loop st true k f s c) with (Spec.greedy_star p k s c)
        by (symmetry; apply (star_loop_chr p); simpl; lia)
  end.

Lemma one_line_exec s caps k :
  Spec.keeps_group1 k ->
  option_map (group_text 1) (exec (Seq (Group 1 (plus true dot)) Eos) s caps k)
  = Spec.one_line s.
Proof.
  intros Hk. unfold plus, dot. cbn [exec].
  destruct s as [| d s']; [reflexivity |].
  unfold Spec.one_line. cbn [Spec.take_while Str.lstrip_by].
  destruct (Str.is_dot d) eqn:Hd; [| reflexivity].
  star_to_greedy Str.is_dot.
  rewrite greedy_star_commit.
  - pose proof (take_length_lstrip Str.is_dot (String d s')) as Ht.
    cbn [Str.lstrip_by Spec.take_while] in Ht. rewrite Hd in Ht.
    destruct (Str.lstrip_by Str.is_dot s') as [| n [| n' r]].
    + rewrite Hk. unfold group_text. cbn [group Nat.eqb]. now rewrite Ht.
    + destruct (Str.is_newline n); [| reflexivity].
      rewrite Hk. unfold group_text. cbn [group Nat.eqb]. now rewrite Ht.
    + reflexivity.
  - intros c s caps0 Hc. destruct s as [| c' s].
    + unfold Str.is_dot in Hc. destruct (Str.is_newline c); [discriminate | reflexivity].
    + reflexivity.
Qed.

Lemma after_spaces_exec s caps k :
  Spec.keeps_group1 k ->
  option_map (group_text 1)
    (exec (Seq (Star true space) (Seq (Group 1 (plus true dot)) Eos)) s caps k)
  = Spec.after_spaces s.
Proof.
  intros Hk.
  change (exec (Seq (Star true space) (Seq (Group 1 (plus true dot)) Eos)) s caps k)
    with (star_loop (fun s0 c0 k0 => exec (Chr Str.is_space) s0 c0 k0) true
            (fun s1 c1 => exec (Seq (Group 1 (plus true dot)) Eos) s1 c1 k)
            (String.length s) s caps).
  rewrite star_loop_chr by lia.
  induction s as [| c s IH]; cbn [Spec.greedy_star Spec.after_spaces].
  - now rewrite one_line_exec.
  - destruct (Str.is_space c).
    + rewrite option_map_orelse, IH, one_line_exec by exact Hk.
      now destruct (Spec.after_spaces s).
    + now rewrite one_line_exec.
Qed.

Lemma match_at_exec r s :
  match_at r s
  = exec r s [] (fun s1 c1 =>
      Some ((0%nat, Str.take (String.length s - String.length s1) s) :: c1)).
Proof. reflexivity. Qed.

Lemma exec_lit1 {A} c r s caps (k : string -> captures -> option A) :
  exec (Seq (lit (String c EmptyString)) r) s caps k =
  match s with
  | EmptyString => None
  | String d s' => if Ascii.eqb d c then exec r s' caps k else None
  end.
Proof.
  destruct s as [| d s']; [reflexivity |].
  cbn [exec lit lit_char]. unfold Str.eqb_char. now rewrite Ascii.eqb_sym.
Qed.

Lemma time_match_at s :
  option_map (group_text 1) (match_at time_pattern s) =
  match s with
  | EmptyString => None
  | String c s' => if Ascii.eqb c ";" then Spec.after_spaces s' else None
  end.
Proof.
  rewrite match_at_exec. unfold time_pattern. rewrite exec_lit1.
  destruct s as [| c s']; [reflexivity |].
  destruct (Ascii.eqb c ";"); [| reflexivity].
  apply after_spaces_exec. intros s1 c1. reflexivity.
Qed.

(** The pattern of the source and the reading of it agree on every text. *)
Lemma time_pattern_search s :
  option_map (group_text 1) (search time_pattern s) = Spec.time_match s.
Proof.
  induction s as [| c s IH].
  - reflexivity.
  - cbn [search Spec.time_match].
    pose proof (time_match_at (String c s)) as Hm. cbn beta iota in Hm.
    destruct (match_at time_pattern (String c s)) as [caps |].
    + simpl in Hm. destruct (Ascii.eqb c ";"); [| discriminate].
      rewrite <- Hm. reflexivity.
    + simpl in Hm. destruct (Ascii.eqb c ";"); [| exact IH].
      rewrite <- Hm. exact IH.
Qed.

Lemma single_line_is_dots s :
  Str.any_char Str.is_newline s = false ->
  Spec.take_while Str.is_dot s = s /\ Str.lstrip_by Str.is_dot s = EmptyString.
Proof.
  induction s as [| c s IH];
    cbn [Str.any_char Spec.take_while Str.lstrip_by]; [auto |].
  intros H. apply orb_false_iff in H. destruct H as [Hc Hs].
  unfold Str.is_dot at 1 3. rewrite Hc. cbn [negb].
  destruct (IH Hs) as [-> ->]. auto.
Qed.

Lemma one_line_single s :
  Str.any_char Str.is_newline s = false -> s <> EmptyString ->
  Spec.one_line s = Some s.
Proof.
  intros H Hne. unfold Spec.one_line.
  destruct (single_line_is_dots s H) as [-> ->].
  destruct s; [now elim Hne | reflexivity].
Qed.

(** On one line, what follows the semicolon is kept up to white space. *)
Lemma after_spaces_single s :
  Str.any_char Str.is_newline s = false -> s <> EmptyString ->
  exists line, Spec.after_spaces s = Some line /\ Str.strip line = Str.strip s.
Proof.
  induction s as [| c s IH]; intros H Hne; [now elim Hne |].
  cbn [Spec.after_spaces]. rewrite (one_line_single _ H Hne).
  destruct (Str.is_space c) eqn:Hc; [| eauto].
  destruct s as [| c' s]; [simpl; eauto |].
  destruct IH as (line & -> & Hl).
  - simpl in H. now apply orb_false_iff in H.
  - discriminate.
  - exists line. split; [reflexivity |]. rewrite Hl.
    unfold Str.strip. cbn [Str.lstrip_by]. now rewrite Hc.
Qed.

Lemma time_match_single s :
  Str.any_char Str.is_newline s = false ->
  option_map Str.strip (Spec.time_match s) =
  match Spec.after_first ";" s with
  | Some (String c t) => Some (Str.strip (String c t))
  | _ => None
  end.
Proof.
  induction s as [| c s IH]; intros H; [reflexivity |].
  simpl in H. apply orb_false_iff in H. destruct H as [_ Hs].
  cbn [Spec.time_match Spec.after_first].
  destruct (Ascii.eqb c ";"); [| exact (IH Hs)].
  destruct s as [| c' s]; [reflexivity |].
  destruct (after_spaces_single (String c' s) Hs) as (line & -> & Hl);
    [discriminate |].
  simpl. now rewrite Hl.
Qed.

(** X20: what [_parse_received_header] takes as the timestamp text of a
    hop is group 1 of the leftmost match of [;\s*(.+)$], stripped: the
    line that follows the leftmost semicolon after which one line ends the
    text.  In a header without line breaks that is the text after the
    first semicolon, stripped, and there is none when the header has no
    semicolon or ends with its first one.  When the text parses as a date
    the hop gets the parsed timestamp and its formatted form; when it
    does not, [time] keeps the stripped text and [time_dt] stays empty;
    without a match both stay empty. *)
Theorem timestamp_follows_first_semicolon :
  forall (pdt : string -> option Datetime.datetime)
         (sft : Datetime.datetime -> string) (header : string) (idx : nat),
    let r := parse_received_header pdt sft header idx in
    match Spec.time_match header with
    | None => time r = "" /\ time_dt r = None
    | Some line =>
        match pdt (Str.strip line) with
        | Some d => time r = sft d /\ time_dt r = Some d
        | None => time r = Str.strip line /\ time_dt r = None
        end
    end /\
    (Str.any_char Str.is_newline header = false ->
     option_map Str.strip (Spec.time_match header) =
     match Spec.after_first ";" header with
     | Some (String c t) => Some (Str.strip (String c t))
     | _ => None
     end).
Proof.
  intros pdt sft header idx r. split; [| apply time_match_single].
  subst r. unfold parse_received_header.
  rewrite <- time_pattern_search.
  destruct (search time_pattern header) as [caps |]; simpl; [| auto].
  destruct (pdt (Str.strip (group_text 1 caps))); simpl; auto.
Qed.

Lemma timestamp_follows_first_semicolon_witness :
  option_map Str.strip
    (Spec.time_match "from a (x; y) by b; Mon, 01 Jan 2024 10:00:00 +0000")
  = Some "y) by b; Mon, 01 Jan 2024 10:00:00 +0000".
Proof.
  exact (proj2 (timestamp_follows_first_semicolon
                  Sample.parsedate Sample.strftime
                  "from a (x; y) by b; Mon, 01 Jan 2024 10:00:00 +0000" 1)
               eq_refl).
Defined.

(** C5 at a header with a semicolon inside a comment, "from a (x; y) by
    b; Mon, 01 Jan 2024 10:00:00 +0000": the text after the last semicolon
    is " Mon, 01 Jan 2024 10:00:00 +0000", which parses as a date, so by
    the claim the hop has that timestamp.  [_parse_received_header] gives
    the hop the text after the first semicolon, "y) by b; Mon, 01 Jan 2024
    10:00:00 +0000", as its [time], and no parsed timestamp. *)
Theorem timestamp_text_is_not_after_last_semicolon :
  let header := "from a (x; y) by b; Mon, 01 Jan 2024 10:00:00 +0000" in
  let r := parse_received_header Sample.parsedate Sample.strftime header 1 in
  Spec.after_last ";" header = " Mon, 01 Jan 2024 10:00:00 +0000" /\
  Sample.parsedate (Str.strip (Spec.after_last ";" header))
  = Some (Datetime.mk 1704103200 true) /\
  time r = "y) by b; Mon, 01 Jan 2024 10:00:00 +0000" /\
  time_dt r = None.
Proof. repeat split; vm_compute; reflexivity. Qed.

End TimeFacts.

(** ** C4: the latency header *)

Module LatencyFacts.
Import Re Latency RegexFacts TimeFacts.

Lemma digit_not_colon c : Str.is_digit c = true -> Ascii.eqb c ":" = false.
Proof.
  destruct c as [[] [] [] [] [] [] [] []]; vm_compute; congruence.
Qed.

Lemma digit_not_point c : Str.is_digit c = true -> Ascii.eqb c "." = false.
Proof.
  destruct c as [[] [] [] [] [] [] [] []]; vm_compute; congruence.
Qed.

Lemma exec_lit1_none {A} c s caps (k : string -> captures -> option A) :
  Str.contains_char c s = false ->
  exec (lit (String c EmptyString)) s caps k = None.
Proof.
  destruct s as [| d s]; [reflexivity |].
  cbn [Str.contains_char exec lit lit_char]. unfold Str.eqb_char.
  intros H. apply orb_false_iff in H. now rewrite (proj1 H).
Qed.

Lemma contains_char_tail c d s :
  Str.contains_char c (String d s) = false -> Str.contains_char c s = false.
Proof. simpl. intros H. now apply orb_false_iff in H. Qed.

(** Without a colon nothing has the form HH:MM:SS. *)
Lemma hms_match_at s :
  Str.contains_char ":" s = false -> match_at hms_pattern s = None.
Proof.
  intros H. rewrite match_at_exec.
  unfold hms_pattern, rep_range, rep, upto, opt, digit.
  cbn [exec Nat.sub].
  destruct s as [| c1 s1]; [reflexivity |].
  apply contains_char_tail in H.
  destruct (Str.is_digit c1); [| reflexivity].
  assert (Hs1 : forall caps (k : string -> captures -> option captures),
             exec (lit ":") s1 caps k = None)
    by (intros; now apply exec_lit1_none).
  destruct s1 as [| c2 s2]; [reflexivity |].
  apply contains_char_tail in H.
  destruct (Str.is_digit c2).
  - rewrite (exec_lit1_none ":" s2) by exact H. cbn [orelse]. apply Hs1.
  - cbn [orelse]. apply Hs1.
Qed.

Lemma search_none r s (P : string -> Prop) :
  (forall c s, P (String c s) -> P s) ->
  (forall s, P s -> match_at r s = None) ->
  P s -> search r s = None.
Proof.
  intros Htail Hm. induction s as [| c s IH]; intros H; cbn [search].
  - now rewrite (Hm _ H).
  - rewrite (Hm _ H). apply IH. exact (Htail _ _ H).
Qed.

Lemma hms_search s :
  Str.contains_char ":" s = false -> search hms_pattern s = None.
Proof.
  apply (search_none hms_pattern s (fun s => Str.contains_char ":" s = false)).
  - intros c s0. apply contains_char_tail.
  - apply hms_match_at.
Qed.

(** A greedy run fails when what follows fails wherever the run stops. *)
Lemma greedy_star_none {A} p (k : string -> captures -> option A) s caps :
  (forall n, k (Str.drop n s) caps = None) ->
  Spec.greedy_star p k s caps = None.
Proof.
  induction s as [| c s IH]; intros Hk; cbn [Spec.greedy_star].
  - exact (Hk 0%nat).
  - rewrite IH by (intros n; exact (Hk (S n))).
    pose proof (Hk 0%nat) as H0. cbn [Str.drop] in H0.
    destruct (p c); cbn [orelse]; exact H0.
Qed.

Lemma contains_char_drop c n s :
  Str.contains_char c s = false -> Str.contains_char c (Str.drop n s) = false.
Proof.
  revert s. induction n as [| n IH]; intros s H; [now destruct s |].
  destruct s as [| d s]; [exact H |]. cbn [Str.drop].
  apply IH. exact (contains_char_tail _ _ _ H).
Qed.

(** Without a point nothing has the form seconds.fraction. *)
Lemma decimal_match_at s :
  Str.contains_char "." s = false -> match_at decimal_pattern s = None.
Proof.
  intros H. rewrite match_at_exec. unfold decimal_pattern, plus, digit.
  cbn [exec].
  destruct s as [| c s']; [reflexivity |].
  destruct (Str.is_digit c); [| reflexivity].
  star_to_greedy Str.is_digit.
  apply greedy_star_none. intros n.
  apply exec_lit1_none, contains_char_drop.
  exact (contains_char_tail _ _ _ H).
Qed.

Lemma decimal_search s :
  Str.contains_char "." s = false -> search decimal_pattern s = None.
Proof.
  apply (search_none decimal_pattern s (fun s => Str.contains_char "." s = false)).
  - intros c s0. apply contains_char_tail.
  - apply decimal_match_at.
Qed.

(** When what follows never fails, the longest run is taken. *)
Lemma greedy_star_total {A} p (k : string -> captures -> option A) s caps :
  (forall s0 c0, k s0 c0 <> None) ->
  Spec.greedy_star p k s caps = k (Str.lstrip_by p s) caps.
Proof.
  intros Hk. induction s as [| c s IH]; cbn [Spec.greedy_star Str.lstrip_by];
    [reflexivity |].
  destruct (p c); [| reflexivity]. rewrite IH.
  destruct (k (Str.lstrip_by p s) caps) eqn:E; [reflexivity |].
  now elim (Hk _ _ E).
Qed.

(** At a digit the integer pattern takes the whole run of digits. *)
Lemma integer_match_at s :
  option_map (grp 1) (match_at integer_pattern s) =
  match s with
  | EmptyString => None
  | String c _ =>
      if Str.is_digit c then Some (Spec.take_while Str.is_digit s) else None
  end.
Proof.
  rewrite match_at_exec. unfold integer_pattern, plus, digit. cbn [exec].
  destruct s as [| c s']; [reflexivity |].
  destruct (Str.is_digit c) eqn:Hc; [| reflexivity].
  star_to_greedy Str.is_digit.
  rewrite greedy_star_total by discriminate.
  cbn [option_map]. unfold grp. cbn [group Nat.eqb]. f_equal.
  pose proof (take_length_lstrip Str.is_digit (String c s')) as Ht.
  cbn [Str.lstrip_by] in Ht. rewrite Hc in Ht. exact Ht.
Qed.

Lemma integer_search s :
  option_map (grp 1) (search integer_pattern s) =
  if Str.any_char Str.is_digit s then Some (Spec.first_digits s) else None.
Proof.
  induction s as [| c s IH]; [reflexivity |].
  cbn [search Str.any_char].
  pose proof (integer_match_at (String c s)) as Hm. cbn beta iota in Hm.
  unfold Spec.first_digits. cbn [Str.lstrip_by].
  destruct (match_at integer_pattern (String c s)) as [caps |].
  - destruct (Str.is_digit c); [| discriminate]. exact Hm.
  - destruct (Str.is_digit c); [discriminate |]. exact IH.
Qed.

Lemma any_digit_tail c s :
  Str.any_char Str.is_digit (String c s) = false ->
  Str.is_digit c = false /\ Str.any_char Str.is_digit s = false.
Proof. cbn [Str.any_char]. intros H. now apply orb_false_iff in H. Qed.

(** Each of the three patterns starts with a digit. *)
Lemma no_digit_no_match s :
  Str.any_char Str.is_digit s = false ->
  search hms_pattern s = None /\ search decimal_pattern s = None /\
  search integer_pattern s = None.
Proof.
  intros H. repeat split;
    apply (search_none _ s (fun s => Str.any_char Str.is_digit s = false));
    try exact H; try (intros c s0 H0; exact (proj2 (any_digit_tail _ _ H0)));
    intros [| c s0] H0; try reflexivity;
    apply any_digit_tail in H0; destruct H0 as [Hc _];
    rewrite match_at_exec;
    unfold hms_pattern, decimal_pattern, integer_pattern, rep_range, rep, plus,
      digit;
    cbn [exec]; now rewrite Hc.
Qed.

(** [Float64.round] on numbers whose nearest float is known: a tenth; a
    tie above [2 ^ 53], which goes to the even neighbour; a number with an
    exact float; half of the smallest subnormal, a tie that goes to zero,
    and three halves of it. *)
Lemma round_examples :
  Float64.round (1 # 10) = 3602879701896397 # 36028797018963968 /\
  Float64.round (inject_Z (2 ^ 53 + 1)) = inject_Z (2 ^ 53) /\
  Float64.round (inject_Z (2 ^ 53 + 3)) = inject_Z (2 ^ 53 + 4) /\
  Float64.round (7447 # 2) = 7447 # 2 /\
  (Float64.round (/ inject_Z (2 ^ 1075)) = 0)%Q /\
  (Float64.round (3 * / inject_Z (2 ^ 1075)) = Qred (/ inject_Z (2 ^ 1073)))%Q.
Proof.
  split; [| split; [| split; [| split; [| split]]]]; vm_compute; reflexivity.
Qed.

(** A run of digits denotes a natural number. *)
Lemma int_acc_nonneg s acc :
  (0 <= acc)%Z -> (0 <= Str.int_acc (Spec.take_while Str.is_digit s) acc)%Z.
Proof.
  revert acc. induction s as [| c s IH]; intros acc H; cbn [Spec.take_while];
    [exact H |].
  destruct (Str.is_digit c) eqn:Hc; [| exact H].
  cbn [Str.int_acc]. apply IH.
  unfold Str.is_digit, Str.between in Hc. apply andb_true_iff in Hc.
  destruct Hc as [Hlo _]. apply Nat.leb_le in Hlo.
  unfold Str.digit_val. lia.
Qed.

Lemma int_nonneg s : (0 <= Str.int (Spec.first_digits s))%Z.
Proof. unfold Str.int, Spec.first_digits. now apply int_acc_nonneg. Qed.

(** A natural number is out of the range of the floats from
    [2 ^ 1024 - 2 ^ 970] on. *)
Lemma overflows_int n :
  (0 <= n)%Z ->
  Float64.overflows (inject_Z n) = negb (n <? 2 ^ 1024 - 2 ^ 970)%Z.
Proof.
  intros H. unfold Float64.overflows, Qle_bool, Qabs, inject_Z.
  cbn [Qnum Qden]. rewrite (Z.abs_eq n H), !Z.mul_1_r.
  now rewrite Z.ltb_antisym, negb_involutive.
Qed.

(** [float(n)] is [n] itself for the integers up to 3600. *)
Lemma of_int_small n :
  (0 <= n <= 3600)%Z -> Float64.of_int n = Some (inject_Z n).
Proof.
  intros H.
  assert (Hall : List.forallb
            (fun k => match Float64.of_int (Z.of_nat k) with
                      | Some q => (Qnum q =? Z.of_nat k)%Z && (Qden q =? 1)%positive
                      | None => false
                      end) (List.seq 0 3601) = true)
    by (vm_compute; reflexivity).
  rewrite List.forallb_forall in Hall.
  specialize (Hall (Z.to_nat n)). rewrite Z2Nat.id in Hall by lia.
  assert (Hin : List.In (Z.to_nat n) (List.seq 0 3601))
    by (apply List.in_seq; lia).
  specialize (Hall Hin).
  destruct (Float64.of_int n) as [[qn qd] |]; [| discriminate].
  cbn [Qnum Qden] in Hall. apply andb_true_iff in Hall.
  destruct Hall as [Hn Hd].
  apply Z.eqb_eq in Hn. apply Pos.eqb_eq in Hd. now subst.
Qed.

(** A header without colon and point is read as its first run of
    digits. *)
Lemma integer_form s :
  Str.contains_char ":" s = false -> Str.contains_char "." s = false ->
  Str.any_char Str.is_digit s = true ->
  let digits := Spec.first_digits s in
  let n := Str.int digits in
  parse_latency_header s =
  if (Str.max_str_digits <? String.length digits)%nat then None
  else if (n <=? 3600)%Z then Some (inject_Z n)
  else if (n <? 2 ^ 1024 - 2 ^ 970)%Z
  then Some (Float64.round (Float64.round (inject_Z n) / 1000))
  else None.
Proof.
  intros Hc Hp Hd digits n. unfold parse_latency_header.
  rewrite (hms_search s Hc), (decimal_search s Hp).
  pose proof (integer_search s) as Hi. rewrite Hd in Hi.
  destruct s; [discriminate |].
  destruct (search integer_pattern _) as [caps |]; [| discriminate].
  injection Hi as Hi. unfold of_integer, Str.to_int. rewrite Hi.
  fold digits.
  destruct (Str.max_str_digits <? String.length digits)%nat; [reflexivity |].
  cbn [mbind option_bind]. fold n.
  assert (H0 : (0 <= n)%Z) by apply int_nonneg.
  destruct (Z.leb_spec n 3600) as [Hle | Hgt].
  - rewrite (proj2 (Z.ltb_ge _ _) Hle). apply of_int_small. lia.
  - rewrite (proj2 (Z.ltb_lt _ _) Hgt). unfold Float64.of_int.
    rewrite overflows_int by exact H0.
    destruct (n <? 2 ^ 1024 - 2 ^ 970)%Z; reflexivity.
Qed.

(** C4: the three worked examples; no value for a header without a digit,
    the only text that matches none of the patterns; the HH:MM:SS form is
    used wherever it occurs in the header, before the decimal form, and
    the decimal form before the bare integer; and a header without colon
    and point is read as its first run of digits: as that many seconds up
    to 3600, and above as milliseconds, the float of the integer divided
    by the float 1000 (3601 gives the float nearest to 3.601).  An
    integer that [int] or the conversion to a float refuses gives no
    value: a run of more than 4300 digits in any of the three forms, an
    integer from [2 ^ 1024 - 2 ^ 970] on. *)
Theorem latency_header_parser :
  parses_to "01:02:03.500" 3723.5 /\
  parses_to "45000" 45 /\
  parses_to "12.250" 12.25 /\
  parses_to "0.5 00:00:07" 7 /\
  parses_to "7 0.5" 0.5 /\
  (forall s, Str.any_char Str.is_digit s = false ->
             parse_latency_header s = None) /\
  (forall s c, s <> "" -> search hms_pattern s = Some c ->
               parse_latency_header s = of_hms c) /\
  (forall s c, search hms_pattern s = None ->
               search decimal_pattern s = Some c ->
               parse_latency_header s = of_decimal c) /\
  (forall s,
      Str.contains_char ":" s = false -> Str.contains_char "." s = false ->
      Str.any_char Str.is_digit s = true ->
      let digits := Spec.first_digits s in
      let n := Str.int digits in
      parse_latency_header s =
      if (Str.max_str_digits <? String.length digits)%nat then None
      else if (n <=? 3600)%Z then Some (inject_Z n)
      else if (n <? 2 ^ 1024 - 2 ^ 970)%Z
      then Some (Float64.round (Float64.round (inject_Z n) / 1000))
      else None) /\
  parse_latency_header "3601"
  = Some (4054365564540289 # 1125899906842624) /\
  parse_latency_header (Str.times "0" 4301) = None /\
  parse_latency_header ("00:00:01." ++ Str.times "0" 4301) = None /\
  parse_latency_header ("1." ++ Str.times "0" 4301) = None /\
  parse_latency_header (Str.times "9" 309) = None.
Proof.
  do 5 (split; [vm_compute; reflexivity |]).
  split; [| split; [| split; [| split; [| split; [| split]]]]].
  - intros s H. destruct (no_digit_no_match s H) as (H1 & H2 & H3).
    unfold parse_latency_header. rewrite H1, H2, H3. now destruct s.
  - intros s c Hne H. unfold parse_latency_header. rewrite H.
    destruct s; [now elim Hne | reflexivity].
  - intros s c H1 H2. unfold parse_latency_header. rewrite H1, H2.
    destruct s; [discriminate | reflexivity].
  - exact integer_form.
  - vm_compute; reflexivity.
  - rewrite integer_form by (vm_compute; reflexivity).
    vm_compute; reflexivity.
  - split; [| split]; vm_compute; reflexivity.
Qed.

Lemma latency_header_parser_witness :
  parse_latency_header "took 45000 ms" = Some 45%Q /\
  parse_latency_header "n/a" = None.
Proof.
  split.
  - exact (proj1 (proj2 (proj2 (proj2 (proj2 (proj2 (proj2 (proj2 (proj2
             latency_header_parser))))))))
             "took 45000 ms" eq_refl eq_refl eq_refl).
  - exact (proj1 (proj2 (proj2 (proj2 (proj2 (proj2
             latency_header_parser))))) "n/a" eq_refl).
Defined.

End LatencyFacts.

(** ** C9: the geolocation cache *)

Module CacheFacts.
Import IPLookup.

Lemma Qltb_lt a b : Qltb a b = true <-> (a < b)%Q.
Proof.
  unfold Qltb. rewrite negb_true_iff. split.
  - intros H. apply Qnot_le_lt. intros Hle.
    apply Qle_bool_iff in Hle. congruence.
  - intros H. destruct (Qle_bool b a) eqn:E; [| reflexivity].
    apply Qle_bool_iff in E. now apply Qle_not_lt in E.
Qed.

Lemma Qltb_ge a b : (b <= a)%Q -> Qltb a b = false.
Proof.
  intros H. unfold Qltb. apply Qle_bool_iff in H. now rewrite H.
Qed.

(** No key of the memo belongs to an object made after its entries. *)
Lemma lru_find_above n ip (m : lru) :
  Forall (fun kv => (fst (fst kv) < n)%nat) m -> lru_find (n, ip) m = None.
Proof.
  induction 1 as [| [[i a] v] m Hlt _ IH]; [reflexivity |].
  cbn [lru_find]. unfold key_eqb. cbn [fst snd] in *.
  destruct (Nat.eqb_spec n i) as [-> | _]; [lia |]. exact IH.
Qed.

Lemma new_instance_misses (w : store) api_key ip :
  lru_find (ident (new_instance w api_key), ip) (memo w) = None.
Proof.
  apply lru_find_above. unfold new_instance, new_ident. cbn [ident].
  apply List.Forall_forall. intros kv Hin.
  assert (Hle : (List.list_max (map (fun kv => fst (fst kv)) (memo w))
                 <= List.list_max (map (fun kv => fst (fst kv)) (memo w)))%nat)
    by lia.
  apply List.list_max_le in Hle.
  rewrite List.Forall_forall in Hle.
  specialize (Hle (fst (fst kv)) (List.in_map _ _ _ Hin)). lia.
Qed.

Section Lookups.

Variable is_valid_ip : string -> bool.
Variable is_private_ip : string -> bool.

Abbreviation get_ip_info := (get_ip_info is_valid_ip is_private_ip).

(** A call that the memo does not answer, for a public address with an
    entry of seven days or more: the entry is a miss and the request is
    made. *)
Lemma stale_entry_is_a_miss w self e ip data t :
  lru_find (ident self, ip) (memo w) = None ->
  is_valid_ip ip = true -> is_private_ip ip = false ->
  disk w !! cache_file_name ip = Some (JsonObject data) ->
  default (VNum 0) (data !! "_cached_at") = VNum t ->
  (7 * 24 * 3600 <= now e - t)%Q ->
  get_cached_ip_info (disk w) (now e) ip = None /\
  get_ip_info w self e ip
  = (mk_store (List.firstn maxsize
                 (((ident self, ip), snd (fresh_lookup self (disk w) e ip))
                  :: memo w))
              (fst (fresh_lookup self (disk w) e ip)),
     snd (fresh_lookup self (disk w) e ip)).
Proof.
  intros Hm Hv Hp Hd Ht Hage.
  assert (Hc : get_cached_ip_info (disk w) (now e) ip = None).
  { unfold get_cached_ip_info. rewrite Hd, Ht.
    now rewrite (Qltb_ge (now e - t) expiry_seconds Hage). }
  split; [exact Hc |].
  unfold IPLookup.get_ip_info, get_ip_info_body.
  rewrite Hm, Hv, Hp, Hc. cbn [negb orb].
  now destruct (fresh_lookup self (disk w) e ip).
Qed.

End Lookups.

(** C9, as the code has it.  An entry read from the cache directory is
    served only while its age is below [7 * 24 * 3600] seconds.  A lookup
    that the [lru_cache] in front of [get_ip_info] does not answer, for a
    public address whose entry is seven days old or older, treats the
    entry as a miss, makes the request, and returns and memoizes what the
    request gave.  The lookup of the application is of that kind whatever
    the configuration holds, since it asks a new service object each
    time; its result is what the request gave.  A lookup that the
    [lru_cache] answers returns the memoized result and leaves the cache
    directory as it is, whatever the clock says. *)
Theorem stale_entries_are_looked_up_afresh :
  forall (is_valid_ip is_private_ip : string -> bool)
         (w : store) (e : env) (ip : string),
    (forall data,
        get_cached_ip_info (disk w) (now e) ip = Some data ->
        exists t, default (VNum 0) (data !! "_cached_at") = VNum t /\
                  (now e - t < 7 * 24 * 3600)%Q) /\
    (forall self data t,
        lru_find (ident self, ip) (memo w) = None ->
        is_valid_ip ip = true -> is_private_ip ip = false ->
        disk w !! cache_file_name ip = Some (JsonObject data) ->
        default (VNum 0) (data !! "_cached_at") = VNum t ->
        (7 * 24 * 3600 <= now e - t)%Q ->
        get_cached_ip_info (disk w) (now e) ip = None /\
        IPLookup.get_ip_info is_valid_ip is_private_ip w self e ip
        = (mk_store (List.firstn maxsize
                       (((ident self, ip),
                         snd (fresh_lookup self (disk w) e ip)) :: memo w))
                    (fst (fresh_lookup self (disk w) e ip)),
           snd (fresh_lookup self (disk w) e ip))) /\
    (forall cfg data t,
        ip <> "" ->
        is_valid_ip ip = true -> is_private_ip ip = false ->
        disk w !! cache_file_name ip = Some (JsonObject data) ->
        default (VNum 0) (data !! "_cached_at") = VNum t ->
        (7 * 24 * 3600 <= now e - t)%Q ->
        let self := new_instance w (ipinfo_api_key cfg) in
        snd (on_analysis_complete is_valid_ip is_private_ip cfg w e (Some ip))
        = Some (snd (fresh_lookup self (disk w) e ip))) /\
    (forall self v,
        lru_find (ident self, ip) (memo w) = Some v ->
        snd (IPLookup.get_ip_info is_valid_ip is_private_ip w self e ip) = v /\
        disk (fst (IPLookup.get_ip_info is_valid_ip is_private_ip w self e ip))
        = disk w).
Proof.
  intros is_valid_ip is_private_ip w e ip. split; [| split; [| split]].
  - intros data. unfold get_cached_ip_info.
    destruct (disk w !! cache_file_name ip) as [[| d] |]; try discriminate.
    destruct (default (VNum 0) (d !! "_cached_at")) as [| t] eqn:Et;
      try discriminate.
    destruct (Qltb (now e - t) expiry_seconds) eqn:El; [| discriminate].
    intros [= <-]. exists t. split; [exact Et |].
    exact (proj1 (Qltb_lt (now e - t) expiry_seconds) El).
  - intros self data t. apply stale_entry_is_a_miss.
  - intros cfg data t Hne Hv Hp Hd Ht Hage self.
    destruct (stale_entry_is_a_miss is_valid_ip is_private_ip w self e ip
                data t (new_instance_misses w _ ip) Hv Hp Hd Ht Hage)
      as [_ Hget].
    unfold on_analysis_complete. destruct ip as [| c ip]; [now elim Hne |].
    fold self. now rewrite Hget.
  - intros self v Hf. unfold IPLookup.get_ip_info. now rewrite Hf.
Qed.

(** The application eight days after it stored an entry: the entry is too
    old, the service is asked again and its new answer is the result. *)
Lemma stale_entries_are_looked_up_afresh_witness :
  let first := on_analysis_complete Sample.public_ip Sample.private_ip
                 default_config Sample.new_store Sample.first_lookup
                 (Some "8.8.8.8") in
  let second := on_analysis_complete Sample.public_ip Sample.private_ip
                  default_config (fst first) Sample.eight_days_later
                  (Some "8.8.8.8") in
  snd first
  = Some (<["_cached_at" := VNum 1000]> {["country" := VStr "US"]}) /\
  snd second
  = Some (<["_cached_at" := VNum (1000 + 8 * 86400)]>
            {["country" := VStr "DE"]}).
Proof.
  intros first second. split; [vm_compute; reflexivity |].
  subst second.
  rewrite (proj1 (proj2 (proj2 (stale_entries_are_looked_up_afresh
             Sample.public_ip Sample.private_ip (fst first)
             Sample.eight_days_later "8.8.8.8")))
             default_config
             (<["_cached_at" := VNum 1000]> {["country" := VStr "US"]}) 1000%Q).
  - vm_compute. reflexivity.
  - discriminate.
  - reflexivity.
  - reflexivity.
  - vm_compute. reflexivity.
  - vm_compute. reflexivity.
  - apply Qle_bool_iff. vm_compute. reflexivity.
Defined.

(** Two ways in which an entry older than the configured expiry is the
    result of a lookup.  With [cache_expiry_days] set to 1, the
    application looks an address up and two days later again: the second
    result is the entry stamped at the first lookup, and the service,
    which would now answer otherwise, is not asked; the setting is not
    read.  And one service object asked twice, eight days apart, with
    the default setting: the second call is answered by the [lru_cache]
    with the entry stamped at the first. *)
Lemma entry_past_configured_expiry_is_served :
  let cfg := mk_config (Some "") 1 in
  let first := on_analysis_complete Sample.public_ip Sample.private_ip cfg
                 Sample.new_store Sample.first_lookup (Some "8.8.8.8") in
  let second := on_analysis_complete Sample.public_ip Sample.private_ip cfg
                  (fst first) Sample.two_days_later (Some "8.8.8.8") in
  let once := IPLookup.get_ip_info Sample.public_ip Sample.private_ip
                Sample.new_store Sample.service Sample.first_lookup "8.8.8.8" in
  let again := IPLookup.get_ip_info Sample.public_ip Sample.private_ip
                 (fst once) Sample.service Sample.eight_days_later "8.8.8.8" in
  (snd second
   = Some (<["_cached_at" := VNum 1000]> {["country" := VStr "US"]}) /\
   Qle_bool (inject_Z (cache_expiry_days cfg * 86400))
            (now Sample.two_days_later - 1000) = true /\
   http Sample.two_days_later (request_url (new_instance (fst first) (Some "")) "8.8.8.8")
   = ResponseOk {["country" := VStr "DE"]}) /\
  (snd again = <["_cached_at" := VNum 1000]> {["country" := VStr "US"]} /\
   Qle_bool (inject_Z (cache_expiry_days default_config * 86400))
            (now Sample.eight_days_later - 1000) = true /\
   http Sample.eight_days_later (request_url Sample.service "8.8.8.8")
   = ResponseOk {["country" := VStr "DE"]}).
Proof.
  split; (split; [| split]); vm_compute; reflexivity.
Qed.

End CacheFacts.

(** ** More on the relay chain and the timing *)

Module ChainMore.
Import Core RelayFacts DelayFacts Chain.
Local Open Scope list_scope.

Section Results.

Variable parsedate_to_datetime : string -> option Datetime.datetime.
Variable strftime : Datetime.datetime -> string.
Variable parseaddr : string -> string * string.
Variable ip_obj : Type.
Variable ip_address : string -> option ip_obj.
Variable is_private : ip_obj -> bool.
Variable is_loopback : ip_obj -> bool.

Abbreviation parse := (parse_received_header parsedate_to_datetime strftime).
Abbreviation numbered := (Spec.numbered parsedate_to_datetime strftime).
Abbreviation process_relays := (process_relays parsedate_to_datetime strftime).
Abbreviation analyze :=
  (analyze parsedate_to_datetime strftime parseaddr ip_obj ip_address
           is_private is_loopback).

Lemma calculate_delays_cases msg r :
  if Spec2.latency_usable msg || Spec.all_comparable (relays r)
  then exists r', calculate_delays msg r = Ok r'
  else calculate_delays msg r = Raise TypeError.
Proof.
  unfold Spec2.latency_usable, calculate_delays.
  fold (Spec.timing_loop (relays r)).
  destruct (Message.get msg latency_header_name "") eqn:Hg.
  - simpl. destruct (Spec.all_comparable (relays r)) eqn:Hc.
    + destruct (timing_loop_ok _ Hc) as (l & -> & _). simpl. eauto.
    + now rewrite (timing_loop_raise _ Hc).
  - destruct (Latency.parse_latency_header _); simpl; [eauto |].
    fold (Spec.timing_loop (relays r)).
    destruct (Spec.all_comparable (relays r)) eqn:Hc.
    + destruct (timing_loop_ok _ Hc) as (l & -> & _). simpl. eauto.
    + now rewrite (timing_loop_raise _ Hc).
Qed.

End Results.

(** X1: The analysis ends without a result in two cases only, both with
    [TypeError]: the first two hops carry one naive and one aware
    timestamp, or two neighbouring hops do while no latency header can be
    used.  In every other case it returns a result. *)
Theorem analyze_fails_only_on_mixed_timestamps :
  forall pdt sft pa (ip_obj : Type) (ipa : string -> option ip_obj) ipp ipl
         (msg : Message.message),
    match Core.process_relays pdt sft msg with
    | Raise e =>
        e = TypeError /\
        Spec.reorder_decision (Spec.numbered pdt sft msg) = Spec.Fail /\
        Core.analyze pdt sft pa ip_obj ipa ipp ipl msg = Raise TypeError
    | Ok rs =>
        Spec.reorder_decision (Spec.numbered pdt sft msg) <> Spec.Fail /\
        if Spec2.latency_usable msg || Spec.all_comparable rs
        then exists r, Core.analyze pdt sft pa ip_obj ipa ipp ipl msg = Ok r
        else Core.analyze pdt sft pa ip_obj ipa ipp ipl msg = Raise TypeError
    end.
Proof.
  intros pdt sft pa ip_obj ipa ipp ipl msg.
  unfold Core.analyze.
  destruct (extract_domains pa msg) as [fd rd].
  rewrite (process_relays_cases pdt sft msg).
  destruct (Spec.reorder_decision (Spec.numbered pdt sft msg)) eqn:Hd.
  - split; [discriminate |]. cbn [bind].
    match goal with |- context [calculate_delays msg ?r] =>
      pose proof (calculate_delays_cases msg r) as H end.
    exact H.
  - split; [discriminate |]. cbn [bind].
    match goal with |- context [calculate_delays msg ?r] =>
      pose proof (calculate_delays_cases msg r) as H end.
    exact H.
  - auto.
Qed.

Section Order.

Variable pdt : string -> option Datetime.datetime.
Variable sft : Datetime.datetime -> string.

Lemma set_hop_parse i j h :
  set_hop i (parse_received_header pdt sft h j) = parse_received_header pdt sft h i.
Proof.
  unfold parse_received_header.
  destruct (Re.search time_pattern h); [| reflexivity].
  now destruct (pdt _).
Qed.

Lemma renumber_from l : forall hs s,
  map (set_hop 0) l = map (fun h => parse_received_header pdt sft h 0) hs ->
  map (fun '(i, r) => set_hop i r) (combine (seq s (length l)) l)
  = map (fun '(i, h) => parse_received_header pdt sft h i)
        (combine (seq s (length hs)) hs).
Proof.
  induction l as [| r l IH]; intros [| h hs] s H; try discriminate;
    [reflexivity |].
  injection H as Hr Hl. cbn [length seq combine map]. f_equal.
  - rewrite <- (set_hop_parse s 0 h), <- Hr. reflexivity.
  - now apply IH.
Qed.

Lemma parsed_in_order_strip hs : forall s,
  map (set_hop 0)
      (map (fun '(i, h) => parse_received_header pdt sft h i)
           (combine (seq s (length hs)) hs))
  = map (fun h => parse_received_header pdt sft h 0) hs.
Proof.
  induction hs as [| h hs IH]; intros s; [reflexivity |].
  cbn [length seq combine map]. now rewrite set_hop_parse, IH.
Qed.

Lemma renumber_rev_numbered msg :
  renumber (List.rev (Spec.numbered pdt sft msg))
  = Spec2.parsed_in_order pdt sft (Message.get_all msg "Received").
Proof.
  unfold renumber, Spec2.parsed_in_order, enumerate1.
  apply renumber_from.
  rewrite map_rev. unfold Spec.numbered, enumerate1.
  rewrite parsed_in_order_strip, <- map_rev. now rewrite rev_involutive.
Qed.

End Order.

(** X2: The chain that [_process_relays] stores is the list of the Received
    headers parsed one by one, hop i from the i-th header of the order
    used: from the bottom of the header block upwards when the reorder
    check does not fire, from the top downwards when it does. *)
Theorem chain_is_headers_in_one_of_two_orders :
  forall pdt sft (msg : Message.message) (rs : list relay),
    Core.process_relays pdt sft msg = Ok rs ->
    let hs := Message.get_all msg "Received" in
    (Spec.reorder_decision (Spec.numbered pdt sft msg) = Spec.Keep /\
     rs = Spec2.parsed_in_order pdt sft (List.rev hs)) \/
    (Spec.reorder_decision (Spec.numbered pdt sft msg) = Spec.Reverse /\
     rs = Spec2.parsed_in_order pdt sft hs).
Proof.
  intros pdt sft msg rs H hs. rewrite process_relays_cases in H.
  destruct (Spec.reorder_decision (Spec.numbered pdt sft msg));
    [| | discriminate]; injection H as <-.
  - left. split; reflexivity.
  - right. split; [reflexivity | apply renumber_rev_numbered].
Qed.

Lemma chain_is_headers_in_one_of_two_orders_witness :
  exists rs,
    Sample.process_relays Sample.newest_last = Ok rs /\
    rs = Spec2.parsed_in_order Sample.parsedate Sample.strftime
           (Message.get_all Sample.newest_last "Received").
Proof.
  eexists. split; [vm_compute; reflexivity |].
  destruct (chain_is_headers_in_one_of_two_orders
              Sample.parsedate Sample.strftime Sample.newest_last _ eq_refl)
    as [[Hk _] | [_ Hr]].
  - vm_compute in Hk. discriminate Hk.
  - exact Hr.
Defined.

Lemma gap_nonneg prev cur : (0 <= Spec.gap prev cur)%Z.
Proof.
  unfold Spec.gap. destruct (time_dt prev), (time_dt cur); lia.
Qed.

Lemma gaps_nonneg rest : forall prev,
  Forall (fun d => 0 <= d)%Z (Spec.gaps prev rest) /\
  (0 <= Spec.sum (Spec.gaps prev rest))%Z.
Proof.
  induction rest as [| cur rest IH]; intros prev; simpl.
  - split; [constructor | lia].
  - destruct (IH cur) as [Hf Hs]. pose proof (gap_nonneg prev cur).
    split; [now constructor | lia].
Qed.

Lemma last_cons {A} (a d : A) l : List.last (a :: l) d = List.last l a.
Proof.
  revert a d. induction l as [| b l IH]; intros a d; [reflexivity |].
  change (List.last (a :: b :: l) d) with (List.last (b :: l) d).
  now rewrite (IH b d), (IH b a).
Qed.

(** Along timestamps that never go back the gaps add up to the distance
    between the last and the first. *)
Lemma gaps_telescope rest : forall prev tp ts,
  time_dt prev = Some tp ->
  map time_dt rest = map Some ts ->
  Spec2.nondecreasing (Datetime.instant tp) (map Datetime.instant ts) = true ->
  Spec.sum (Spec.gaps prev rest)
  = (Datetime.instant (List.last ts tp) - Datetime.instant tp)%Z.
Proof.
  induction rest as [| cur rest IH]; intros prev tp [| t ts] Hp Hm Hs;
    try discriminate.
  - simpl. lia.
  - injection Hm as Hc Hm. cbn [map Spec2.nondecreasing] in Hs.
    apply andb_true_iff in Hs. destruct Hs as [Hle Hs].
    apply Z.leb_le in Hle.
    cbn [Spec.gaps Spec.sum fold_right]. fold (Spec.sum (Spec.gaps cur rest)).
    rewrite (IH cur t ts Hc Hm Hs), last_cons.
    unfold Spec.gap. rewrite Hp, Hc. lia.
Qed.

(** What the walk stores, when it ends. *)
Lemma walk_result rest : forall prev acc w,
  Spec.walk prev rest acc = Ok w ->
  snd w = (acc + Spec.sum (Spec.gaps prev rest))%Z /\
  (Forall (fun r => delay r = 0%Z) rest -> map delay (fst w) = Spec.gaps prev rest).
Proof.
  intros prev acc w H.
  destruct (Spec.chain_comparable prev rest) eqn:Hc.
  - destruct (walk_ok rest prev acc Hc) as (l & Hl & Hd).
    rewrite Hl in H. injection H as <-. auto.
  - rewrite (walk_raise rest prev acc Hc) in H. discriminate.
Qed.

Lemma timing_loop_result rs st :
  Spec.timing_loop rs = Ok st ->
  snd st = Spec.sum (Spec.hop_delays rs) /\
  (Forall (fun r => delay r = 0%Z) rs -> map delay (fst st) = Spec.hop_delays rs).
Proof.
  intros H.
  destruct (Spec.all_comparable rs) eqn:Hc.
  - destruct (timing_loop_ok rs Hc) as (l & Hl & Hd).
    rewrite Hl in H. injection H as <-. auto.
  - rewrite (timing_loop_raise rs Hc) in H. discriminate.
Qed.

Lemma hop_delays_nonneg rs :
  Forall (fun d => 0 <= d)%Z (Spec.hop_delays rs) /\
  (0 <= Spec.sum (Spec.hop_delays rs))%Z.
Proof.
  destruct rs as [| r rest]; simpl; [split; [constructor | lia] |].
  destruct (gaps_nonneg rest r) as [Hf Hs]. split; [constructor; [lia | exact Hf] | lia].
Qed.

Lemma hop_delays_same_times l rs :
  map time_dt l = map time_dt rs -> Spec.hop_delays l = Spec.hop_delays rs.
Proof.
  destruct l as [| a l], rs as [| b rs]; try discriminate; [reflexivity |].
  cbn [map Spec.hop_delays]. intros [= Ha Hl]. f_equal.
  revert a b rs Ha Hl. induction l as [| c l IH]; intros a b [| d rs] Ha Hl;
    try discriminate; [reflexivity |].
  injection Hl as Hc Hl. cbn [Spec.gaps]. f_equal.
  - unfold Spec.gap. now rewrite Ha, Hc.
  - now apply IH.
Qed.

(** The timing of a result computed from the Received headers. *)
Lemma analyze_timing pdt sft pa (ip_obj : Type) (ipa : string -> option ip_obj)
    ipp ipl msg r :
  Core.analyze pdt sft pa ip_obj ipa ipp ipl msg = Ok r ->
  Spec2.latency_usable msg = false ->
  delay_source r = "Calculated from Received headers" /\
  map delay (relays r) = Spec.hop_delays (relays r) /\
  total_delay r = inject_Z (Spec.sum (Spec.hop_delays (relays r))).
Proof.
  intros H Hu. unfold Core.analyze in H.
  destruct (extract_domains pa msg) as [fd rd].
  destruct (Core.process_relays pdt sft msg) as [rs |] eqn:Hrs;
    cbn [bind] in H; [| discriminate].
  apply process_relays_result in Hrs. destruct Hrs as (_ & _ & _ & Hz).
  unfold Spec2.latency_usable in Hu. unfold calculate_delays in H.
  cbn [relays headers auth_results sender_ip total_delay delay_source
       end_to_end_latency_header from_domain return_path_domain] in H.
  fold (Spec.timing_loop rs) in H.
  assert (Hloop : exists st, Spec.timing_loop rs = Ok st /\
            relays r = fst st /\ total_delay r = inject_Z (snd st) /\
            delay_source r = "Calculated from Received headers").
  { destruct (Message.get msg latency_header_name "") eqn:Hg.
    - destruct (Spec.timing_loop rs) as [st |]; cbn [bind] in H; [| discriminate].
      injection H as <-. exists st. auto.
    - destruct (Latency.parse_latency_header _); [discriminate |].
      destruct (Spec.timing_loop rs) as [st |]; cbn [bind] in H; [| discriminate].
      injection H as <-. exists st. auto. }
  destruct Hloop as (st & Hst & Hrel & Htot & Hsrc).
  pose proof (timing_loop_forget _ _ Hst) as Hf.
  destruct (timing_loop_result _ _ Hst) as [Hsum Hd]. specialize (Hd Hz).
  assert (Hsame : Spec.hop_delays (fst st) = Spec.hop_delays rs).
  { apply hop_delays_same_times.
    exact (map_forget_field time_dt _ _ time_dt_forget Hf). }
  rewrite Hrel, Hd, Htot, Hsum, Hsame. auto.
Qed.

(** The sender address of a result is chosen on the chain that
    [_process_relays] stored. *)
Lemma analyze_sender pdt sft pa (ip_obj : Type) (ipa : string -> option ip_obj)
    ipp ipl msg r :
  Core.analyze pdt sft pa ip_obj ipa ipp ipl msg = Ok r ->
  exists rs,
    sender_ip r
    = Core.extract_sender_ip ip_obj ipa ipp ipl
        (Message.get msg "Authentication-Results" "") rs /\
    map Spec.forget_delay (relays r) = map Spec.forget_delay rs.
Proof.
  intros H. unfold Core.analyze in H.
  destruct (extract_domains pa msg) as [fd rd].
  destruct (Core.process_relays pdt sft msg) as [rs |] eqn:Hrs;
    cbn [bind] in H; [| discriminate].
  exists rs. split.
  - apply AnalyzeFacts.calculate_delays_keeps in H. cbn in H.
    now destruct H as (_ & _ & _ & -> & _).
  - now apply calculate_delays_relays in H.
Qed.

(** X3: When no latency header can be used, an analysis that returns has
    computed the timing from the Received headers: no hop has a negative
    delay, the total is the sum of the delays the hops carry, and it is
    not negative. *)
Theorem derived_total_is_sum_of_stored_delays :
  forall pdt sft pa (ip_obj : Type) (ipa : string -> option ip_obj) ipp ipl
         (msg : Message.message) (r : EmailParseResult),
    Core.analyze pdt sft pa ip_obj ipa ipp ipl msg = Ok r ->
    Spec2.latency_usable msg = false ->
    delay_source r = "Calculated from Received headers" /\
    Forall (fun d => 0 <= d)%Z (map delay (relays r)) /\
    total_delay r = inject_Z (Spec.sum (map delay (relays r))) /\
    (0 <= Spec.sum (map delay (relays r)))%Z.
Proof.
  intros pdt sft pa ip_obj ipa ipp ipl msg r H Hu.
  destruct (analyze_timing _ _ _ _ _ _ _ _ _ H Hu) as (Hs & Hd & Ht).
  rewrite Hd, Ht.
  destruct (hop_delays_nonneg (relays r)) as [Hn Hsum]. auto.
Qed.

Lemma derived_total_is_sum_of_stored_delays_witness :
  exists r,
    Sample.analyze Sample.two_hops = Ok r /\
    delay_source r = "Calculated from Received headers" /\
    total_delay r = inject_Z (Spec.sum (map delay (relays r))).
Proof.
  eexists. split; [vm_compute; reflexivity |].
  pose proof (derived_total_is_sum_of_stored_delays
            Sample.parsedate Sample.strftime Sample.parseaddr unit
            Sample.ip_address Sample.is_private Sample.is_loopback
            Sample.two_hops _ eq_refl eq_refl) as (H1 & _ & H2 & _).
  split; [exact H1 | exact H2].
Defined.

(** X4: With all timestamps parsed, of one kind and never going back, the
    total derived from the Received headers is the time from the first
    hop to the last. *)
Theorem derived_total_is_last_minus_first :
  forall pdt sft pa (ip_obj : Type) (ipa : string -> option ip_obj) ipp ipl
         (msg : Message.message) (r : EmailParseResult)
         (t0 : Datetime.datetime) (ts : list Datetime.datetime),
    Core.analyze pdt sft pa ip_obj ipa ipp ipl msg = Ok r ->
    Spec2.latency_usable msg = false ->
    map time_dt (relays r) = map Some (t0 :: ts) ->
    Spec2.nondecreasing (Datetime.instant t0) (map Datetime.instant ts) = true ->
    total_delay r
    = inject_Z (Datetime.instant (List.last ts t0) - Datetime.instant t0).
Proof.
  intros pdt sft pa ip_obj ipa ipp ipl msg r t0 ts H Hu Ht Hs.
  destruct (analyze_timing _ _ _ _ _ _ _ _ _ H Hu) as (_ & _ & ->).
  destruct (relays r) as [| r0 rest]; [discriminate |].
  injection Ht as H0 Ht. cbn [Spec.hop_delays Spec.sum fold_right].
  fold (Spec.sum (Spec.gaps r0 rest)).
  now rewrite (gaps_telescope rest r0 t0 ts H0 Ht Hs).
Qed.

Lemma derived_total_is_last_minus_first_witness :
  exists r,
    Sample.analyze Sample.two_hops = Ok r /\
    total_delay r = inject_Z (1704103210 - 1704103200).
Proof.
  eexists. split; [vm_compute; reflexivity |].
  exact (derived_total_is_last_minus_first
           Sample.parsedate Sample.strftime Sample.parseaddr unit
           Sample.ip_address Sample.is_private Sample.is_loopback
           Sample.two_hops _ (Datetime.mk 1704103200 true)
           [Datetime.mk 1704103210 true] eq_refl eq_refl eq_refl eq_refl).
Defined.

Section Sender.

Variable ip_obj : Type.
Variable ip_address : string -> option ip_obj.
Variable is_private : ip_obj -> bool.
Variable is_loopback : ip_obj -> bool.

Abbreviation is_public := (is_public ip_obj ip_address is_private is_loopback).
Abbreviation extract_sender_ip :=
  (extract_sender_ip ip_obj ip_address is_private is_loopback).

Lemma is_public_spec ip :
  is_public ip = true ->
  ip <> "" /\
  exists o, ip_address ip = Some o /\ is_private o = false /\ is_loopback o = false.
Proof.
  unfold Core.is_public, is_valid_ip, is_private_ip. intros H.
  apply andb_true_iff in H. destruct H as [Hv Hp].
  destruct ip as [| c ip']; [discriminate |]. split; [discriminate |].
  destruct (ip_address (String c ip')) as [o |]; [| discriminate].
  exists o. apply negb_true_iff, orb_false_iff in Hp. tauto.
Qed.

Lemma extract_sender_ip_some auth rs ip :
  extract_sender_ip auth rs = Some ip -> is_public ip = true.
Proof.
  unfold Core.extract_sender_ip.
  destruct (Re.search sender_ip_pattern auth) as [c |].
  - destruct (Core.is_public _ _ _ _ (Str.strip_chars "[]()" (group_text 1 c))) eqn:Hc.
    + now intros [= <-].
    + destruct (find _ rs) as [r |] eqn:Hf; [| discriminate].
      intros [= <-]. apply find_some in Hf. destruct Hf as [_ Hf].
      now apply andb_true_iff in Hf.
  - destruct (find _ rs) as [r |] eqn:Hf; [| discriminate].
    intros [= <-]. apply find_some in Hf. destruct Hf as [_ Hf].
    now apply andb_true_iff in Hf.
Qed.

Lemma extract_sender_ip_none auth rs :
  extract_sender_ip auth rs = None ->
  Forall (fun r => ip r = "" \/ is_public (ip r) = false) rs.
Proof.
  unfold Core.extract_sender_ip. intros H.
  assert (Hf : find (fun r => negb (String.eqb (ip r) "") &&
                              Core.is_public ip_obj ip_address is_private
                                is_loopback (ip r)) rs = None).
  { destruct (Re.search sender_ip_pattern auth) as [c |].
    - destruct (Core.is_public _ _ _ _ _); [discriminate |].
      now destruct (find _ rs).
    - now destruct (find _ rs). }
  apply List.Forall_forall. intros r Hin.
  pose proof (find_none _ _ Hf r Hin) as Hr. cbn beta in Hr.
  apply andb_false_iff in Hr. destruct Hr as [Hr | Hr]; [left | now right].
  apply negb_false_iff, String.eqb_eq in Hr. exact Hr.
Qed.

End Sender.

(** X6: The sender address of an analysis result, when there is one, is a
    valid address that is neither private nor loopback (and not the empty
    text); when there is none, no hop of the chain has such an address. *)
Theorem sender_ip_is_public :
  forall pdt sft pa (ip_obj : Type) (ipa : string -> option ip_obj) ipp ipl
         (msg : Message.message) (r : EmailParseResult),
    Core.analyze pdt sft pa ip_obj ipa ipp ipl msg = Ok r ->
    match sender_ip r with
    | Some a =>
        a <> "" /\
        exists o, ipa a = Some o /\ ipp o = false /\ ipl o = false
    | None =>
        Forall (fun h => ip h = "" \/
                         Core.is_public ip_obj ipa ipp ipl (ip h) = false)
               (relays r)
    end.
Proof.
  intros pdt sft pa ip_obj ipa ipp ipl msg r H.
  destruct (analyze_sender _ _ _ _ _ _ _ _ _ H) as (rs & Hs & Hm).
  destruct (sender_ip r) as [a |].
  - symmetry in Hs. apply extract_sender_ip_some in Hs.
    now apply is_public_spec.
  - symmetry in Hs. apply extract_sender_ip_none in Hs.
    assert (Hip : map ip (relays r) = map ip rs)
      by exact (map_forget_field ip _ _ (fun _ => eq_refl) Hm).
    apply List.Forall_forall. intros h Hin.
    apply (in_map ip) in Hin. rewrite Hip in Hin.
    apply in_map_iff in Hin. destruct Hin as (h' & <- & Hin').
    exact (proj1 (List.Forall_forall _ _) Hs h' Hin').
Qed.

Lemma sender_ip_is_public_witness :
  exists r,
    Sample2.analyze Sample2.private_then_public = Ok r /\
    map ip (relays r) = ["10.0.0.1"; "8.8.8.8"] /\
    match sender_ip r with
    | Some a =>
        a <> "" /\
        exists o, Sample2.ip_address a = Some o /\
                  Sample2.is_private o = false /\ Sample2.is_loopback o = false
    | None =>
        Forall (fun h => ip h = "" \/
                         Core.is_public Sample2.address Sample2.ip_address
                           Sample2.is_private Sample2.is_loopback (ip h) = false)
               (relays r)
    end.
Proof.
  eexists. split; [vm_compute; reflexivity |].
  split; [vm_compute; reflexivity |].
  exact (sender_ip_is_public
           Sample.parsedate Sample.strftime Sample.parseaddr Sample2.address
           Sample2.ip_address Sample2.is_private Sample2.is_loopback
           Sample2.private_then_public _ eq_refl).
Defined.

End ChainMore.

(** ** More on the geolocation cache *)

Module CacheMore.
Import IPLookup CacheFacts.

(** What a lookup can do to the cache directory. *)
Lemma fresh_lookup_disk self disk e ip :
  fst (fresh_lookup self disk e ip) = disk \/
  exists data,
    http e (request_url self ip) = ResponseOk data /\ write_ok e = true /\
    fst (fresh_lookup self disk e ip)
    = <[cache_file_name ip :=
          JsonObject (<["_cached_at" := VNum (now_write e)]> data)]> disk.
Proof.
  unfold fresh_lookup, cache_ip_info.
  destruct (http e (request_url self ip)) as [data | | | |]; auto.
  destruct (write_ok e); [right; eauto | auto].
Qed.

(** X14: A lookup writes at most one file of the cache directory, the one of
    the address looked up, and only after an answer of the service that
    it could store; it never removes a file, and every other file keeps
    its content. *)
Theorem lookup_touches_only_its_own_cache_file :
  forall (is_valid_ip is_private_ip : string -> bool)
         (w : store) (self : instance) (e : env) (ip : string),
    let after :=
      fst (IPLookup.get_ip_info is_valid_ip is_private_ip w self e ip) in
    (forall name, name <> cache_file_name ip ->
                  disk after !! name = disk w !! name) /\
    (disk after = disk w \/
     exists data,
       http e (request_url self ip) = ResponseOk data /\ write_ok e = true /\
       is_valid_ip ip = true /\ is_private_ip ip = false /\
       lru_find (ident self, ip) (memo w) = None /\
       disk after !! cache_file_name ip
       = Some (JsonObject (<["_cached_at" := VNum (now_write e)]> data))).
Proof.
  intros is_valid_ip is_private_ip w self e ip after. subst after.
  unfold IPLookup.get_ip_info.
  destruct (lru_find (ident self, ip) (memo w)) as [v |] eqn:Hf; [cbn; auto |].
  unfold get_ip_info_body.
  destruct (is_valid_ip ip) eqn:Hv; cbn [negb orb]; [| cbn; auto].
  destruct (is_private_ip ip) eqn:Hp; [cbn; auto |].
  assert (Hfresh :
    let d := fst (fresh_lookup self (disk w) e ip) in
    (forall name, name <> cache_file_name ip -> d !! name = disk w !! name) /\
    (d = disk w \/
     exists data,
       http e (request_url self ip) = ResponseOk data /\ write_ok e = true /\
       true = true /\
       false = false /\ @None (gmap string value) = None /\
       d !! cache_file_name ip
       = Some (JsonObject (<["_cached_at" := VNum (now_write e)]> data)))).
  { destruct (fresh_lookup_disk self (disk w) e ip)
      as [-> | (data & Hh & Hw & ->)].
    - cbn. auto.
    - cbn zeta. split.
      + intros name Hn. now rewrite lookup_insert_ne.
      + right. exists data. rewrite lookup_insert_eq.
        repeat split; try assumption; reflexivity. }
  destruct (get_cached_ip_info (disk w) (now e) ip) as [cached |].
  - destruct (bool_decide (cached = ∅)).
    + destruct (fresh_lookup self (disk w) e ip) as [d v]. exact Hfresh.
    + cbn. auto.
  - destruct (fresh_lookup self (disk w) e ip) as [d v]. exact Hfresh.
Qed.

Lemma lookup_touches_only_its_own_cache_file_witness :
  let after := fst (IPLookup.get_ip_info Sample.public_ip Sample.private_ip
                      Sample.new_store Sample.service Sample.first_lookup
                      "8.8.8.8") in
  disk after !! "8_8_4_4.json" = disk Sample.new_store !! "8_8_4_4.json" /\
  disk after !! "8_8_8_8.json"
  = Some (JsonObject (<["_cached_at" := VNum 1000]> {["country" := VStr "US"]})).
Proof.
  intros after. split.
  - apply (proj1 (lookup_touches_only_its_own_cache_file
                    Sample.public_ip Sample.private_ip Sample.new_store
                    Sample.service Sample.first_lookup "8.8.8.8")).
    discriminate.
  - vm_compute. reflexivity.
Defined.

(** X15: Write, then read: what one instance stored for an address is what
    any instance without a memo entry for it returns during the next
    seven days, without asking the service. *)
Theorem stored_entry_is_served_for_seven_days :
  forall (is_valid_ip is_private_ip : string -> bool)
         (files : gmap string cache_file) (ip : string)
         (data : gmap string value) (written : Q)
         (w : store) (self : instance) (e : env),
    is_valid_ip ip = true -> is_private_ip ip = false ->
    lru_find (ident self, ip) (memo w) = None ->
    disk w = fst (cache_ip_info files written true ip data) ->
    (now e - written < expiry_seconds)%Q ->
    get_cached_ip_info (disk w) (now e) ip
    = Some (<["_cached_at" := VNum written]> data) /\
    snd (IPLookup.get_ip_info is_valid_ip is_private_ip w self e ip)
    = <["_cached_at" := VNum written]> data.
Proof.
  intros is_valid_ip is_private_ip files ip data written w self e
    Hv Hp Hm Hd Hage.
  assert (Hc : get_cached_ip_info (disk w) (now e) ip
               = Some (<["_cached_at" := VNum written]> data)).
  { unfold get_cached_ip_info. rewrite Hd. cbn [cache_ip_info fst].
    rewrite lookup_insert_eq. rewrite lookup_insert_eq. cbn [default id].
    now rewrite (proj2 (Qltb_lt _ _) Hage). }
  split; [exact Hc |].
  unfold IPLookup.get_ip_info, get_ip_info_body.
  rewrite Hm, Hv, Hp, Hc. cbn [negb orb].
  rewrite bool_decide_eq_false_2; [reflexivity |].
  intros Habs. apply (f_equal (fun m => m !! "_cached_at")) in Habs.
  rewrite lookup_insert_eq, lookup_empty in Habs. discriminate.
Qed.

Lemma stored_entry_is_served_for_seven_days_witness :
  let w := mk_store [] (fst (cache_ip_info ∅ 1000 true "8.8.8.8"
                               {["country" := VStr "US"]})) in
  let e := mk_env (1000 + 86400) (fun _ => RaisedTimeout) (1000 + 86400)
                  true ∅ in
  get_cached_ip_info (disk w) (now e) "8.8.8.8"
  = Some (<["_cached_at" := VNum 1000]> {["country" := VStr "US"]}) /\
  snd (IPLookup.get_ip_info Sample.public_ip Sample.private_ip w
         Sample.service e "8.8.8.8")
  = <["_cached_at" := VNum 1000]> {["country" := VStr "US"]}.
Proof.
  intros w e.
  apply (stored_entry_is_served_for_seven_days
           Sample.public_ip Sample.private_ip ∅ "8.8.8.8"
           {["country" := VStr "US"]} 1000%Q w Sample.service e);
    try reflexivity.
Defined.

(** X16: An entry without a stamp counts as written at time 0: it is served
    only by a clock that has not reached the seventh day of 1970. *)
Theorem unstamped_entry_counts_as_written_at_epoch :
  forall (files : gmap string cache_file) (ip : string)
         (data : gmap string value) (now : Q),
    files !! cache_file_name ip = Some (JsonObject data) ->
    data !! "_cached_at" = None ->
    get_cached_ip_info files now ip
    = if Qltb now expiry_seconds then Some data else None.
Proof.
  intros files ip data now Hf Hd. unfold get_cached_ip_info.
  rewrite Hf, Hd. cbn [default id].
  assert (Heq : Qltb (now - 0) expiry_seconds = Qltb now expiry_seconds).
  { unfold Qltb. f_equal. apply eq_true_iff_eq.
    rewrite !Qle_bool_iff.
    assert (H0 : (now - 0 == now)%Q) by ring.
    now rewrite H0. }
  now rewrite Heq.
Qed.

Lemma unstamped_entry_counts_as_written_at_epoch_witness :
  get_cached_ip_info
    {[cache_file_name "8.8.8.8" := JsonObject {["country" := VStr "US"]}]}
    1700000000 "8.8.8.8"
  = None.
Proof.
  exact (unstamped_entry_counts_as_written_at_epoch
           {[cache_file_name "8.8.8.8" := JsonObject {["country" := VStr "US"]}]}
           "8.8.8.8" {["country" := VStr "US"]} 1700000000%Q
           eq_refl eq_refl).
Defined.

Lemma length_append (a b : string) :
  String.length (a ++ b) = (String.length a + String.length b)%nat.
Proof.
  induction a as [| c a IH]; [reflexivity |].
  change (String.length (String c (a ++ b))
          = S (String.length a + String.length b)).
  cbn [String.length]. now rewrite IH.
Qed.

Lemma append_inj_r (a b t : string) : (a ++ t = b ++ t)%string -> a = b.
Proof.
  revert b. induction a as [| c a IH]; intros [| d b] H.
  - reflexivity.
  - apply (f_equal String.length) in H. rewrite !length_append in H.
    cbn [String.length] in H. lia.
  - apply (f_equal String.length) in H. rewrite !length_append in H.
    cbn [String.length] in H. lia.
  - change (String c (a ++ t) = String d (b ++ t)) in H.
    injection H as -> H. f_equal. now apply IH.
Qed.

Lemma replace_char_inj a b s t :
  Str.contains_char b s = false -> Str.contains_char b t = false ->
  replace_char a b s = replace_char a b t -> s = t.
Proof.
  revert t. induction s as [| c s IH]; intros [| d t] Hs Ht H;
    try discriminate; [reflexivity |].
  cbn [Str.contains_char] in Hs, Ht.
  apply orb_false_iff in Hs, Ht. destruct Hs as [Hc Hs], Ht as [Hd Ht].
  cbn [replace_char] in H. injection H as Hcd H.
  f_equal; [| now apply IH].
  destruct (Ascii.eqb c a) eqn:Eca, (Ascii.eqb d a) eqn:Eda.
  - apply Ascii.eqb_eq in Eca, Eda. congruence.
  - subst d. now rewrite Ascii.eqb_refl in Hd.
  - subst c. now rewrite Ascii.eqb_refl in Hc.
  - exact Hcd.
Qed.

(** X17: Two different addresses written without an underscore (every IPv4
    address is) never share a cache file. *)
Theorem cache_files_of_different_addresses_differ :
  forall ip ip' : string,
    Str.contains_char "_" ip = false -> Str.contains_char "_" ip' = false ->
    ip <> ip' -> cache_file_name ip <> cache_file_name ip'.
Proof.
  intros ip ip' H H' Hne Heq. apply Hne. unfold cache_file_name in Heq.
  apply append_inj_r in Heq. exact (replace_char_inj _ _ _ _ H H' Heq).
Qed.

Lemma cache_files_of_different_addresses_differ_witness :
  cache_file_name "8.8.8.8" <> cache_file_name "8.8.4.4".
Proof.
  apply (cache_files_of_different_addresses_differ "8.8.8.8" "8.8.4.4");
    [reflexivity | reflexivity | discriminate].
Defined.

End CacheMore.

(** ** More on the blacklist checks *)

Module BlacklistMore.
Import Blacklist BlacklistFacts.

Lemma check_single_blacklist_dns resolve rev host :
  (forall q e, resolve q = Raised e -> issubclass e DNSException = true) ->
  check_single_blacklist resolve rev host
  = Some (Spec.zone_result resolve rev host).
Proof.
  intros H. unfold Spec.zone_result, check_single_blacklist.
  destruct (resolve (rev ++ "." ++ host)) as [| e] eqn:E; [reflexivity |].
  specialize (H _ _ E). destruct e; try discriminate; reflexivity.
Qed.

(** X10: For an address that is not a valid public one [check_ip] asks nothing
    and returns the empty dict.  For a valid public one, when the resolver
    raises nothing but its own exceptions, the result has one entry for
    each of the ten lists, under the display name of the list and in the
    order of the table, holding the answer of that list's zone. *)
Theorem check_ip_reports_each_list_once :
  forall (resolve : string -> outcome) (is_valid_public_ip : string -> bool)
         (ip : string),
    (is_valid_public_ip ip = false ->
     check_ip resolve is_valid_public_ip ip = Some []) /\
    (is_valid_public_ip ip = true ->
     (forall q e, resolve q = Raised e -> issubclass e DNSException = true) ->
     check_ip resolve is_valid_public_ip ip
     = Some (map (fun z => (snd z,
                            Spec.zone_result resolve (reversed_ip_of ip) (fst z)))
                 BLACKLISTS)).
Proof.
  intros resolve valid ip. unfold check_ip. split; intros Hv.
  - now rewrite Hv.
  - intros Hdns. rewrite Hv. cbn [negb]. unfold BLACKLISTS.
    cbn [check_zones].
    repeat (rewrite (check_single_blacklist_dns resolve _ _ Hdns);
            cbn [check_zones]).
    reflexivity.
Qed.

Lemma check_ip_reports_each_list_once_witness :
  check_ip (fun _ => Raised NXDOMAIN) (fun _ => true) "8.8.8.8"
  = Some (map (fun z => (snd z, Some false)) BLACKLISTS).
Proof.
  refine (proj2 (check_ip_reports_each_list_once
                   (fun _ => Raised NXDOMAIN) (fun _ => true) "8.8.8.8")
                eq_refl _).
  intros q e [= <-]. reflexivity.
Defined.

Lemma split_on_cons sep s : exists w ws, Str.split_on sep s = w :: ws.
Proof.
  induction s as [| c s (w & ws & IH)]; simpl; [eauto |].
  destruct (Ascii.eqb c sep); [eauto |]. rewrite IH. eauto.
Qed.

Lemma join_cons2 sep p q ps :
  Str.join sep (p :: q :: ps) = (p ++ sep ++ Str.join sep (q :: ps))%string.
Proof. reflexivity. Qed.

(** [sep.join(s.split(sep))] is [s]. *)
Lemma join_split sep s : Str.join (String sep EmptyString) (Str.split_on sep s) = s.
Proof.
  induction s as [| c s IH]; [reflexivity |].
  cbn [Str.split_on]. destruct (split_on_cons sep s) as (w & ws & Hw).
  rewrite Hw in *. destruct (Ascii.eqb c sep) eqn:Hc.
  - apply Ascii.eqb_eq in Hc. subst c. rewrite join_cons2, IH. reflexivity.
  - destruct ws as [| w' ws].
    + cbn [Str.join] in *. now rewrite IH.
    + rewrite join_cons2 in *. rewrite <- IH. reflexivity.
Qed.

Lemma split_on_app sep p t :
  Str.contains_char sep p = false ->
  Str.split_on sep (p ++ String sep t) = p :: Str.split_on sep t.
Proof.
  induction p as [| c p IH]; intros H.
  - change (Str.split_on sep (String sep t) = EmptyString :: Str.split_on sep t).
    cbn [Str.split_on]. now rewrite Ascii.eqb_refl.
  - cbn [Str.contains_char] in H. apply orb_false_iff in H.
    destruct H as [Hc Hp].
    change (Str.split_on sep (String c (p ++ String sep t))
            = String c p :: Str.split_on sep t).
    cbn [Str.split_on]. rewrite Ascii.eqb_sym, Hc. now rewrite (IH Hp).
Qed.

(** [sep.join(parts).split(sep)] is [parts], for parts without [sep]. *)
Lemma split_join sep parts :
  parts <> [] ->
  Forall (fun p => Str.contains_char sep p = false) parts ->
  Str.split_on sep (Str.join (String sep EmptyString) parts) = parts.
Proof.
  induction parts as [| p [| q ps] IH]; intros Hne Hf.
  - now elim Hne.
  - cbn [Str.join]. apply DomainFacts.split_on_no_sep. now inversion Hf.
  - rewrite join_cons2. inversion Hf as [| ? ? Hp Hq]; subst.
    change (String sep EmptyString ++ Str.join (String sep EmptyString) (q :: ps))%string
      with (String sep (Str.join (String sep EmptyString) (q :: ps))).
    rewrite (split_on_app _ _ _ Hp). f_equal. apply IH; [discriminate | exact Hq].
Qed.

Lemma split_on_clean sep s :
  Forall (fun p => Str.contains_char sep p = false) (Str.split_on sep s).
Proof.
  induction s as [| c s IH]; cbn [Str.split_on].
  - constructor; [reflexivity | constructor].
  - destruct (Ascii.eqb c sep) eqn:Hc.
    + constructor; [reflexivity | exact IH].
    + destruct (Str.split_on sep s) as [| w ws].
      * constructor; [| constructor]. cbn. now rewrite Ascii.eqb_sym, Hc.
      * inversion IH as [| ? ? Hw Hws]; subst. constructor; [| exact Hws].
        cbn. now rewrite Ascii.eqb_sym, Hc, Hw.
Qed.

(** X11: The reversal [check_ip] applies to an address before it appends the
    zone undoes itself, and it leaves a text without a dot as it is: an
    IPv6 address is queried as written. *)
Theorem reversed_ip_is_an_involution :
  forall ip : string,
    reversed_ip_of (reversed_ip_of ip) = ip /\
    (Str.contains_char "." ip = false -> reversed_ip_of ip = ip).
Proof.
  intros ip. unfold reversed_ip_of. split.
  - rewrite split_join.
    + rewrite rev_involutive. apply join_split.
    + destruct (split_on_cons "." ip) as (w & ws & ->).
      intros H. apply (f_equal (@length string)) in H.
      rewrite length_rev in H. discriminate.
    + apply Forall_rev, split_on_clean.
  - intros H. now rewrite (DomainFacts.split_on_no_sep _ _ H).
Qed.

Lemma reversed_ip_is_an_involution_witness :
  reversed_ip_of "8.8.4.4" = "4.4.8.8" /\
  reversed_ip_of "2001:db8::1" = "2001:db8::1".
Proof.
  split; [reflexivity |].
  exact (proj2 (reversed_ip_is_an_involution "2001:db8::1") eq_refl).
Defined.

(** X12: The two blacklist checks of the file ask the same question and agree
    on an answer and on NXDOMAIN; on "no answer" the service says "not
    listed" where the checker says "unknown"; and every other failure is
    "unknown" for the service, also one that the checker lets through as
    an exception. *)
Theorem service_and_checker_differ_on_no_answer :
  forall (resolve : string -> outcome) (zone ip : string),
    let service := ServiceBlacklist.check_zone resolve zone ip in
    let checker := check_single_blacklist resolve (reversed_ip_of ip) zone in
    match resolve (reversed_ip_of ip ++ "." ++ zone) with
    | Answered => service = Some true /\ checker = Some (Some true)
    | Raised e =>
        if issubclass e NXDOMAIN
        then service = Some false /\ checker = Some (Some false)
        else if issubclass e NoAnswer
        then service = Some false /\ checker = Some None
        else service = None /\
             checker = if issubclass e DNSException then Some None else None
    end.
Proof.
  intros resolve zone ip service checker. subst service checker.
  unfold ServiceBlacklist.check_zone, check_single_blacklist.
  fold (reversed_ip_of ip).
  destruct (resolve (reversed_ip_of ip ++ "." ++ zone)) as [| e];
    [split; reflexivity |].
  destruct e; split; reflexivity.
Qed.

End BlacklistMore.

(** ** The fallback information *)

Module FallbackFacts.
Import IPLookup Fallback.

(** X18: The provider tagging of [_get_fallback_ip_info] never takes place.
    The first range of the table, 8.8.0.0/12, is not a network (bits of
    the address lie beyond the prefix), so building it raises
    [ValueError] before any address is compared; the bare [except] ends
    the block, and the result is what was collected before it: the
    address, the host name and the ASN fields.  It has an [org] entry
    only if the ASN fields have one. *)
Theorem fallback_never_names_a_provider :
  forall (ip_obj network : Type) (ip_address : string -> option ip_obj)
         (ip_network : string -> option network)
         (contains : ip_obj -> network -> bool)
         (ip : string) (ptr : option string) (asn_info : gmap string value),
    ip_network "8.8.0.0/12" = None ->
    let info := get_fallback_ip_info ip_obj ip_address network ip_network
                  contains ip ptr asn_info in
    info !! "org" = asn_info !! "org" /\
    (asn_info !! "ip" = None -> info !! "ip" = Some (VStr ip)) /\
    forall accepting : ip_obj -> network -> bool,
      info = get_fallback_ip_info ip_obj ip_address network ip_network
               accepting ip ptr asn_info.
Proof.
  intros ip_obj network ip_address ip_network contains ip ptr asn_info Hnet info.
  assert (Hscan : forall c o i,
            fst (scan_providers ip_obj network ip_network c o cloud_ranges i) = i).
  { intros c o i. unfold cloud_ranges. cbn [scan_providers scan_ranges].
    now rewrite Hnet. }
  assert (Heq : forall c,
            get_fallback_ip_info ip_obj ip_address network ip_network c ip ptr
              asn_info
            = let i : gmap string value := {["ip" := VStr ip]} in
              let i := match ptr with
                       | Some (String ch h) => <["hostname" := VStr (String ch h)]> i
                       | _ => i
                       end in
              if bool_decide (asn_info = ∅) then i else asn_info ∪ i).
  { intros c. unfold get_fallback_ip_info.
    destruct (ip_address ip) as [o |]; [apply Hscan | reflexivity]. }
  subst info. rewrite Heq. cbn zeta. split; [| split].
  - destruct (bool_decide (asn_info = ∅)) eqn:Hb.
    + apply bool_decide_eq_true_1 in Hb. subst asn_info.
      rewrite lookup_empty.
      destruct ptr as [[| ch h] |]; reflexivity.
    + rewrite lookup_union.
      destruct (asn_info !! "org") as [v |] eqn:Ho.
      * now destruct ptr as [[| ch h] |].
      * destruct ptr as [[| ch h] |]; reflexivity.
  - intros Hip. destruct (bool_decide (asn_info = ∅)) eqn:Hb.
    + destruct ptr as [[| ch h] |]; reflexivity.
    + rewrite lookup_union, Hip.
      destruct ptr as [[| ch h] |]; reflexivity.
  - intros accepting. now rewrite Heq.
Qed.

Lemma fallback_never_names_a_provider_witness :
  Ipv4.ip_network "8.8.0.0/12" = None /\
  Ipv4.ip_network "8.0.0.0/12" = Some (134217728, 12)%Z /\
  get_fallback_ip_info Z Ipv4.address (Z * Z) Ipv4.ip_network Ipv4.contains
    "8.8.8.8" (Some "dns.google") ∅ !! "org" = None.
Proof.
  split; [reflexivity | split; [reflexivity |]].
  exact (proj1 (fallback_never_names_a_provider
                  Z (Z * Z) Ipv4.address Ipv4.ip_network Ipv4.contains
                  "8.8.8.8" (Some "dns.google") ∅ eq_refl)).
Defined.

End FallbackFacts.

(** ** The authentication fields *)

Module AuthFacts.
Import Re Auth RegexFacts TimeFacts.

Lemma exec_lit {A} k r s caps (K : string -> captures -> option A) :
  exec (Seq (lit k) r) s caps K =
  match strip_prefix k s with
  | Some rest => exec r rest caps K
  | None => None
  end.
Proof.
  revert s. induction k as [| a k IH]; intros s; [reflexivity |].
  change (exec (Seq (lit (String a k)) r) s caps K)
    with (exec (lit_char a) s caps (fun s1 c1 => exec (Seq (lit k) r) s1 c1 K)).
  destruct s as [| b s]; [reflexivity |].
  cbn [exec lit_char strip_prefix]. unfold Str.eqb_char.
  rewrite (Ascii.eqb_sym a b). destruct (Ascii.eqb b a); [apply IH | reflexivity].
Qed.

(** A group made of a greedy run of one class, before a continuation that
    always succeeds, takes the longest run. *)
Lemma group_run {A} p n s caps (K : string -> captures -> option A) :
  (forall s0 c0, K s0 c0 <> None) ->
  exec (Group n (plus true (Chr p))) s caps K =
  match s with
  | EmptyString => None
  | String c _ =>
      if p c then K (Str.lstrip_by p s) ((n, Spec.take_while p s) :: caps)
      else None
  end.
Proof.
  intros HK. unfold plus. cbn [exec].
  destruct s as [| c s']; [reflexivity |].
  destruct (p c) eqn:Hc; [| reflexivity].
  star_to_greedy p.
  rewrite LatencyFacts.greedy_star_total by (intros s0 c0; apply HK).
  pose proof (take_length_lstrip p (String c s')) as Ht.
  cbn [Str.lstrip_by] in Ht |- *. rewrite Hc in Ht |- *. now rewrite Ht.
Qed.

Lemma take_while_all p s :
  Str.any_char (fun c => negb (p c)) (Spec.take_while p s) = false.
Proof.
  induction s as [| c s IH]; [reflexivity |].
  cbn [Spec.take_while]. destruct (p c) eqn:Hc; [| reflexivity].
  cbn [Str.any_char]. now rewrite Hc, IH.
Qed.

Lemma status_match_at key s c :
  match_at (status_pattern key) s = Some c ->
  letters_only (Core.group_text 1 c) = true.
Proof.
  rewrite match_at_exec. unfold status_pattern. rewrite exec_lit.
  destruct (strip_prefix key s) as [r1 |]; [| discriminate].
  rewrite exec_lit.
  destruct (strip_prefix "=" r1) as [r2 |]; [| discriminate].
  unfold letter. rewrite group_run by discriminate.
  destruct r2 as [| d r2]; [discriminate |].
  destruct (is_letter d) eqn:Hd; [| discriminate].
  intros [= <-]. unfold Core.group_text. cbn [group Nat.eqb].
  unfold letters_only. cbn [Spec.take_while]. rewrite Hd.
  cbn [Str.any_char]. now rewrite Hd, take_while_all.
Qed.

Lemma status_search key s c :
  search (status_pattern key) s = Some c ->
  letters_only (Core.group_text 1 c) = true.
Proof.
  induction s as [| d s IH]; cbn [search].
  - destruct (match_at (status_pattern key) "") eqn:E; [| discriminate].
    intros [= <-]. exact (status_match_at _ _ _ E).
  - destruct (match_at (status_pattern key) (String d s)) eqn:E; [| exact IH].
    intros [= <-]. exact (status_match_at _ _ _ E).
Qed.

Lemma status_of_spec key auth :
  letters_only (fst (status_of key auth)) = true /\
  snd (status_of key auth)
  = String.eqb (Str.lower (fst (status_of key auth))) "pass".
Proof.
  unfold status_of.
  destruct (search (status_pattern key) auth) as [c |] eqn:E.
  - split; [exact (status_search _ _ _ E) | reflexivity].
  - split; reflexivity.
Qed.

(** X8: Each of the three statuses (SPF, DKIM, DMARC) is a non-empty text of
    ASCII letters, whatever the Authentication-Results header holds; its
    flag is set exactly when the status is [pass] in some spelling of
    upper and lower case; and without the header all three statuses are
    [none], all three flags unset and the SPF detail empty. *)
Theorem statuses_are_letters_and_flags_mean_pass :
  forall (parseaddr : string -> string * string) (msg : Message.message),
    let a := of_message parseaddr msg in
    (letters_only (spf_status a) = true /\
     spf_authenticated a = String.eqb (Str.lower (spf_status a)) "pass") /\
    (letters_only (dkim_status a) = true /\
     dkim_authenticated a = String.eqb (Str.lower (dkim_status a)) "pass") /\
    (letters_only (dmarc_status a) = true /\
     dmarc_compliant a = String.eqb (Str.lower (dmarc_status a)) "pass") /\
    (Message.get msg "Authentication-Results" "" = "" ->
     (spf_status a, dkim_status a, dmarc_status a) = ("none", "none", "none") /\
     (spf_authenticated a, dkim_authenticated a, dmarc_compliant a)
     = (false, false, false) /\
     spf_info a = "").
Proof.
  intros parseaddr msg a. subst a. unfold of_message.
  destruct (Core.extract_domains parseaddr msg) as [fd rd].
  unfold check_authentication.
  cbn [spf_status spf_authenticated dkim_status dkim_authenticated
       dmarc_status dmarc_compliant spf_info].
  destruct (Message.get msg "Authentication-Results" "") as [| ch auth] eqn:Ha.
  - cbn [fst snd]. repeat split; reflexivity.
  - repeat split; try apply status_of_spec; discriminate.
Qed.

Lemma statuses_are_letters_and_flags_mean_pass_witness :
  let a := of_message Sample.parseaddr [("From", "a@example.com")] in
  (spf_status a, dkim_status a, dmarc_status a) = ("none", "none", "none") /\
  (spf_authenticated a, dkim_authenticated a, dmarc_compliant a)
  = (false, false, false) /\
  spf_info a = "".
Proof.
  exact (proj2 (proj2 (proj2 (statuses_are_letters_and_flags_mean_pass
           Sample.parseaddr [("From", "a@example.com")]))) eq_refl).
Defined.

Lemma length_take n s :
  (n <= String.length s)%nat -> String.length (Str.take n s) = n.
Proof.
  revert s. induction n as [| n IH]; intros s H; [reflexivity |].
  destruct s as [| c s]; [simpl in H; lia |].
  cbn [Str.take String.length]. rewrite IH; [reflexivity | simpl in H; lia].
Qed.

(** X9: The DKIM detail of a result is never longer than 203 characters: it
    is the DKIM-Signature header itself up to 200 characters, its first
    200 characters followed by three dots beyond, and a fixed notice when
    there is no such header, in which case DKIM is not aligned either. *)
Theorem dkim_info_is_cut_at_200 :
  forall (parseaddr : string -> string * string) (msg : Message.message),
    let a := of_message parseaddr msg in
    let signature := Message.get msg "DKIM-Signature" "" in
    (String.length (dkim_info a) <= 203)%nat /\
    (signature = "" ->
     dkim_info a = "No DKIM-Signature found" /\ dkim_aligned a = false) /\
    (signature <> "" -> (String.length signature <= 200)%nat ->
     dkim_info a = signature) /\
    ((200 < String.length signature)%nat ->
     String.length (dkim_info a) = 203%nat /\
     Str.take 200 (dkim_info a) = Str.take 200 signature).
Proof.
  intros parseaddr msg a signature. subst a signature. unfold of_message.
  destruct (Core.extract_domains parseaddr msg) as [fd rd].
  unfold check_authentication. cbn [dkim_info dkim_aligned].
  destruct (Message.get msg "DKIM-Signature" "") as [| ch sig] eqn:Hs.
  - split; [cbn; lia |]. split; [intros _; split; reflexivity |].
    split; [intros H; now elim H | cbn; lia].
  - set (s := String ch sig) in *.
    destruct (200 <? String.length s)%nat eqn:Hl.
    + apply Nat.ltb_lt in Hl.
      assert (Hlen : String.length (Str.take 200 s ++ "...") = 203%nat).
      { rewrite CacheMore.length_append, length_take by lia. reflexivity. }
      split; [lia |]. split; [discriminate |].
      split; [intros _ Hle; lia |]. intros _. split; [exact Hlen |].
      clear Hlen. revert Hl. generalize s. generalize 200%nat.
      induction n as [| n IH]; intros t Ht; [reflexivity |].
      destruct t as [| c t]; [simpl in Ht; lia |].
      change (Str.take (S n) (String c (Str.take n t ++ "..."))
              = String c (Str.take n t)).
      cbn [Str.take]. f_equal. apply IH. simpl in Ht. lia.
    + apply Nat.ltb_ge in Hl. split; [lia |]. split; [discriminate |].
      split; [reflexivity | lia].
Qed.

Lemma dkim_info_is_cut_at_200_witness :
  let a := of_message Sample.parseaddr
             [("DKIM-Signature", "v=1; d=example.com; s=sel")] in
  dkim_info a = "v=1; d=example.com; s=sel".
Proof.
  refine (proj1 (proj2 (proj2 (dkim_info_is_cut_at_200 Sample.parseaddr
            [("DKIM-Signature", "v=1; d=example.com; s=sel")]))) _ _).
  - discriminate.
  - apply Nat.leb_le. vm_compute. reflexivity.
Defined.

End AuthFacts.

(** ** What a match is made of *)

Module MatchFacts.
Import Re Core RegexFacts TimeFacts.

Lemma suffix_trans a b c : Text.suffix a b -> Text.suffix b c -> Text.suffix a c.
Proof.
  intros Hab Hbc. induction Hbc as [| d s _ IH]; [exact Hab |].
  now constructor.
Qed.

Lemma suffix_length t s :
  Text.suffix t s -> (String.length t <= String.length s)%nat.
Proof. induction 1; simpl; lia. Qed.

Lemma suffix_split t s :
  Text.suffix t s ->
  s = (Str.take (String.length s - String.length t) s ++ t)%string.
Proof.
  induction 1 as [| c s H IH].
  - rewrite Nat.sub_diag. now destruct t.
  - pose proof (suffix_length _ _ H) as Hl.
    replace (String.length (String c s) - String.length t)%nat
      with (S (String.length s - String.length t)) by (simpl; lia).
    change (String c s
            = String c (Str.take (String.length s - String.length t) s ++ t)).
    f_equal. exact IH.
Qed.

Lemma suffix_prefix t s :
  Text.suffix t s -> exists before, s = (before ++ t)%string.
Proof.
  induction 1 as [| c s _ (p & ->)]; [now exists EmptyString |].
  now exists (String c p).
Qed.

(** A result of the loop of a repetition comes from [k], on what is left
    of the text. *)
Lemma star_loop_sound {A}
    (step : string -> captures -> (string -> captures -> option A) -> option A)
    greedy (k : string -> captures -> option A) :
  (forall s caps k' x, step s caps k' = Some x ->
     exists s1 c1, Text.suffix s1 s /\ k' s1 c1 = Some x) ->
  forall fuel s caps x,
    star_loop step greedy k fuel s caps = Some x ->
    exists s1 c1, Text.suffix s1 s /\ k s1 c1 = Some x.
Proof.
  intros Hstep. induction fuel as [| fuel IH]; intros s caps x H.
  - cbn [star_loop] in H. destruct greedy; cbn [orelse] in H.
    + exists s, caps. split; [apply Text.suffix_refl | exact H].
    + destruct (k s caps) as [y |] eqn:E; cbn [orelse] in H; [| discriminate].
      injection H as <-. exists s, caps. split; [apply Text.suffix_refl | exact E].
  - cbn [star_loop] in H.
    assert (Hmore : forall y,
      step s caps (fun s1 c1 =>
        if (String.length s1 <? String.length s)%nat
        then star_loop step greedy k fuel s1 c1 else None) = Some y ->
      exists s1 c1, Text.suffix s1 s /\ k s1 c1 = Some y).
    { intros y Hy. apply Hstep in Hy. destruct Hy as (s1 & c1 & Hs & Hy).
      destruct (String.length s1 <? String.length s)%nat; [| discriminate].
      apply IH in Hy. destruct Hy as (s2 & c2 & Hs2 & Hy).
      exists s2, c2. split; [exact (suffix_trans _ _ _ Hs2 Hs) | exact Hy]. }
    destruct greedy.
    + destruct (step s caps _) as [y |] eqn:E; cbn [orelse] in H.
      * injection H as <-. now apply Hmore.
      * exists s, caps. split; [apply Text.suffix_refl | exact H].
    + destruct (k s caps) as [y |] eqn:E; cbn [orelse] in H.
      * injection H as <-. exists s, caps. split; [apply Text.suffix_refl | exact E].
      * now apply Hmore.
Qed.

(** A result of the matcher comes from its continuation, called on what
    is left of the text. *)
Lemma exec_sound {A} r : forall s caps (k : string -> captures -> option A) x,
  exec r s caps k = Some x ->
  exists s1 c1, Text.suffix s1 s /\ k s1 c1 = Some x.
Proof.
  induction r as [| p | r1 IH1 r2 IH2 | r1 IH1 r2 IH2 | g r1 IH1 | n r1 IH1 |];
    intros s caps k x H; cbn [exec] in H.
  - exists s, caps. split; [apply Text.suffix_refl | exact H].
  - destruct s as [| c s']; [discriminate |].
    destruct (p c); [| discriminate].
    exists s', caps. split; [apply Text.suffix_tail, Text.suffix_refl | exact H].
  - apply IH1 in H. destruct H as (s1 & c1 & Hs1 & H).
    apply IH2 in H. destruct H as (s2 & c2 & Hs2 & H).
    exists s2, c2. split; [exact (suffix_trans _ _ _ Hs2 Hs1) | exact H].
  - destruct (exec r1 s caps k) as [y |] eqn:E; cbn [orelse] in H.
    + injection H as <-. now apply IH1 in E.
    + now apply IH2 in H.
  - apply (star_loop_sound (fun s0 c0 k0 => exec r1 s0 c0 k0) g k) in H;
      [exact H |].
    intros s0 c0 k0 y Hy. now apply IH1 in Hy.
  - apply IH1 in H. destruct H as (s1 & c1 & Hs1 & H). eauto.
  - destruct s as [| c [| c' s']].
    + exists EmptyString, caps. split; [apply Text.suffix_refl | exact H].
    + destruct (Str.is_newline c); [| discriminate].
      exists (String c EmptyString), caps. split; [apply Text.suffix_refl | exact H].
    + discriminate.
Qed.

(** What follows must match somewhere in what is left. *)
Lemma exec_seq_none {A} r1 r2 s caps (k : string -> captures -> option A) :
  (forall s1 c1, Text.suffix s1 s -> exec r2 s1 c1 k = None) ->
  exec (Seq r1 r2) s caps k = None.
Proof.
  intros H. cbn [exec].
  destruct (exec r1 s caps _) as [x |] eqn:E; [| reflexivity].
  apply exec_sound in E. destruct E as (s1 & c1 & Hs & E).
  now rewrite (H s1 c1 Hs) in E.
Qed.

(** The whole match of a search is a part of the text searched. *)
Lemma search_substring r s c :
  search r s = Some c -> Text.substring (group_text 0 c) s.
Proof.
  induction s as [| d s IH]; cbn [search].
  - destruct (match_at r "") as [c0 |] eqn:E; [| discriminate].
    intros [= <-]. rewrite match_at_exec in E. apply exec_sound in E.
    destruct E as (s1 & c1 & Hs & [= <-]).
    unfold group_text. cbn [group Nat.eqb].
    exists EmptyString, s1. exact (suffix_split _ _ Hs).
  - destruct (match_at r (String d s)) as [c0 |] eqn:E.
    + intros [= <-]. rewrite match_at_exec in E. apply exec_sound in E.
      destruct E as (s1 & c1 & Hs & [= <-]).
      unfold group_text. cbn [group Nat.eqb].
      exists EmptyString, s1. exact (suffix_split _ _ Hs).
    + intros H. destruct (IH H) as (pre & post & ->).
      now exists (String d pre), post.
Qed.

Lemma suffix_contains c t s :
  Text.suffix t s -> Str.contains_char c s = false -> Str.contains_char c t = false.
Proof.
  induction 1 as [| d s _ IH]; intros H; [exact H |].
  apply IH. exact (LatencyFacts.contains_char_tail _ _ _ H).
Qed.

(** Without a dot nothing is a dotted quad. *)
Lemma ipv4_search_none s :
  Str.contains_char "." s = false -> search ipv4_pattern s = None.
Proof.
  apply (LatencyFacts.search_none ipv4_pattern s
           (fun s => Str.contains_char "." s = false)).
  - intros c s0. apply LatencyFacts.contains_char_tail.
  - intros s0 H. rewrite match_at_exec. unfold ipv4_pattern.
    change (rep 3 (Seq octet (lit "."))) with
      (Seq (Seq octet (lit ".")) (rep 2 (Seq octet (lit ".")))).
    change (exec (Seq (Seq (Seq octet (lit ".")) (rep 2 (Seq octet (lit "."))))
                      octet) s0 [] ?k)
      with (exec (Seq octet (lit ".")) s0 []
              (fun s1 c1 => exec (rep 2 (Seq octet (lit "."))) s1 c1
                 (fun s2 c2 => exec octet s2 c2 k))).
    apply exec_seq_none. intros s1 c1 Hs.
    apply LatencyFacts.exec_lit1_none. exact (suffix_contains _ _ _ Hs H).
Qed.

(** Without a colon nothing is an IPv6 address. *)
Lemma ipv6_search_none s :
  Str.contains_char ":" s = false -> search ipv6_pattern s = None.
Proof.
  apply (LatencyFacts.search_none ipv6_pattern s
           (fun s => Str.contains_char ":" s = false)).
  - intros c s0. apply LatencyFacts.contains_char_tail.
  - intros s0 H. rewrite match_at_exec. unfold ipv6_pattern.
    change (rep 7 (Seq (rep_range 1 4 hex) (lit ":"))) with
      (Seq (Seq (rep_range 1 4 hex) (lit ":"))
           (rep 6 (Seq (rep_range 1 4 hex) (lit ":")))).
    change (exec (Seq (Seq (Seq (rep_range 1 4 hex) (lit ":"))
                           (rep 6 (Seq (rep_range 1 4 hex) (lit ":"))))
                      (rep_range 1 4 hex)) s0 [] ?k)
      with (exec (Seq (rep_range 1 4 hex) (lit ":")) s0 []
              (fun s1 c1 => exec (rep 6 (Seq (rep_range 1 4 hex) (lit ":"))) s1 c1
                 (fun s2 c2 => exec (rep_range 1 4 hex) s2 c2 k))).
    apply exec_seq_none. intros s1 c1 Hs.
    apply LatencyFacts.exec_lit1_none. exact (suffix_contains _ _ _ Hs H).
Qed.

(** X7: The address that [_extract_ip_from_text] returns is a part of the text
    it was given, copied as it stands, or empty; and it is empty for a
    text with neither a dot nor a colon.  So the [ip] of a hop is always
    a part of its [from] text. *)
Theorem extracted_ip_is_part_of_the_text :
  forall text : string,
    Text.substring (extract_ip_from_text text) text /\
    (Str.contains_char "." text = false -> Str.contains_char ":" text = false ->
     extract_ip_from_text text = "") /\
    forall pdt sft idx,
      let r := parse_received_header pdt sft text idx in
      Text.substring (ip r) (from_ r).
Proof.
  assert (Hsub : forall t, Text.substring (extract_ip_from_text t) t).
  { intros t. unfold extract_ip_from_text.
    destruct (search ipv4_pattern t) as [c |] eqn:E4;
      [exact (search_substring _ _ _ E4) |].
    destruct (search ipv6_pattern t) as [c |] eqn:E6;
      [exact (search_substring _ _ _ E6) |].
    now exists EmptyString, t. }
  intros text. split; [apply Hsub | split].
  - intros Hd Hc. unfold extract_ip_from_text.
    now rewrite (ipv4_search_none _ Hd), (ipv6_search_none _ Hc).
  - intros pdt sft idx r. subst r. unfold parse_received_header.
    destruct (search time_pattern text) as [c |].
    + destruct (pdt _); cbn [ip from_]; apply Hsub.
    + cbn [ip from_]. apply Hsub.
Qed.

Lemma extracted_ip_is_part_of_the_text_witness :
  extract_ip_from_text "mail.example.com [203.0.113.7]" = "203.0.113.7" /\
  extract_ip_from_text "localhost" = "".
Proof.
  split; [vm_compute; reflexivity |].
  exact (proj1 (proj2 (extracted_ip_is_part_of_the_text "localhost"))
               eq_refl eq_refl).
Defined.

End MatchFacts.

(** ** The timing taken from the latency header *)

Module LatencyPath.
Import Core RelayFacts DelayFacts Chain.

(** X5: With a latency header that the parser can read, an analysis that
    returns has taken the total from it: the source names the header, the
    header text is kept, and no hop has been given a delay, whatever the
    timestamps of the hops are. *)
Theorem usable_latency_header_leaves_hops_untimed :
  forall pdt sft pa (ip_obj : Type) (ipa : string -> option ip_obj) ipp ipl
         (msg : Message.message) (r : EmailParseResult),
    Core.analyze pdt sft pa ip_obj ipa ipp ipl msg = Ok r ->
    Spec2.latency_usable msg = true ->
    Some (total_delay r)
    = Latency.parse_latency_header (Message.get msg latency_header_name "") /\
    delay_source r = latency_header_name /\
    end_to_end_latency_header r = Message.get msg latency_header_name "" /\
    Forall (fun h => delay h = 0%Z) (relays r) /\
    Core.process_relays pdt sft msg = Ok (relays r).
Proof.
  intros pdt sft pa ip_obj ipa ipp ipl msg r H Hu.
  unfold Core.analyze in H.
  destruct (extract_domains pa msg) as [fd rd].
  destruct (Core.process_relays pdt sft msg) as [rs |] eqn:Hrs;
    cbn [bind] in H; [| discriminate].
  pose proof (process_relays_result _ _ _ _ Hrs) as (_ & _ & _ & Hz).
  unfold Spec2.latency_usable in Hu. unfold calculate_delays in H.
  destruct (Message.get msg latency_header_name "") as [| ch h]; [discriminate |].
  destruct (Latency.parse_latency_header (String ch h)) as [q |];
    [| discriminate].
  injection H as <-. cbn. auto.
Qed.

Lemma usable_latency_header_leaves_hops_untimed_witness :
  exists r,
    Sample.analyze Sample.two_hops_with_latency = Ok r /\
    delay_source r = latency_header_name /\
    Forall (fun h => delay h = 0%Z) (relays r).
Proof.
  eexists. split; [vm_compute; reflexivity |].
  pose proof (usable_latency_header_leaves_hops_untimed
            Sample.parsedate Sample.strftime Sample.parseaddr unit
            Sample.ip_address Sample.is_private Sample.is_loopback
            Sample.two_hops_with_latency _ eq_refl eq_refl)
    as (_ & H1 & _ & H2 & _).
  split; [exact H1 | exact H2].
Defined.

End LatencyPath.

(** ** The ASN fields and the fallback information *)

Module AsnFacts.
Import IPLookup Asn Fallback.

Lemma length_split_on sep s :
  length (Str.split_on sep s)
  = S (length (List.filter (fun c => Ascii.eqb c sep) (list_ascii_of_string s))).
Proof.
  induction s as [| c s IH]; [reflexivity |].
  cbn [Str.split_on list_ascii_of_string List.filter].
  destruct (Ascii.eqb c sep).
  - cbn [length]. now rewrite IH.
  - rewrite <- IH. now destruct (Str.split_on sep s).
Qed.

Lemma asn_of_txt_keys record :
  let d := asn_of_txt record in
  d !! "org" = None /\ d !! "ip" = None /\ d !! "hostname" = None /\
  (d = ∅ \/
   exists a p c r t,
     d !! "asn" = Some (VStr a) /\ d !! "prefix" = Some (VStr p) /\
     d !! "country" = Some (VStr c) /\ d !! "registry" = Some (VStr r) /\
     d !! "allocated" = Some (VStr t)).
Proof.
  unfold asn_of_txt.
  destruct (3 <=? length _)%nat.
  - cbn zeta. repeat split; try reflexivity. right.
    eexists _, _, _, _, _. repeat split; reflexivity.
  - cbn zeta. repeat split; try reflexivity. now left.
Qed.

Lemma asn_of_txt_empty record :
  asn_of_txt record = ∅
  <-> (count_char "|" (Str.strip_chars quote record) < 2)%nat.
Proof.
  unfold asn_of_txt, count_char. rewrite length_map, length_split_on.
  set (n := length (List.filter _ _)).
  destruct (3 <=? S n)%nat eqn:E.
  - apply Nat.leb_le in E. split; [| lia].
    intros H. apply (f_equal (fun m => m !! "asn")) in H.
    rewrite lookup_insert_eq, lookup_empty in H. discriminate.
  - apply Nat.leb_gt in E. split; [lia | reflexivity].
Qed.

(** X19: [get_asn_info] returns either nothing or all five fields ([asn],
    [prefix], [country], [registry], [allocated]) and never another key.
    It returns nothing for an address that is not valid and public, when
    the query raises, and when the first record of the answer has fewer
    than two bars; with two bars or more it returns the five fields. *)
Theorem asn_info_is_empty_or_has_five_fields :
  forall (resolve_txt : string -> txt_outcome)
         (is_valid_ip is_private_ip : string -> bool) (ip : string),
    let d := get_asn_info resolve_txt is_valid_ip is_private_ip ip in
    let query := (Blacklist.reversed_ip_of ip ++ ".origin.asn.cymru.com")%string in
    (d = ∅ \/
     exists a p c r t,
       d !! "asn" = Some (VStr a) /\ d !! "prefix" = Some (VStr p) /\
       d !! "country" = Some (VStr c) /\ d !! "registry" = Some (VStr r) /\
       d !! "allocated" = Some (VStr t)) /\
    (d !! "org" = None /\ d !! "ip" = None /\ d !! "hostname" = None) /\
    (is_valid_ip ip = false \/ is_private_ip ip = true -> d = ∅) /\
    (resolve_txt query = TxtRaised -> d = ∅) /\
    (forall record rest,
        is_valid_ip ip = true -> is_private_ip ip = false ->
        resolve_txt query = TxtAnswer (record :: rest) ->
        (d = ∅ <-> (count_char "|" (Str.strip_chars quote record) < 2)%nat)).
Proof.
  intros resolve_txt is_valid_ip is_private_ip ip d query. subst d query.
  unfold get_asn_info. fold (Blacklist.reversed_ip_of ip).
  destruct (is_valid_ip ip) eqn:Hv; cbn [negb orb].
  - destruct (is_private_ip ip) eqn:Hp.
    + repeat split; auto; try discriminate.
    + destruct (resolve_txt _) as [[| record rest] |] eqn:Hr.
      * repeat split; auto; discriminate.
      * destruct (asn_of_txt_keys record) as (H1 & H2 & H3 & H4).
        split; [exact H4 |]. split; [auto |].
        split; [intros [H | H]; discriminate |].
        split; [discriminate |].
        intros record' rest' _ _ [= <- <-]. apply asn_of_txt_empty.
      * repeat split; auto; discriminate.
  - repeat split; auto; discriminate.
Qed.

Lemma asn_info_is_empty_or_has_five_fields_witness :
  let record := (quote ++ "15169 | 8.8.8.0/24 | US | arin | 1992-12-01" ++ quote)%string in
  let d := get_asn_info (fun _ => TxtAnswer [record]) Sample.public_ip
             Sample.private_ip "8.8.8.8" in
  d !! "asn" = Some (VStr "15169") /\ d !! "allocated" = Some (VStr "1992-12-01") /\
  ~ (d = ∅).
Proof.
  intros record d. split; [vm_compute; reflexivity |].
  split; [vm_compute; reflexivity |].
  intros H.
  apply (proj2 (proj2 (proj2 (proj2 (asn_info_is_empty_or_has_five_fields
           (fun _ => TxtAnswer [record]) Sample.public_ip Sample.private_ip
           "8.8.8.8")))) record [] eq_refl eq_refl eq_refl) in H.
  vm_compute in H. lia.
Defined.

End AsnFacts.
